(** * Asset chaincode (chaincode/contract.go): a shallow embedding

    The contract [SimpleChaincode] keeps asset records in the world state of
    a Hyperledger Fabric channel and maintains a [color~name] composite-key
    index beside them.  The Go methods are embedded as functions of a small
    reader/state/error monad [Tx]: the reader part is the ledger snapshot the
    transaction sees, the state part is the log of stub calls and the write
    set accumulated by the invocation, the error part is Go's [error] result.

    What the contract imports is kept at its interface: the [encoding/json]
    codec and the timestamp conversion are parameters ([Platform]), the
    chaincode stub is the ledger model of section [Stub]. *)

From Stdlib Require Import ZArith NArith Ascii String List Lia.
From Stdlib.Strings Require Import Byte.
From stdpp Require Import base option list strings gmap sorting.

Local Open Scope string_scope.
Local Open Scope list_scope.

(** ** Go values *)

(** A Go [error] is modelled by its message; [nil] is the [Ok] branch. *)
Inductive Result (A : Type) : Type :=
| Ok (a : A)
| Err (e : string).
Arguments Ok {A} a.
Arguments Err {A} e.

Definition is_Ok {A} (r : Result A) : bool :=
  match r with Ok _ => true | Err _ => false end.

(** A Go slice that may be [nil]: [None] is the nil slice, [Some l] a
    non-nil slice holding [l]. *)
Definition slice (A : Type) : Type := option (list A).

Definition nil_slice {A} : slice A := None.

Definition append {A} (s : slice A) (x : A) : slice A :=
  match s with
  | None => Some [x]
  | Some l => Some (l ++ [x])
  end.

Definition len {A} (s : slice A) : nat :=
  match s with
  | None => 0
  | Some l => length l
  end.

Definition elems {A} (s : slice A) : list A :=
  match s with
  | None => []
  | Some l => l
  end.

#[global] Instance byte_eq_dec : EqDecision byte := Byte.byte_eq_dec.

(** ** The data model of contract.go *)

Definition index : string := "color~name".

Record Asset : Type := mkAsset {
  DocType : string;
  ID : string;
  Color : string;
  Size : Z;
  Owner : string;
  AppraisedValue : Z
}.

(** [asset.Owner = newOwner] *)
Definition setOwner (a : Asset) (newOwner : string) : Asset :=
  mkAsset (DocType a) (ID a) (Color a) (Size a) newOwner (AppraisedValue a).

(** The wire timestamp of a history entry and Go's [time.Time]. *)
Record ProtoTimestamp : Type := mkProtoTimestamp {
  Seconds : Z;
  Nanos : Z
}.

Record Time : Type := mkTime {
  unixSec : Z;
  nanoSec : Z
}.

Record HistoryQueryResult : Type := mkHistoryQueryResult {
  Record_ : Asset;
  TxId : string;
  Timestamp : Time;
  IsDelete : bool
}.

(** What the iterators of the stub yield ([queryresult.KV] and
    [queryresult.KeyModification]). *)
Module KV.
Record t : Type := mk {
  Key : string;
  Value : list byte
}.
End KV.

Module KeyModification.
Record t : Type := mk {
  TxId : string;
  Value : list byte;
  Timestamp : option ProtoTimestamp;
  IsDelete : bool
}.
End KeyModification.

(** ** UTF-8, as [unicode/utf8] reads a string *)

Module Utf8.

Definition code (c : ascii) : N := N_of_ascii c.

Definition between (lo hi : N) (c : ascii) : bool :=
  (lo <=? code c)%N && (code c <=? hi)%N.

(** continuation byte 10xxxxxx *)
Definition cont (c : ascii) : bool := between 128 191 c.

Definition low6 (c : ascii) : N := (code c - 128)%N.

(** the second byte that the lead byte of a three-byte form admits, and
    of a four-byte form: no overlong form, no surrogate, nothing above
    U+10FFFF *)
Definition second3 (b0 b1 : ascii) : bool :=
  if (code b0 =? 224)%N then between 160 191 b1
  else if (code b0 =? 237)%N then between 128 159 b1
  else cont b1.

Definition second4 (b0 b1 : ascii) : bool :=
  if (code b0 =? 240)%N then between 144 191 b1
  else if (code b0 =? 244)%N then between 128 143 b1
  else cont b1.

(** [runes s] is the sequence of code points [for _, r := range s] yields
    when [utf8.ValidString s] holds, and [None] when it does not: overlong
    forms, surrogates, values above U+10FFFF and truncated sequences are
    all invalid. *)
Fixpoint runes (s : string) : option (list N) :=
  match s with
  | EmptyString => Some []
  | String b0 r0 =>
    if (code b0 <? 128)%N then cons (code b0) <$> runes r0
    else
      match r0 with
      | EmptyString => None
      | String b1 r1 =>
        if between 194 223 b0 then
          if cont b1
          then cons ((code b0 - 192) * 64 + low6 b1)%N <$> runes r1
          else None
        else
          match r1 with
          | EmptyString => None
          | String b2 r2 =>
            if between 224 239 b0 then
              if second3 b0 b1 && cont b2
              then cons ((code b0 - 224) * 4096 + low6 b1 * 64 + low6 b2)%N
                     <$> runes r2
              else None
            else
              match r2 with
              | EmptyString => None
              | String b3 r3 =>
                if between 240 244 b0 then
                  if second4 b0 b1 && cont b2 && cont b3
                  then cons ((code b0 - 240) * 262144 + low6 b1 * 4096
                             + low6 b2 * 64 + low6 b3)%N <$> runes r3
                  else None
                else None
              end
          end
      end
  end.

Definition ValidString (s : string) : bool :=
  match runes s with Some _ => true | None => false end.

(** U+FFFD, the bytes EF BF BD, put before a text *)
Definition replaced (rest : string) : string :=
  String "239" (String "191" (String "189" rest)).

(** The text with every byte that does not start a valid form replaced by
    U+FFFD, each such byte on its own: what a string value becomes when
    [encoding/json] writes it and reads it back. *)
Fixpoint ToValid (s : string) : string :=
  match s with
  | EmptyString => EmptyString
  | String b0 r0 =>
    if (code b0 <? 128)%N then String b0 (ToValid r0)
    else
      match r0 with
      | EmptyString => replaced EmptyString
      | String b1 r1 =>
        if between 194 223 b0 && cont b1
        then String b0 (String b1 (ToValid r1))
        else
          match r1 with
          | EmptyString => replaced (ToValid r0)
          | String b2 r2 =>
            if between 224 239 b0 && second3 b0 b1 && cont b2
            then String b0 (String b1 (String b2 (ToValid r2)))
            else
              match r2 with
              | EmptyString => replaced (ToValid r0)
              | String b3 r3 =>
                if between 240 244 b0 && second4 b0 b1 && cont b2 && cont b3
                then String b0 (String b1 (String b2 (String b3 (ToValid r3))))
                else replaced (ToValid r0)
              end
          end
      end
  end.

(** [utf8.MaxRune], U+10FFFF *)
Definition MaxRune : N := 1114111%N.

(** [string(utf8.MaxRune)], the bytes F4 8F BF BF *)
Definition MaxRuneString : string :=
  String "244" (String "143" (String "191" (String "191" EmptyString))).

End Utf8.

(** ** Composite keys, as the chaincode shim builds and splits them *)

Definition NUL : ascii := "000"%char.

Definition minUnicodeRuneValue : N := 0%N.
Definition maxUnicodeRuneValue : N := Utf8.MaxRune.
Definition compositeKeyNamespace : string := String NUL EmptyString.
Definition emptyKeySubstitute : string := String "001" EmptyString.

Definition forbiddenRune (r : N) : bool :=
  (r =? minUnicodeRuneValue)%N || (r =? maxUnicodeRuneValue)%N.

(** [validateCompositeKeyAttribute]: valid UTF-8 without U+0000 and
    U+10FFFF.  The message texts of the shim are abbreviated. *)
Definition validateCompositeKeyAttribute (str : string) : Result unit :=
  match Utf8.runes str with
  | None => Err "not a valid utf8 string"
  | Some rs =>
    if existsb forbiddenRune rs
    then Err "input contains a unicode rune that is not allowed in the attribute of a composite key"
    else Ok tt
  end.

(** [ck += att + string(minUnicodeRuneValue)] for each attribute *)
Fixpoint appendAttributes (ck : string) (attributes : list string) : Result string :=
  match attributes with
  | [] => Ok ck
  | att :: rest =>
    match validateCompositeKeyAttribute att with
    | Err e => Err e
    | Ok _ => appendAttributes (ck +:+ att +:+ String NUL EmptyString) rest
    end
  end.

Definition CreateCompositeKey (objectType : string) (attributes : list string)
  : Result string :=
  match validateCompositeKeyAttribute objectType with
  | Err e => Err e
  | Ok _ =>
    appendAttributes (compositeKeyNamespace +:+ objectType +:+ String NUL EmptyString)
                     attributes
  end.

(** The scan of [splitCompositeKey]: every U+0000 closes the component
    collected since the previous one; text after the last U+0000 is dropped. *)
Fixpoint splitNul (cur : string) (s : string) : list string :=
  match s with
  | EmptyString => []
  | String c r =>
    if Ascii.eqb c NUL then cur :: splitNul EmptyString r
    else splitNul (cur +:+ String c EmptyString) r
  end.

Definition dropFirst (s : string) : string :=
  match s with
  | EmptyString => EmptyString
  | String _ r => r
  end.

(** [SplitCompositeKey] returns [components[0], components[1:]]; on a key
    without a closed component the Go code panics with an index out of
    range, which is reported here as an error. *)
Definition SplitCompositeKey (compositeKey : string) : Result (string * list string) :=
  match splitNul EmptyString (dropFirst compositeKey) with
  | [] => Err "panic: runtime error: index out of range [0] with length 0"
  | objectType :: attributes => Ok (objectType, attributes)
  end.

(** [validateSimpleKeys]: no key may start in the composite-key namespace;
    the error names the first key that does. *)
Definition startsWithNul (key : string) : bool :=
  match key with
  | EmptyString => false
  | String c _ => Ascii.eqb c NUL
  end.

Fixpoint validateSimpleKeys (simpleKeys : list string) : Result unit :=
  match simpleKeys with
  | [] => Ok tt
  | key :: rest =>
    if startsWithNul key
    then Err ("first character of the key [" +:+ key
              +:+ "] contains a null character which is not allowed")
    else validateSimpleKeys rest
  end.

(** no U+0000 byte in the text *)
Fixpoint nulFree (s : string) : bool :=
  match s with
  | EmptyString => true
  | String c r => negb (Ascii.eqb c NUL) && nulFree r
  end.

(** the key of the index entry of an asset, when its color and id are
    admissible attributes *)
Definition indexKey (color assetID : string) : Result string :=
  CreateCompositeKey index [color; assetID].

(** the text of a composite key over two attributes *)
Definition keyText (c id : string) : string :=
  String NUL (index +:+ String NUL (c +:+ String NUL (id +:+ String NUL EmptyString))).

(** ** The platform the contract imports *)

(** [encoding/json] on the [Asset] struct and [ptypes.Timestamp], taken at
    their contract.  The encoder always succeeds on the struct and writes a
    JSON object, which is not empty.  It coerces string values to valid
    UTF-8 (the documentation of [json.Marshal]: invalid bytes are replaced
    by the Unicode replacement rune): [toValidUTF8] is that coercion, it
    yields valid UTF-8 and leaves valid UTF-8 as it is; integers are
    written in full.  The decoder reads back what the encoder wrote, and
    refuses the one byte 0x00. *)
Class Platform : Type := {
  json_Marshal : Asset -> Result (list byte);
  json_Unmarshal : list byte -> Result Asset;
  toValidUTF8 : string -> string;
  ptypes_Timestamp : option ProtoTimestamp -> Result Time;
  toValidUTF8_valid :
    forall s, Utf8.ValidString s = true -> toValidUTF8 s = s;
  toValidUTF8_ValidString :
    forall s, Utf8.ValidString (toValidUTF8 s) = true;
  json_Marshal_total :
    forall a, exists b, json_Marshal a = Ok b;
  json_Marshal_nonempty :
    forall a b, json_Marshal a = Ok b -> b <> [];
  json_round_trip :
    forall a b, json_Marshal a = Ok b ->
      json_Unmarshal b =
      Ok (mkAsset (toValidUTF8 (DocType a)) (toValidUTF8 (ID a))
                  (toValidUTF8 (Color a)) (Size a)
                  (toValidUTF8 (Owner a)) (AppraisedValue a));
  json_Unmarshal_marker :
    is_Ok (json_Unmarshal [x00]) = false
}.

(** the text fields of a record are valid UTF-8 *)
Definition validText (a : Asset) : Prop :=
  Utf8.ValidString (DocType a) = true /\ Utf8.ValidString (ID a) = true
  /\ Utf8.ValidString (Color a) = true /\ Utf8.ValidString (Owner a) = true.

(** The decoder's half of the coercion: [json.Unmarshal] replaces what is
    not valid UTF-8 in a quoted string by U+FFFD, so the strings of a record
    it returns are valid UTF-8. *)
Class ValidDecoder `{Platform} : Prop :=
  json_Unmarshal_valid : forall b a, json_Unmarshal b = Ok a -> validText a.

(** ** The ledger behind the stub *)

Inductive StubCall : Type :=
| CallGetState (key : string)
| CallPutState (key : string) (value : list byte)
| CallDelState (key : string)
| CallGetStateByRange (startKey endKey : string)
| CallGetQueryResult (query : string)
| CallGetHistoryForKey (key : string).

Inductive Write : Type :=
| WPut (key : string) (value : list byte)
| WDel (key : string).

(** The snapshot one invocation runs against.  [world] is the committed
    world state; [richQuery] and [keyHistory] stand for the state database's
    query engine and the history database; [fault] makes a stub call fail
    with a message, [nextFault] makes the n-th [Next] of the iterator a call
    opened fail. *)
Record Ledger : Type := mkLedger {
  world : gmap string (list byte);
  richQuery : string -> list KV.t;
  keyHistory : string -> list KeyModification.t;
  fault : StubCall -> option string;
  nextFault : StubCall -> nat -> option string
}.

(** What an invocation accumulates: every stub call it made, in order, and
    the writes the stub accepted. *)
Record TxLog : Type := mkTxLog {
  calls : list StubCall;
  wset : list Write
}.

Definition emptyLog : TxLog := mkTxLog [] [].

(** A write of an empty value deletes the key (the note in [CreateAsset]). *)
Definition applyWrite (w : gmap string (list byte)) (wr : Write)
  : gmap string (list byte) :=
  match wr with
  | WPut k [] => delete k w
  | WPut k v => <[k := v]> w
  | WDel k => delete k w
  end.

Definition applyWrites (w : gmap string (list byte)) (ws : list Write)
  : gmap string (list byte) :=
  foldl applyWrite w ws.

(** The world state after the host commits the invocation. *)
Definition committed (L : Ledger) (t : TxLog) : gmap string (list byte) :=
  applyWrites (world L) (wset t).

(** ** The invocation monad *)

Definition Tx (A : Type) : Type := Ledger -> TxLog -> Result A * TxLog.

Definition ret {A} (a : A) : Tx A := fun _ t => (Ok a, t).

Definition fail {A} (e : string) : Tx A := fun _ t => (Err e, t).

Definition bind {A B} (m : Tx A) (k : A -> Tx B) : Tx B :=
  fun L t =>
    match m L t with
    | (Ok a, t') => k a L t'
    | (Err e, t') => (Err e, t')
    end.

Definition liftR {A} (r : Result A) : Tx A := fun _ t => (r, t).

(** [if err != nil { return fmt.Errorf(..., err) }] *)
Definition mapErr {A} (f : string -> string) (m : Tx A) : Tx A :=
  fun L t =>
    match m L t with
    | (Ok a, t') => (Ok a, t')
    | (Err e, t') => (Err (f e), t')
    end.

Notation "x <- m ;; k" := (bind m (fun x => k))
  (at level 100, m at next level, right associativity).

(** the same for plain [Result] values *)
Definition bindR {A B} (r : Result A) (k : A -> Result B) : Result B :=
  match r with
  | Ok a => k a
  | Err e => Err e
  end.

Notation "x <-? r ;; k" := (bindR r (fun x => k))
  (at level 100, r at next level, right associativity).

(** ** The chaincode stub *)

Section Stub.

Definition logCall (c : StubCall) (t : TxLog) : TxLog :=
  mkTxLog (calls t ++ [c]) (wset t).

Definition logWrite (wr : Write) (t : TxLog) : TxLog :=
  mkTxLog (calls t) (wset t ++ [wr]).

(** a call that reads: logged, then failed or answered from the snapshot *)
Definition ask {A} (c : StubCall) (answer : Ledger -> A) : Tx A :=
  fun L t =>
    match fault L c with
    | Some e => (Err e, logCall c t)
    | None => (Ok (answer L), logCall c t)
    end.

(** a call that writes: logged, then failed or added to the write set *)
Definition tell (c : StubCall) (wr : Write) : Tx unit :=
  fun L t =>
    match fault L c with
    | Some e => (Err e, logCall c t)
    | None => (Ok tt, logWrite wr (logCall c t))
    end.

(** [GetState] answers from the committed state, never from the writes of
    the running invocation; [None] is the nil slice of an absent key.
    [PutState] and [DelState] only add to the write set. *)
Definition GetState (key : string) : Tx (option (list byte)) :=
  ask (CallGetState key) (fun L => world L !! key).

Definition PutState (key : string) (value : list byte) : Tx unit :=
  if String.eqb key EmptyString
  then fail "key must not be an empty string"
  else tell (CallPutState key value) (WPut key value).

Definition DelState (key : string) : Tx unit :=
  tell (CallDelState key) (WDel key).

(** keys of the half-open range; an empty end key leaves it unbounded *)
Definition inRange (startKey endKey k : string) : bool :=
  String.leb startKey k
  && (String.eqb endKey EmptyString || String.ltb k endKey).

Definition keyLe (x y : string * list byte) : Prop :=
  String.leb x.1 y.1 = true.

#[global] Instance keyLe_dec x y : Decision (keyLe x y).
Proof. unfold keyLe. apply _. Defined.

Definition rangeScan (w : gmap string (list byte)) (startKey endKey : string)
  : list KV.t :=
  (fun kv => KV.mk kv.1 kv.2)
    <$> merge_sort keyLe
          (filter (fun kv => inRange startKey endKey kv.1 = true) (map_to_list w)).

(** An iterator is the list of what its [Next] calls return. *)
Definition iterator (A : Type) : Type := list (Result A).

Definition iterate {A} (L : Ledger) (c : StubCall) (items : list A) : iterator A :=
  imap (fun n x => match nextFault L c n with
                   | Some e => Err e
                   | None => Ok x
                   end) items.

Definition handleGetStateByRange (startKey endKey : string)
  : Tx (iterator KV.t) :=
  ask (CallGetStateByRange startKey endKey)
      (fun L => iterate L (CallGetStateByRange startKey endKey)
                        (rangeScan (world L) startKey endKey)).

Definition GetStateByRange (startKey endKey : string)
  : Tx (iterator KV.t) :=
  let startKey := if String.eqb startKey EmptyString
                  then emptyKeySubstitute else startKey in
  _ <- liftR (validateSimpleKeys [startKey; endKey]) ;;
  handleGetStateByRange startKey endKey.

Definition GetStateByPartialCompositeKey (objectType : string)
           (attributes : list string) : Tx (iterator KV.t) :=
  partialCompositeKey <- liftR (CreateCompositeKey objectType attributes) ;;
  handleGetStateByRange partialCompositeKey
                        (partialCompositeKey +:+ Utf8.MaxRuneString).

Definition GetQueryResult (query : string) : Tx (iterator KV.t) :=
  ask (CallGetQueryResult query)
      (fun L => iterate L (CallGetQueryResult query) (richQuery L query)).

Definition GetHistoryForKey (key : string)
  : Tx (iterator KeyModification.t) :=
  ask (CallGetHistoryForKey key)
      (fun L => iterate L (CallGetHistoryForKey key) (keyHistory L key)).

End Stub.

(** ** The contract (chaincode/contract.go) *)

(** The logging calls of the Go methods write to the process log only and
    are left out; every stub call, branch and returned error is kept. *)

Definition dq : string := String "034" EmptyString.

Section Contract.

Context `{Platform}.

Definition AssetExists (assetID : string) : Tx bool :=
  assetBytes <- mapErr (fun e => "failed to read asset " +:+ assetID
                                 +:+ " from world state. " +:+ e)
                       (GetState assetID) ;;
  ret (match assetBytes with Some _ => true | None => false end).

Definition CreateAsset (assetID color : string) (size : Z) (owner : string)
           (appraisedValue : Z) : Tx unit :=
  exists_ <- mapErr (fun e => "failed to get asset: " +:+ e)
                    (AssetExists assetID) ;;
  if exists_ : bool then fail ("asset already exists: " +:+ assetID)
  else
    let asset := mkAsset "asset" assetID color size owner appraisedValue in
    assetBytes <- liftR (json_Marshal asset) ;;
    _ <- PutState assetID assetBytes ;;
    colorNameIndexKey <- liftR (CreateCompositeKey index [Color asset; ID asset]) ;;
    let value := [x00] in
    PutState colorNameIndexKey value.

Definition ReadAsset (assetID : string) : Tx Asset :=
  assetBytes <- mapErr (fun e => "failed to get asset " +:+ assetID +:+ ": " +:+ e)
                       (GetState assetID) ;;
  match assetBytes with
  | None => fail ("asset " +:+ assetID +:+ " does not exist")
  | Some assetBytes => liftR (json_Unmarshal assetBytes)
  end.

Definition DeleteAsset (assetID : string) : Tx unit :=
  asset <- ReadAsset assetID ;;
  _ <- mapErr (fun e => "failed to delete asset " +:+ assetID +:+ ": " +:+ e)
              (DelState assetID) ;;
  colorNameIndexKey <- liftR (CreateCompositeKey index [Color asset; ID asset]) ;;
  DelState colorNameIndexKey.

Definition TransferAsset (assetID newOwner : string) : Tx unit :=
  asset <- ReadAsset assetID ;;
  let asset := setOwner asset newOwner in
  assetBytes <- liftR (json_Marshal asset) ;;
  PutState assetID assetBytes.

(** the loop of [constructQueryResponseFromIterator]; [assets] starts as
    the nil slice of [var assets []*Asset] *)
Fixpoint constructLoop (resultsIterator : iterator KV.t) (assets : slice Asset)
  : Result (slice Asset) :=
  match resultsIterator with
  | [] => Ok assets
  | next :: rest =>
    queryResult <-? next ;;
    asset <-? json_Unmarshal (KV.Value queryResult) ;;
    constructLoop rest (append assets asset)
  end.

Definition constructQueryResponseFromIterator (resultsIterator : iterator KV.t)
  : Result (slice Asset) :=
  constructLoop resultsIterator nil_slice.

Definition GetAssetsByRange (startKey endKey : string) : Tx (slice Asset) :=
  resultsIterator <- GetStateByRange startKey endKey ;;
  liftR (constructQueryResponseFromIterator resultsIterator).

(** the body of the loop of [TransferAssetByColor] for one index entry *)
Definition transferEntry (newOwner : string) (responseRange : KV.t) : Tx unit :=
  split <- liftR (SplitCompositeKey (KV.Key responseRange)) ;;
  match snd split with
  | _ :: returnedAssetID :: _ =>
    asset <- ReadAsset returnedAssetID ;;
    let asset := setOwner asset newOwner in
    assetBytes <- liftR (json_Marshal asset) ;;
    mapErr (fun e => "transfer failed for asset " +:+ returnedAssetID +:+ ": " +:+ e)
           (PutState returnedAssetID assetBytes)
  | _ => ret tt
  end.

Fixpoint transferLoop (newOwner : string) (coloredAssetResultsIterator : iterator KV.t)
  : Tx unit :=
  match coloredAssetResultsIterator with
  | [] => ret tt
  | next :: rest =>
    responseRange <- liftR next ;;
    _ <- transferEntry newOwner responseRange ;;
    transferLoop newOwner rest
  end.

Definition TransferAssetByColor (color newOwner : string) : Tx unit :=
  coloredAssetResultsIterator <- GetStateByPartialCompositeKey index [color] ;;
  transferLoop newOwner coloredAssetResultsIterator.

Definition getQueryResultForQueryString (queryString : string) : Tx (slice Asset) :=
  resultsIterator <- GetQueryResult queryString ;;
  liftR (constructQueryResponseFromIterator resultsIterator).

(** [fmt.Sprintf] with one [%s] verb: the argument is spliced in as it is. *)
Definition ownerQueryString (owner : string) : string :=
  "{" +:+ dq +:+ "selector" +:+ dq +:+ ":{" +:+ dq +:+ "docType" +:+ dq +:+ ":"
      +:+ dq +:+ "asset" +:+ dq +:+ "," +:+ dq +:+ "owner" +:+ dq +:+ ":"
      +:+ dq +:+ owner +:+ dq +:+ "}}".

Definition QueryAssetsByOwner (owner : string) : Tx (slice Asset) :=
  let queryString := ownerQueryString owner in
  getQueryResultForQueryString queryString.

Definition QueryAssets (queryString : string) : Tx (slice Asset) :=
  getQueryResultForQueryString queryString.

(** one turn of the loop of [GetAssetHistory] *)
Definition historyRecord (assetID : string) (response : KeyModification.t)
  : Result HistoryQueryResult :=
  asset <-? (if (0 <? length (KeyModification.Value response))%nat
             then json_Unmarshal (KeyModification.Value response)
             else Ok (mkAsset EmptyString assetID EmptyString 0 EmptyString 0)) ;;
  timestamp <-? ptypes_Timestamp (KeyModification.Timestamp response) ;;
  Ok (mkHistoryQueryResult asset (KeyModification.TxId response) timestamp
                           (KeyModification.IsDelete response)).

Fixpoint historyLoop (assetID : string) (resultsIterator : iterator KeyModification.t)
         (records : slice HistoryQueryResult) : Result (slice HistoryQueryResult) :=
  match resultsIterator with
  | [] => Ok records
  | next :: rest =>
    response <-? next ;;
    record <-? historyRecord assetID response ;;
    historyLoop assetID rest (append records record)
  end.

Definition GetAssetHistory (assetID : string) : Tx (slice HistoryQueryResult) :=
  resultsIterator <- GetHistoryForKey assetID ;;
  liftR (historyLoop assetID resultsIterator nil_slice).

Definition initialAssets : list Asset :=
  [ mkAsset "asset" "asset1" "blue" 5 "Tomoko" 300;
    mkAsset "asset" "asset2" "red" 5 "Brad" 400;
    mkAsset "asset" "asset3" "green" 10 "Jin Soo" 500;
    mkAsset "asset" "asset4" "yellow" 10 "Max" 600;
    mkAsset "asset" "asset5" "black" 15 "Adriana" 700;
    mkAsset "asset" "asset6" "white" 15 "Michel" 800 ].

(** [for i, asset := range assets] *)
Fixpoint createEach (assets : list Asset) : Tx unit :=
  match assets with
  | [] => ret tt
  | asset :: rest =>
    _ <- CreateAsset (ID asset) (Color asset) (Size asset) (Owner asset)
                     (AppraisedValue asset) ;;
    createEach rest
  end.

Definition InitLedger : Tx unit := createEach initialAssets.

End Contract.

(** ** A reference platform *)

(** A platform that meets the contract of [Platform], used to run the
    contract on concrete ledgers.  Its codec coerces the string values as
    the JSON encoder does and writes the record in a binary form behind an
    opening brace; its timestamp conversion is the validity check of
    [ptypes.Timestamp]. *)
Module Reference.

Definition tupleOf (a : Asset) : string * string * string * Z * string * Z :=
  (DocType a, ID a, Color a, Size a, Owner a, AppraisedValue a).

Definition ofTuple (p : string * string * string * Z * string * Z) : Asset :=
  match p with
  | (d, i, c, s, o, v) => mkAsset d i c s o v
  end.

Fixpoint posBytes (p : positive) : list byte :=
  match p with
  | xH => []
  | xO q => x30 :: posBytes q
  | xI q => x31 :: posBytes q
  end.

Fixpoint bytesPos (l : list byte) : option positive :=
  match l with
  | [] => Some xH
  | b :: r =>
    match bytesPos r with
    | None => None
    | Some q =>
      if Byte.eqb b x30 then Some (xO q)
      else if Byte.eqb b x31 then Some (xI q)
      else None
    end
  end.

(** the string values coerced as the encoder coerces them when it writes
    and the decoder when it reads *)
Definition coerced (a : Asset) : Asset :=
  mkAsset (Utf8.ToValid (DocType a)) (Utf8.ToValid (ID a)) (Utf8.ToValid (Color a))
          (Size a) (Utf8.ToValid (Owner a)) (AppraisedValue a).

Definition Marshal (a : Asset) : Result (list byte) :=
  Ok (x7b :: posBytes (encode (tupleOf (coerced a)))).

Definition Unmarshal (data : list byte) : Result Asset :=
  match data with
  | x7b :: r =>
    match bytesPos r with
    | Some p =>
      match decode p with
      | Some tup => Ok (coerced (ofTuple tup))
      | None => Err "json: cannot unmarshal value into Go value of type chaincode.Asset"
      end
    | None => Err "invalid character after top-level value"
    end
  | _ => Err "invalid character looking for beginning of value"
  end.

Definition minValidSeconds : Z := -62135596800.
Definition maxValidSeconds : Z := 253402300800.

Definition Timestamp (ts : option ProtoTimestamp) : Result Time :=
  match ts with
  | None => Err "timestamp: nil Timestamp"
  | Some ts =>
    if (Seconds ts <? minValidSeconds)%Z then Err "timestamp: before 0001-01-01"
    else if (maxValidSeconds <=? Seconds ts)%Z then Err "timestamp: after 10000-01-01"
    else if (Nanos ts <? 0)%Z || (1000000000 <=? Nanos ts)%Z
         then Err "timestamp: nanos not in range [0, 1e9)"
         else Ok (mkTime (Seconds ts) (Nanos ts))
  end.

(** a ledger without faults, query engine or history, over a given state *)
Definition ledger (w : gmap string (list byte)) : Ledger :=
  mkLedger w (fun _ => []) (fun _ => []) (fun _ => None) (fun _ _ => None).

End Reference.

(** *** The coercion yields valid UTF-8 and keeps valid UTF-8 *)

Lemma between_disjoint lo hi lo' hi' c :
  (hi < lo' \/ hi' < lo)%N ->
  Utf8.between lo hi c = true -> Utf8.between lo' hi' c = false.
Proof.
  unfold Utf8.between. intros Hd [H1 H2]%andb_true_iff.
  apply N.leb_le in H1, H2. apply andb_false_iff.
  destruct (N.leb_spec lo' (Utf8.code c)); [right|by left].
  apply N.leb_gt. lia.
Qed.

Lemma between_high lo hi c :
  (128 <= lo)%N -> Utf8.between lo hi c = true -> (Utf8.code c <? 128)%N = false.
Proof.
  unfold Utf8.between. intros Hlo [H1 _]%andb_true_iff.
  apply N.leb_le in H1. apply N.ltb_ge. lia.
Qed.

(** how [runes] reads a valid form at the head of a text *)
Lemma runes_form1 b0 r :
  (Utf8.code b0 <? 128)%N = true ->
  Utf8.runes (String b0 r) = cons (Utf8.code b0) <$> Utf8.runes r.
Proof. intros E. cbn [Utf8.runes]. by rewrite E. Qed.

Lemma runes_form2 b0 b1 r :
  Utf8.between 194 223 b0 = true -> Utf8.cont b1 = true ->
  exists x, Utf8.runes (String b0 (String b1 r)) = cons x <$> Utf8.runes r.
Proof.
  intros E1 C1. cbn [Utf8.runes].
  rewrite (between_high 194 223 b0 ltac:(lia) E1), E1, C1. by eexists.
Qed.

Lemma runes_form3 b0 b1 b2 r :
  Utf8.between 224 239 b0 = true -> Utf8.second3 b0 b1 = true -> Utf8.cont b2 = true ->
  exists x, Utf8.runes (String b0 (String b1 (String b2 r))) = cons x <$> Utf8.runes r.
Proof.
  intros E2 C1 C2. cbn [Utf8.runes].
  rewrite (between_high 224 239 b0 ltac:(lia) E2).
  rewrite (between_disjoint 224 239 194 223 b0 ltac:(lia) E2), E2, C1, C2.
  by eexists.
Qed.

Lemma runes_form4 b0 b1 b2 b3 r :
  Utf8.between 240 244 b0 = true -> Utf8.second4 b0 b1 = true ->
  Utf8.cont b2 = true -> Utf8.cont b3 = true ->
  exists x,
    Utf8.runes (String b0 (String b1 (String b2 (String b3 r)))) = cons x <$> Utf8.runes r.
Proof.
  intros E3 C1 C2 C3. cbn [Utf8.runes].
  rewrite (between_high 240 244 b0 ltac:(lia) E3).
  rewrite (between_disjoint 240 244 194 223 b0 ltac:(lia) E3).
  rewrite (between_disjoint 240 244 224 239 b0 ltac:(lia) E3), E3, C1, C2, C3.
  by eexists.
Qed.

Lemma ValidString_fmap x r :
  Utf8.ValidString r = true ->
  match cons x <$> Utf8.runes r with Some _ => true | None => false end = true.
Proof. unfold Utf8.ValidString. by destruct (Utf8.runes r). Qed.

Lemma ValidString_replaced r :
  Utf8.ValidString r = true -> Utf8.ValidString (Utf8.replaced r) = true.
Proof.
  intros Hr. unfold Utf8.ValidString, Utf8.replaced.
  destruct (runes_form3 "239" "191" "189" r eq_refl eq_refl eq_refl) as [x ->].
  by apply ValidString_fmap.
Qed.

Lemma ToValid_ValidString_le n :
  forall s, (String.length s <= n)%nat -> Utf8.ValidString (Utf8.ToValid s) = true.
Proof.
  induction n as [|n IH]; intros s Hlen.
  - destruct s; [reflexivity|simpl in Hlen; lia].
  - destruct s as [|b0 r0]; [reflexivity|]. simpl in Hlen. cbn [Utf8.ToValid].
    assert (Utf8.ValidString (Utf8.ToValid r0) = true) as Hr0 by (apply IH; lia).
    destruct (Utf8.code b0 <? 128)%N eqn:E0.
    { unfold Utf8.ValidString. rewrite runes_form1 by done. by apply ValidString_fmap. }
    destruct r0 as [|b1 r1]; [by apply (ValidString_replaced EmptyString)|].
    simpl in Hlen.
    destruct (Utf8.between 194 223 b0 && Utf8.cont b1) eqn:T2.
    { apply andb_true_iff in T2 as [E1 C1]. unfold Utf8.ValidString.
      destruct (runes_form2 b0 b1 (Utf8.ToValid r1) E1 C1) as [x ->].
      apply ValidString_fmap, IH. lia. }
    destruct r1 as [|b2 r2]; [by apply ValidString_replaced|].
    simpl in Hlen.
    destruct (Utf8.between 224 239 b0 && Utf8.second3 b0 b1 && Utf8.cont b2) eqn:T3.
    { apply andb_true_iff in T3 as [T3 C2]. apply andb_true_iff in T3 as [E2 C1].
      unfold Utf8.ValidString.
      destruct (runes_form3 b0 b1 b2 (Utf8.ToValid r2) E2 C1 C2) as [x ->].
      apply ValidString_fmap, IH. lia. }
    destruct r2 as [|b3 r3]; [by apply ValidString_replaced|].
    simpl in Hlen.
    destruct (Utf8.between 240 244 b0 && Utf8.second4 b0 b1 && Utf8.cont b2 && Utf8.cont b3)
      eqn:T4; [|by apply ValidString_replaced].
    apply andb_true_iff in T4 as [T4 C3]. apply andb_true_iff in T4 as [T4 C2].
    apply andb_true_iff in T4 as [E3 C1]. unfold Utf8.ValidString.
    destruct (runes_form4 b0 b1 b2 b3 (Utf8.ToValid r3) E3 C1 C2 C3) as [x ->].
    apply ValidString_fmap, IH. lia.
Qed.

Lemma ToValid_ValidString s : Utf8.ValidString (Utf8.ToValid s) = true.
Proof. by apply (ToValid_ValidString_le (String.length s)). Qed.

Lemma ValidString_of_fmap x r :
  match cons x <$> Utf8.runes r with Some _ => true | None => false end = true ->
  Utf8.ValidString r = true.
Proof. unfold Utf8.ValidString. by destruct (Utf8.runes r). Qed.

Lemma ToValid_valid_le n :
  forall s, (String.length s <= n)%nat -> Utf8.ValidString s = true -> Utf8.ToValid s = s.
Proof.
  induction n as [|n IH]; intros s Hlen Hv.
  - destruct s; [reflexivity|simpl in Hlen; lia].
  - destruct s as [|b0 r0]; [reflexivity|]. simpl in Hlen.
    unfold Utf8.ValidString in Hv. cbn [Utf8.runes] in Hv. cbn [Utf8.ToValid].
    destruct (Utf8.code b0 <? 128)%N eqn:E0.
    { apply ValidString_of_fmap in Hv. by rewrite IH by (done || lia). }
    destruct r0 as [|b1 r1]; [discriminate|]. simpl in Hlen.
    destruct (Utf8.between 194 223 b0) eqn:E1.
    { destruct (Utf8.cont b1) eqn:C1; [|discriminate].
      apply ValidString_of_fmap in Hv. cbn [andb]. by rewrite IH by (done || lia). }
    cbn [andb].
    destruct r1 as [|b2 r2]; [discriminate|]. simpl in Hlen.
    destruct (Utf8.between 224 239 b0) eqn:E2.
    { destruct (Utf8.second3 b0 b1 && Utf8.cont b2) eqn:T3; [|discriminate].
      apply ValidString_of_fmap in Hv.
      apply andb_true_iff in T3 as [-> ->]. cbn [andb].
      by rewrite IH by (done || lia). }
    cbn [andb].
    destruct r2 as [|b3 r3]; [discriminate|]. simpl in Hlen.
    destruct (Utf8.between 240 244 b0) eqn:E3; [|discriminate].
    destruct (Utf8.second4 b0 b1 && Utf8.cont b2 && Utf8.cont b3) eqn:T4; [|discriminate].
    apply ValidString_of_fmap in Hv.
    apply andb_true_iff in T4 as [T4 ->]. apply andb_true_iff in T4 as [-> ->].
    cbn [andb]. by rewrite IH by (done || lia).
Qed.

Lemma ToValid_valid s : Utf8.ValidString s = true -> Utf8.ToValid s = s.
Proof. by apply (ToValid_valid_le (String.length s)). Qed.

(** The reference platform meets the contract. *)
#[global] Program Instance referencePlatform : Platform := {|
  json_Marshal := Reference.Marshal;
  json_Unmarshal := Reference.Unmarshal;
  toValidUTF8 := Utf8.ToValid;
  ptypes_Timestamp := Reference.Timestamp
|}.
Next Obligation. apply ToValid_valid. Qed.
Next Obligation. apply ToValid_ValidString. Qed.
Next Obligation. intros a. by eexists. Qed.
Next Obligation. by intros a b [= <-]. Qed.
Next Obligation.
  intros a b [= <-]. unfold Reference.Unmarshal.
  assert (forall p, Reference.bytesPos (Reference.posBytes p) = Some p) as ->.
  { intros p. induction p as [p IH|p IH|]; simpl; by rewrite ?IH. }
  rewrite decode_encode. unfold Reference.coerced. cbn.
  by rewrite !(ToValid_valid (Utf8.ToValid _)) by apply ToValid_ValidString.
Qed.
Next Obligation. done. Qed.

#[global] Instance reference_ValidDecoder : ValidDecoder.
Proof.
  intros b a Hu. cbn in Hu. unfold Reference.Unmarshal in Hu.
  destruct b as [|b0 r]; [done|].
  destruct (Byte.eqb b0 x7b) eqn:E0.
  - apply Byte.byte_dec_bl in E0. subst b0.
    destruct (Reference.bytesPos r) as [p|]; [|done].
    destruct (decode p) as [tup|]; [|done]. injection Hu as <-.
    repeat split; apply ToValid_ValidString.
  - by destruct b0.
Qed.

(** ** Ledgers to run the contract on *)

(** the empty ledger *)
Definition ledger0 : Ledger := Reference.ledger ∅.

(** the ledger after [InitLedger] has been committed on the empty one *)
Definition ledgerSeeded : Ledger :=
  Reference.ledger (committed ledger0 (snd (InitLedger ledger0 emptyLog))).

(** a ledger on which asset3 is already stored *)
Definition ledger3 : Ledger :=
  Reference.ledger
    (committed ledger0 (snd (CreateAsset "asset3" "green" 10 "Jin Soo" 500 ledger0 emptyLog))).

(** the bytes the reference codec stores for a record *)
Definition referenceBytes (a : Asset) : list byte :=
  x7b :: Reference.posBytes (encode (Reference.tupleOf (Reference.coerced a))).

(** the history of asset1 after a creation, a transfer and a deletion *)
Definition history1 : list KeyModification.t :=
  [ KeyModification.mk "tx1"
      (referenceBytes (mkAsset "asset" "asset1" "blue" 5 "Tomoko" 300))
      (Some (mkProtoTimestamp 1700000000 0)) false;
    KeyModification.mk "tx2"
      (referenceBytes (mkAsset "asset" "asset1" "blue" 5 "Alice" 300))
      (Some (mkProtoTimestamp 1700000060 500)) false;
    KeyModification.mk "tx3" [] (Some (mkProtoTimestamp 1700000120 0)) true ].

Definition ledgerH : Ledger :=
  mkLedger ∅ (fun _ => [])
           (fun key => if String.eqb key "asset1" then history1 else [])
           (fun _ => None) (fun _ _ => None).

(** ** Reading a selector back from a query string *)

(** What the state database makes of a query string of the shape
    [{"selector":{"field":"text",...}}]: the fields and the texts they are
    matched with, every text read as a JSON string literal.  A string of
    another shape, or with a literal that does not end where the shape
    expects, or that is not valid UTF-8 as a JSON text is, is not such a
    selector.  Escapes of the form \uXXXX are read
    for the basic plane outside the surrogates. *)
Module Selector.

Definition quote : ascii := "034"%char.
Definition backslash : ascii := "092"%char.

Definition hexVal (c : ascii) : option N :=
  let n := N_of_ascii c in
  if (48 <=? n)%N && (n <=? 57)%N then Some (n - 48)%N
  else if (65 <=? n)%N && (n <=? 70)%N then Some (n - 55)%N
  else if (97 <=? n)%N && (n <=? 102)%N then Some (n - 87)%N
  else None.

Definition chr (n : N) : string := String (ascii_of_N n) EmptyString.

Definition utf8Of (cp : N) : option string :=
  if (cp <? 128)%N then Some (chr cp)
  else if (cp <? 2048)%N then Some (chr (192 + cp / 64) +:+ chr (128 + cp mod 64))
  else if (55296 <=? cp)%N && (cp <=? 57343)%N then None
  else Some (chr (224 + cp / 4096) +:+ chr (128 + (cp / 64) mod 64)
             +:+ chr (128 + cp mod 64)).

Definition simpleEscape (c : ascii) : option ascii :=
  if Ascii.eqb c quote then Some quote
  else if Ascii.eqb c backslash then Some backslash
  else if Ascii.eqb c "/" then Some "/"%char
  else if Ascii.eqb c "b" then Some "008"%char
  else if Ascii.eqb c "f" then Some "012"%char
  else if Ascii.eqb c "n" then Some "010"%char
  else if Ascii.eqb c "r" then Some "013"%char
  else if Ascii.eqb c "t" then Some "009"%char
  else None.

(** the text of a string literal whose opening quote has been read, and
    what follows its closing quote *)
Fixpoint readString (s : string) : option (string * string) :=
  match s with
  | EmptyString => None
  | String c r =>
    if Ascii.eqb c quote then Some (EmptyString, r)
    else if Ascii.eqb c backslash then
      match r with
      | EmptyString => None
      | String e r1 =>
        if Ascii.eqb e "u" then
          match r1 with
          | String h1 (String h2 (String h3 (String h4 r2))) =>
            match hexVal h1, hexVal h2, hexVal h3, hexVal h4 with
            | Some a, Some b, Some c, Some d =>
              match utf8Of (a * 4096 + b * 256 + c * 16 + d)%N, readString r2 with
              | Some u, Some (text, rest) => Some (u +:+ text, rest)
              | _, _ => None
              end
            | _, _, _, _ => None
            end
          | _ => None
          end
        else
          match simpleEscape e, readString r1 with
          | Some x, Some (text, rest) => Some (String x text, rest)
          | _, _ => None
          end
      end
    else if (N_of_ascii c <? 32)%N then None
    else
      match readString r with
      | Some (text, rest) => Some (String c text, rest)
      | None => None
      end
  end.

Fixpoint dropPrefix (p s : string) : option string :=
  match p, s with
  | EmptyString, _ => Some s
  | String a p', String b s' => if Ascii.eqb a b then dropPrefix p' s' else None
  | String _ _, EmptyString => None
  end.

(** members ["field":"text"] separated by commas *)
Fixpoint readMembers (fuel : nat) (s : string)
  : option (list (string * string) * string) :=
  match fuel with
  | O => None
  | S fuel =>
    match s with
    | String q r =>
      if Ascii.eqb q quote then
        match readString r with
        | Some (field, String colon (String q' r2)) =>
          if Ascii.eqb colon ":" && Ascii.eqb q' quote then
            match readString r2 with
            | Some (text, String sep r4) =>
              if Ascii.eqb sep "," then
                match readMembers fuel r4 with
                | Some (ms, rest) => Some ((field, text) :: ms, rest)
                | None => None
                end
              else Some ([(field, text)], String sep r4)
            | _ => None
            end
          else None
        | _ => None
        end
      else None
    | EmptyString => None
    end
  end.

Definition selectorOf (query : string) : option (list (string * string)) :=
  if Utf8.ValidString query then
    match dropPrefix ("{" +:+ dq +:+ "selector" +:+ dq +:+ ":{") query with
    | None => None
    | Some body =>
      match readMembers (String.length body) body with
      | Some (ms, rest) => if String.eqb rest "}}" then Some ms else None
      | None => None
      end
    end
  else None.

(** text that a JSON string literal holds as it is: no quote, no
    backslash, no control character *)
Definition plain (c : ascii) : bool :=
  negb (Ascii.eqb c quote) && negb (Ascii.eqb c backslash)
  && negb (N_of_ascii c <? 32)%N.

Fixpoint plainText (s : string) : bool :=
  match s with
  | EmptyString => true
  | String c r => plain c && plainText r
  end.

End Selector.

(** ** What the claims speak of *)

Section Notions.

Context `{Platform}.

Implicit Types (L : Ledger) (w : gmap string (list byte)).

(** The state invariant of the secondary index.  A key outside the
    composite-key namespace holds an asset record filed under its own id,
    and the index entry of that asset's color and id is present; a key
    inside the namespace is the index entry of an asset that is present and
    has the color the entry names, and holds the marker byte; so an id has
    index entries under one color at most. *)
Record IndexInvariant (w : gmap string (list byte)) : Prop := mkIndexInvariant {
  asset_indexed :
    forall k v, w !! k = Some v -> startsWithNul k = false ->
      exists a ck, json_Unmarshal v = Ok a /\ ID a = k
                   /\ indexKey (Color a) k = Ok ck /\ w !! ck = Some [x00];
  index_backed :
    forall k v, w !! k = Some v -> startsWithNul k = true ->
      v = [x00]
      /\ exists c id old a, indexKey c id = Ok k /\ w !! id = Some old
                            /\ json_Unmarshal old = Ok a /\ Color a = c;
  index_unique :
    forall id c1 c2 k1 k2,
      indexKey c1 id = Ok k1 -> indexKey c2 id = Ok k2 ->
      is_Some (w !! k1) -> is_Some (w !! k2) -> c1 = c2
}.

(** The exposed operations that the invariant is stated for. *)
Inductive Operation : Type :=
| OpCreateAsset (assetID color : string) (size : Z) (owner : string) (appraisedValue : Z)
| OpReadAsset (assetID : string)
| OpTransferAsset (assetID newOwner : string)
| OpDeleteAsset (assetID : string)
| OpTransferAssetByColor (color newOwner : string)
| OpInitLedger.

Definition invoke (op : Operation) : Tx unit :=
  match op with
  | OpCreateAsset assetID color size owner appraisedValue =>
    CreateAsset assetID color size owner appraisedValue
  | OpReadAsset assetID => _ <- ReadAsset assetID ;; ret tt
  | OpTransferAsset assetID newOwner => TransferAsset assetID newOwner
  | OpDeleteAsset assetID => DeleteAsset assetID
  | OpTransferAssetByColor color newOwner => TransferAssetByColor color newOwner
  | OpInitLedger => InitLedger
  end.

(** one creation of the loop of [InitLedger] *)
Definition createOf (asset : Asset) : Tx unit :=
  CreateAsset (ID asset) (Color asset) (Size asset) (Owner asset) (AppraisedValue asset).

(** what a history record has to be for a well-formed entry *)
Definition recordOf (assetID : string) (e : KeyModification.t) (r : HistoryQueryResult)
  : Prop :=
  TxId r = KeyModification.TxId e
  /\ IsDelete r = KeyModification.IsDelete e
  /\ ptypes_Timestamp (KeyModification.Timestamp e) = Ok (Timestamp r)
  /\ (KeyModification.IsDelete e = true ->
      Record_ r = mkAsset EmptyString assetID EmptyString 0 EmptyString 0)
  /\ (KeyModification.IsDelete e = false ->
      json_Unmarshal (KeyModification.Value e) = Ok (Record_ r)).

(** the write that gives the record stored under an id a new owner *)
Definition rewriteOf L (newOwner : string) (w : Write) : Prop :=
  exists id stored asset b,
    w = WPut id b /\ nulFree id = true /\ id <> EmptyString
    /\ world L !! id = Some stored /\ json_Unmarshal stored = Ok asset
    /\ json_Marshal (setOwner asset newOwner) = Ok b.

(** a state that differs from the snapshot only in records whose owner has
    been rewritten *)
Definition ownerRewritten L (newOwner : string) w : Prop :=
  forall k,
    w !! k = world L !! k
    \/ exists stored asset b,
         startsWithNul k = false /\ world L !! k = Some stored
         /\ json_Unmarshal stored = Ok asset
         /\ json_Marshal (setOwner asset newOwner) = Ok b
         /\ w !! k = Some b.

End Notions.

(** a history entry as the ledger files it: a delete carries no value *)
Definition wellFormedEntry (e : KeyModification.t) : Prop :=
  KeyModification.IsDelete e = true <-> KeyModification.Value e = [].

(** the stub calls of a successful [CreateAsset] *)
Definition createCalls (assetID : string) (assetBytes : list byte) (ck : string)
  : list StubCall :=
  [CallGetState assetID; CallPutState assetID assetBytes; CallPutState ck [x00]].

Definition createWrites (assetID : string) (assetBytes : list byte) (ck : string)
  : list Write :=
  [WPut assetID assetBytes; WPut ck [x00]].

(** the key a write is addressed to *)
Definition writtenKey (w : Write) : string :=
  match w with
  | WPut k _ => k
  | WDel k => k
  end.

(** ** The server configuration (main.go) *)

Module Server.

(** [shim.TLSProperties] *)
Record TLSProperties : Type := mkTLSProperties {
  Disabled : bool;
  Key : slice byte;
  Cert : slice byte;
  ClientCACerts : slice byte
}.

(** What the process sees of its host: the environment variables and what
    [os.ReadFile] answers for a path. *)
Record Host : Type := mkHost {
  environ : gmap string string;
  ReadFile : string -> Result (list byte)
}.

Definition LookupEnv (h : Host) (key : string) : option string :=
  environ h !! key.

(** [strconv.ParseBool]; the text of its error is abbreviated *)
Definition ParseBool (str : string) : Result bool :=
  if existsb (String.eqb str) ["1"; "t"; "T"; "true"; "TRUE"; "True"] then Ok true
  else if existsb (String.eqb str) ["0"; "f"; "F"; "false"; "FALSE"; "False"] then Ok false
  else Err "strconv.ParseBool: invalid syntax".

Definition getEnvOrDefault (h : Host) (env defaultVal : string) : string :=
  match LookupEnv h env with
  | Some value => value
  | None => defaultVal
  end.

Definition getBoolOrDefault (value : string) (defaultVal : bool) : bool :=
  match ParseBool value with
  | Ok parsed => parsed
  | Err _ => defaultVal
  end.

(** [os.ReadFile] and the [log.Panicf] that follows an error; the panic is
    the [Err] branch *)
Definition readCrypto (h : Host) (name : string) : Result (slice byte) :=
  match ReadFile h name with
  | Ok data => Ok (Some data)
  | Err e => Err ("error while reading the crypto file: " +:+ e)
  end.

Definition getTLSProperties (h : Host) : Result TLSProperties :=
  let tlsDisabledStr := getEnvOrDefault h "CHAINCODE_TLS_DISABLED" "true" in
  let key := getEnvOrDefault h "CHAINCODE_TLS_KEY" "" in
  let cert := getEnvOrDefault h "CHAINCODE_TLS_CERT" "" in
  let clientCACert := getEnvOrDefault h "CHAINCODE_CLIENT_CA_CERT" "" in
  let tlsDisabled := getBoolOrDefault tlsDisabledStr false in
  crypto <-? (if negb tlsDisabled
              then keyBytes <-? readCrypto h key ;;
                   certBytes <-? readCrypto h cert ;;
                   Ok (keyBytes, certBytes)
              else Ok (nil_slice, nil_slice)) ;;
  clientCACertBytes <-? (if negb (String.eqb clientCACert "")
                         then readCrypto h clientCACert
                         else Ok nil_slice) ;;
  Ok (mkTLSProperties tlsDisabled crypto.1 crypto.2 clientCACertBytes).

(** the spellings [strconv.ParseBool] reads as true *)
Definition trueSpellings : list string := ["1"; "t"; "T"; "true"; "TRUE"; "True"].

(** the switch variable is unset or spells true *)
Definition switchedOff (h : Host) : Prop :=
  match LookupEnv h "CHAINCODE_TLS_DISABLED" with
  | None => True
  | Some value => value ∈ trueSpellings
  end.

(** a host with no variable set and no readable file *)
Definition bare : Host := mkHost ∅ (fun _ => Err "no such file or directory").

(** a host whose switch variable holds a text that is no boolean, with a
    key and a certificate in place *)
Definition hostYes : Host :=
  mkHost (<["CHAINCODE_TLS_DISABLED" := "yes"]>
          (<["CHAINCODE_TLS_KEY" := "/tls/key.pem"]>
           (<["CHAINCODE_TLS_CERT" := "/tls/cert.pem"]> ∅)))
         (fun name => if String.eqb name "/tls/key.pem" then Ok [x6b]
                      else if String.eqb name "/tls/cert.pem" then Ok [x63]
                      else Err "no such file or directory").

(** a host with TLS off and a client CA certificate that cannot be read *)
Definition hostCA : Host :=
  mkHost (<["CHAINCODE_TLS_DISABLED" := "true"]>
          (<["CHAINCODE_CLIENT_CA_CERT" := "/tls/ca.pem"]> ∅))
         (fun _ => Err "no such file or directory").

End Server.

(** ** Paginated queries (chaincode/contract.go) *)

(** [peer.QueryResponseMetadata] *)
Module QueryResponseMetadata.
Record t : Type := mk {
  FetchedRecordsCount : Z;
  Bookmark : string
}.
End QueryResponseMetadata.

Record PaginatedQueryResult : Type := mkPaginatedQueryResult {
  Records : slice Asset;
  FetchedRecordsCount : Z;
  Bookmark : string
}.

(** The conversion [int32(pageSize)] of a Go [int]: the low 32 bits, read
    as a signed number. *)
Definition int32 (n : Z) : Z :=
  ((n + 2147483648) mod 4294967296 - 2147483648)%Z.

(** The paginated calls of the stub, and what the peer answers to one: an
    error, or the iterator over the page together with the response
    metadata. *)
Inductive PagedCall : Type :=
| CallGetStateByRangeWithPagination (startKey endKey : string) (pageSize : Z)
                                    (bookmark : string)
| CallGetQueryResultWithPagination (query : string) (pageSize : Z) (bookmark : string).

Definition Pager : Type :=
  PagedCall -> Result (iterator KV.t * QueryResponseMetadata.t).

(** [createQueryMetadata]: the page size and the bookmark are marshalled
    into the metadata of the query, which fails on a bookmark that is not
    valid UTF-8; the error is returned before the peer is asked, and its
    text is abbreviated. *)
Definition createQueryMetadata (pageSize : Z) (bookmark : string) : Result unit :=
  if Utf8.ValidString bookmark then Ok tt
  else Err "proto: string field contains invalid UTF-8".

(** [marshalOrPanic]: the request to the peer holds its keys or its query
    as text; text that is not valid UTF-8 cannot be marshalled, and the stub
    panics before anything is sent.  The panic is reported as an error.  (The
    calls of section [Stub] are written without it: they answer for every
    key and query.) *)
Definition marshalOrPanic (texts : list string) : Result unit :=
  if forallb Utf8.ValidString texts then Ok tt
  else Err "panic: error marshaling: string field contains invalid UTF-8".

Section Pagination.

Context `{Platform}.

Variable peer : Pager.

Definition GetStateByRangeWithPagination (startKey endKey : string) (pageSize : Z)
           (bookmark : string) : Result (iterator KV.t * QueryResponseMetadata.t) :=
  let startKey := if String.eqb startKey EmptyString
                  then emptyKeySubstitute else startKey in
  _ <-? validateSimpleKeys [startKey; endKey] ;;
  _ <-? createQueryMetadata pageSize bookmark ;;
  _ <-? marshalOrPanic [startKey; endKey] ;;
  peer (CallGetStateByRangeWithPagination startKey endKey pageSize bookmark).

Definition GetQueryResultWithPagination (query : string) (pageSize : Z)
           (bookmark : string) : Result (iterator KV.t * QueryResponseMetadata.t) :=
  _ <-? createQueryMetadata pageSize bookmark ;;
  _ <-? marshalOrPanic [query] ;;
  peer (CallGetQueryResultWithPagination query pageSize bookmark).

Definition GetAssetsByRangeWithPagination (startKey endKey : string) (pageSize : Z)
           (bookmark : string) : Result PaginatedQueryResult :=
  page <-? GetStateByRangeWithPagination startKey endKey (int32 pageSize) bookmark ;;
  let resultsIterator := page.1 in
  let responseMetadata := page.2 in
  assets <-? constructQueryResponseFromIterator resultsIterator ;;
  Ok (mkPaginatedQueryResult
        assets
        (QueryResponseMetadata.FetchedRecordsCount responseMetadata)
        (QueryResponseMetadata.Bookmark responseMetadata)).

Definition getQueryResultForQueryStringWithPagination (queryString : string)
           (pageSize : Z) (bookmark : string) : Result PaginatedQueryResult :=
  page <-? GetQueryResultWithPagination queryString pageSize bookmark ;;
  let resultsIterator := page.1 in
  let responseMetadata := page.2 in
  assets <-? constructQueryResponseFromIterator resultsIterator ;;
  Ok (mkPaginatedQueryResult
        assets
        (QueryResponseMetadata.FetchedRecordsCount responseMetadata)
        (QueryResponseMetadata.Bookmark responseMetadata)).

Definition QueryAssetsWithPagination (queryString : string) (pageSize : Z)
           (bookmark : string) : Result PaginatedQueryResult :=
  getQueryResultForQueryStringWithPagination queryString (int32 pageSize) bookmark.

End Pagination.

(** a peer that answers every paginated call with one page of the two
    records given and the bookmark of the next page *)
Definition peerTwo (v1 v2 : list byte) : Pager :=
  fun _ => Ok ([Ok (KV.mk "asset1" v1); Ok (KV.mk "asset2" v2)],
               QueryResponseMetadata.mk 2 "asset3").

(** an entry of an iterator that the loop of
    [constructQueryResponseFromIterator] turns into a record *)
Definition decodes `{Platform} (next : Result KV.t) (a : Asset) : Prop :=
  exists kv, next = Ok kv /\ json_Unmarshal (KV.Value kv) = Ok a.

(** what the two paginated methods make of the answer of the peer *)
Definition pageOf `{Platform} (resultsIterator : iterator KV.t)
           (responseMetadata : QueryResponseMetadata.t) (r : PaginatedQueryResult)
  : Prop :=
  Forall2 decodes resultsIterator (elems (Records r))
  /\ (Records r = nil_slice <-> resultsIterator = [])
  /\ FetchedRecordsCount r = QueryResponseMetadata.FetchedRecordsCount responseMetadata
  /\ Bookmark r = QueryResponseMetadata.Bookmark responseMetadata.

(** a ledger none of whose calls and iterators fails *)
Definition faultless (L : Ledger) : Prop :=
  (forall c, fault L c = None) /\ (forall c n, nextFault L c n = None).

(** a ledger whose query engine answers every query with the records of
    asset1 and asset2 *)
Definition ledgerQuery : Ledger :=
  mkLedger (world ledgerSeeded)
           (fun _ => [ KV.mk "asset1"
                         (referenceBytes (mkAsset "asset" "asset1" "blue" 5 "Tomoko" 300));
                       KV.mk "asset2"
                         (referenceBytes (mkAsset "asset" "asset2" "red" 5 "Brad" 400)) ])
           (fun _ => []) (fun _ => None) (fun _ _ => None).

(** a ledger on the empty state every call to which fails *)
Definition ledgerDown : Ledger :=
  mkLedger ∅ (fun _ => []) (fun _ => []) (fun _ => Some "connection lost")
           (fun _ _ => None).

(** a ledger holding asset1 whose puts fail *)
Definition ledgerReadOnly : Ledger :=
  mkLedger (world ledgerSeeded) (fun _ => []) (fun _ => [])
           (fun c => match c with
                     | CallPutState _ _ => Some "read-only state database"
                     | _ => None
                     end)
           (fun _ _ => None).

(** * Properties *)

(** ** The shim on sample keys and the selector reader on sample owners *)

Example CreateCompositeKey_blue_asset1 :
  CreateCompositeKey index ["blue"; "asset1"]
  = Ok (String NUL "color~name" +:+ String NUL "blue" +:+ String NUL "asset1" +:+ String NUL EmptyString).
Proof. reflexivity. Qed.

Example SplitCompositeKey_blue_asset1 :
  SplitCompositeKey (String NUL "color~name" +:+ String NUL "blue" +:+ String NUL "asset1" +:+ String NUL EmptyString)
  = Ok ("color~name", ["blue"; "asset1"]).
Proof. reflexivity. Qed.

Example validate_rejects_MaxRune :
  is_Ok (validateCompositeKeyAttribute Utf8.MaxRuneString) = false.
Proof. reflexivity. Qed.

Example validate_rejects_surrogate :
  is_Ok (validateCompositeKeyAttribute (String "237" (String "160" (String "128" EmptyString)))) = false.
Proof. reflexivity. Qed.

Example selectorOf_Tomoko :
  Selector.selectorOf (ownerQueryString "Tomoko")
  = Some [("docType", "asset"); ("owner", "Tomoko")].
Proof. reflexivity. Qed.

Example selectorOf_quote :
  Selector.selectorOf (ownerQueryString ("a" +:+ dq +:+ "b")) = None.
Proof. reflexivity. Qed.

Example selectorOf_injected :
  Selector.selectorOf
    (ownerQueryString ("x" +:+ dq +:+ "," +:+ dq +:+ "owner" +:+ dq +:+ ":" +:+ dq +:+ "y"))
  = Some [("docType", "asset"); ("owner", "x"); ("owner", "y")].
Proof. reflexivity. Qed.

(** ** Composite keys *)

Lemma eqb_NUL_code c : Ascii.eqb c NUL = true -> Utf8.code c = 0%N.
Proof. intros E. apply Ascii.eqb_eq in E. subst c. reflexivity. Qed.

Lemma notNul c : Utf8.code c <> 0%N -> negb (Ascii.eqb c NUL) = true.
Proof.
  intros Hc. destruct (Ascii.eqb c NUL) eqn:E; [|reflexivity].
  apply eqb_NUL_code in E. contradiction.
Qed.

Lemma between_notNul lo hi c :
  (0 < lo)%N -> Utf8.between lo hi c = true -> negb (Ascii.eqb c NUL) = true.
Proof.
  unfold Utf8.between. intros Hlo Hb. apply andb_true_iff in Hb as [Hb _].
  apply N.leb_le in Hb. apply notNul. lia.
Qed.

Lemma high_notNul c : (Utf8.code c <? 128)%N = false -> negb (Ascii.eqb c NUL) = true.
Proof. intros Hc. apply N.ltb_ge in Hc. apply notNul. lia. Qed.

Lemma runes_nulFree :
  forall n s rs, (String.length s <= n)%nat ->
    Utf8.runes s = Some rs -> existsb forbiddenRune rs = false ->
    nulFree s = true.
Proof.
  induction n as [|n IH]; intros s rs Hlen Hr Hf.
  - destruct s; [reflexivity | simpl in Hlen; lia].
  - destruct s as [|b0 r0]; [reflexivity|].
    simpl in Hlen. cbn [Utf8.runes] in Hr.
    destruct (Utf8.code b0 <? 128)%N eqn:E0.
    + destruct (Utf8.runes r0) as [rs0|] eqn:Er0; simpl in Hr; [|discriminate].
      injection Hr as <-. simpl in Hf. apply orb_false_elim in Hf as [Hf0 Hf].
      cbn [nulFree]. rewrite (IH r0 rs0) by (auto; lia).
      rewrite notNul; [reflexivity|].
      unfold forbiddenRune in Hf0. apply orb_false_elim in Hf0 as [Hz _].
      apply N.eqb_neq in Hz. exact Hz.
    + destruct r0 as [|b1 r1]; [discriminate|].
      destruct (Utf8.between 194 223 b0) eqn:E1.
      { destruct (Utf8.cont b1) eqn:C1; [|discriminate].
        destruct (Utf8.runes r1) as [rs1|] eqn:Er1; simpl in Hr; [|discriminate].
        injection Hr as <-. simpl in Hf. apply orb_false_elim in Hf as [_ Hf].
        cbn [nulFree]. simpl in Hlen.
        rewrite (IH r1 rs1) by (auto; lia).
        rewrite (high_notNul b0 E0), (between_notNul 128 191 b1) by (auto; lia).
        reflexivity. }
      destruct r1 as [|b2 r2]; [discriminate|].
      destruct (Utf8.between 224 239 b0) eqn:E2.
      { match type of Hr with (if ?c && _ then _ else _) = _ =>
          destruct c eqn:C1; [|discriminate] end.
        destruct (Utf8.cont b2) eqn:C2; [|discriminate].
        destruct (Utf8.runes r2) as [rs2|] eqn:Er2; simpl in Hr; [|discriminate].
        injection Hr as <-. simpl in Hf. apply orb_false_elim in Hf as [_ Hf].
        cbn [nulFree]. simpl in Hlen.
        rewrite (IH r2 rs2) by (auto; lia).
        rewrite (high_notNul b0 E0), (between_notNul 128 191 b2) by (auto; lia).
        assert (negb (Ascii.eqb b1 NUL) = true) as ->; [|reflexivity].
        unfold Utf8.second3 in C1.
        destruct (Utf8.code b0 =? 224)%N; [|destruct (Utf8.code b0 =? 237)%N];
          eapply between_notNul; try exact C1; lia. }
      destruct r2 as [|b3 r3]; [discriminate|].
      destruct (Utf8.between 240 244 b0) eqn:E3; [|discriminate].
      match type of Hr with (if ?c && _ && _ then _ else _) = _ =>
        destruct c eqn:C1; [|discriminate] end.
      destruct (Utf8.cont b2) eqn:C2; [|discriminate].
      destruct (Utf8.cont b3) eqn:C3; [|discriminate].
      destruct (Utf8.runes r3) as [rs3|] eqn:Er3; simpl in Hr; [|discriminate].
      injection Hr as <-. simpl in Hf. apply orb_false_elim in Hf as [_ Hf].
      cbn [nulFree]. simpl in Hlen.
      rewrite (IH r3 rs3) by (auto; lia).
      rewrite (high_notNul b0 E0), (between_notNul 128 191 b2),
        (between_notNul 128 191 b3) by (auto; lia).
      assert (negb (Ascii.eqb b1 NUL) = true) as ->; [|reflexivity].
      unfold Utf8.second4 in C1.
      destruct (Utf8.code b0 =? 240)%N; [|destruct (Utf8.code b0 =? 244)%N];
        eapply between_notNul; try exact C1; lia.
Qed.

Lemma validate_nulFree s :
  validateCompositeKeyAttribute s = Ok tt -> nulFree s = true.
Proof.
  unfold validateCompositeKeyAttribute. intros Hv.
  destruct (Utf8.runes s) as [rs|] eqn:Er; [|discriminate].
  destruct (existsb forbiddenRune rs) eqn:Ef; [discriminate|].
  by eapply (runes_nulFree (String.length s)).
Qed.

Lemma validate_ValidString s :
  validateCompositeKeyAttribute s = Ok tt -> Utf8.ValidString s = true.
Proof.
  unfold validateCompositeKeyAttribute, Utf8.ValidString.
  by destruct (Utf8.runes s).
Qed.

Lemma nulFree_startsWithNul s : nulFree s = true -> startsWithNul s = false.
Proof.
  destruct s as [|c r]; [reflexivity|]. simpl.
  intros Hn. apply andb_true_iff in Hn as [Hc _]. by destruct (Ascii.eqb c NUL).
Qed.

Lemma append_cons x (a b : string) : String x a +:+ b = String x (a +:+ b).
Proof. reflexivity. Qed.

Lemma append_nil (b : string) : EmptyString +:+ b = b.
Proof. reflexivity. Qed.

Lemma append_assoc_str (a b c : string) : (a +:+ b) +:+ c = a +:+ (b +:+ c).
Proof.
  induction a as [|x a IH]; [reflexivity|].
  rewrite !append_cons. f_equal. exact IH.
Qed.

Ltac str_simpl :=
  unfold index, compositeKeyNamespace;
  repeat first [rewrite append_cons | rewrite append_nil | rewrite append_assoc_str].


Lemma indexKey_inv c id ck :
  indexKey c id = Ok ck ->
  validateCompositeKeyAttribute c = Ok tt
  /\ validateCompositeKeyAttribute id = Ok tt
  /\ ck = keyText c id.
Proof.
  unfold indexKey, CreateCompositeKey. intros Hk.
  change (validateCompositeKeyAttribute index) with (Ok tt) in Hk.
  cbn [appendAttributes] in Hk.
  destruct (validateCompositeKeyAttribute c) as [[]|] eqn:Hc; [|discriminate].
  destruct (validateCompositeKeyAttribute id) as [[]|] eqn:Hi; [|discriminate].
  injection Hk as <-. repeat split.
  unfold keyText. str_simpl. reflexivity.
Qed.

Lemma append_nul_inj (a a' r r' : string) :
  nulFree a = true -> nulFree a' = true ->
  a +:+ String NUL r = a' +:+ String NUL r' -> a = a' /\ r = r'.
Proof.
  revert a'. induction a as [|x a IH]; intros [|x' a'] Ha Ha' E;
    rewrite ?append_cons, ?append_nil in E; simpl in Ha, Ha'.
  - by injection E.
  - injection E as <- _. by rewrite Ascii.eqb_refl in Ha'.
  - injection E as -> _. by rewrite Ascii.eqb_refl in Ha.
  - injection E as -> E.
    apply andb_true_iff in Ha as [_ Ha]. apply andb_true_iff in Ha' as [_ Ha'].
    destruct (IH a' Ha Ha' E) as [-> ->]. done.
Qed.

Lemma keyText_inj c id c' id' :
  nulFree c = true -> nulFree id = true -> nulFree c' = true -> nulFree id' = true ->
  keyText c id = keyText c' id' -> c = c' /\ id = id'.
Proof.
  intros Hc Hi Hc' Hi' E. unfold keyText in E. injection E as E.
  apply append_nul_inj in E as [-> E]; [|done..].
  apply append_nul_inj in E as [-> _]; done.
Qed.

Lemma indexKey_inj c id c' id' ck :
  indexKey c id = Ok ck -> indexKey c' id' = Ok ck -> c = c' /\ id = id'.
Proof.
  intros (Hc & Hi & ->)%indexKey_inv (Hc' & Hi' & E)%indexKey_inv.
  eapply keyText_inj; eauto using validate_nulFree.
Qed.

Lemma indexKey_startsWithNul c id ck : indexKey c id = Ok ck -> startsWithNul ck = true.
Proof. by intros (_ & _ & ->)%indexKey_inv. Qed.

Lemma indexKey_simple_id c id ck : indexKey c id = Ok ck -> startsWithNul id = false.
Proof.
  intros (_ & Hi & _)%indexKey_inv.
  by apply nulFree_startsWithNul, validate_nulFree.
Qed.

Lemma indexKey_ne_id c id ck : indexKey c id = Ok ck -> ck <> id.
Proof.
  intros Hk E. pose proof (indexKey_startsWithNul _ _ _ Hk) as H1.
  pose proof (indexKey_simple_id _ _ _ Hk) as H2. congruence.
Qed.

(** ** How the stub calls and the methods run *)

Section Runs.

Context `{Platform}.

Implicit Types (L : Ledger) (t : TxLog).

Lemma GetState_run L t key :
  GetState key L t =
  (match fault L (CallGetState key) with
   | Some e => Err e
   | None => Ok (world L !! key)
   end, logCall (CallGetState key) t).
Proof. unfold GetState, ask. by destruct (fault L _). Qed.

Lemma PutState_run L t key value :
  PutState key value L t =
  if String.eqb key EmptyString then (Err "key must not be an empty string", t)
  else match fault L (CallPutState key value) with
       | Some e => (Err e, logCall (CallPutState key value) t)
       | None => (Ok tt, logWrite (WPut key value) (logCall (CallPutState key value) t))
       end.
Proof. unfold PutState, tell, fail. by destruct (String.eqb key _). Qed.

Lemma DelState_run L t key :
  DelState key L t =
  match fault L (CallDelState key) with
  | Some e => (Err e, logCall (CallDelState key) t)
  | None => (Ok tt, logWrite (WDel key) (logCall (CallDelState key) t))
  end.
Proof. reflexivity. Qed.

Lemma AssetExists_run L t assetID :
  AssetExists assetID L t =
  (match fault L (CallGetState assetID) with
   | Some e => Err ("failed to read asset " +:+ assetID +:+ " from world state. " +:+ e)
   | None => Ok (match world L !! assetID with Some _ => true | None => false end)
   end, logCall (CallGetState assetID) t).
Proof.
  unfold AssetExists, bind, mapErr, ret. rewrite GetState_run.
  by destruct (fault L _).
Qed.

Lemma ReadAsset_run L t assetID :
  ReadAsset assetID L t =
  (match fault L (CallGetState assetID) with
   | Some e => Err ("failed to get asset " +:+ assetID +:+ ": " +:+ e)
   | None =>
     match world L !! assetID with
     | None => Err ("asset " +:+ assetID +:+ " does not exist")
     | Some assetBytes => json_Unmarshal assetBytes
     end
   end, logCall (CallGetState assetID) t).
Proof.
  unfold ReadAsset, bind, mapErr, liftR, fail. rewrite GetState_run.
  destruct (fault L _); [done|]. by destruct (world L !! assetID).
Qed.

(** A successful [CreateAsset]: the probe found nothing, and the record and
    its index entry went into the write set, in that order. *)
Lemma CreateAsset_Ok L t t' assetID color size owner appraisedValue :
  CreateAsset assetID color size owner appraisedValue L t = (Ok tt, t') ->
  exists assetBytes ck,
    fault L (CallGetState assetID) = None
    /\ world L !! assetID = None
    /\ json_Marshal (mkAsset "asset" assetID color size owner appraisedValue)
       = Ok assetBytes
    /\ assetID <> EmptyString
    /\ fault L (CallPutState assetID assetBytes) = None
    /\ indexKey color assetID = Ok ck
    /\ fault L (CallPutState ck [x00]) = None
    /\ t' = mkTxLog (calls t ++ createCalls assetID assetBytes ck)
                    (wset t ++ createWrites assetID assetBytes ck).
Proof.
  unfold CreateAsset, bind, mapErr, liftR, fail. rewrite AssetExists_run.
  destruct (fault L (CallGetState assetID)) eqn:Hf; [discriminate|].
  destruct (world L !! assetID) eqn:Hw; [discriminate|].
  destruct (json_Marshal _) as [assetBytes|] eqn:Hm; [|discriminate].
  rewrite PutState_run.
  destruct (String.eqb assetID EmptyString) eqn:Hid; [discriminate|].
  destruct (fault L (CallPutState assetID assetBytes)) eqn:Hp; [discriminate|].
  cbn [Color ID].
  destruct (CreateCompositeKey index [color; assetID]) as [ck|] eqn:Hck; [|discriminate].
  rewrite PutState_run.
  destruct (String.eqb ck EmptyString) eqn:Hcke; [discriminate|].
  destruct (fault L (CallPutState ck [x00])) eqn:Hp2; [discriminate|].
  intros [= <-]. exists assetBytes, ck.
  apply String.eqb_neq in Hid.
  repeat split; try done.
  unfold logWrite, logCall, createCalls, createWrites; cbn.
  by rewrite <- !app_assoc.
Qed.

(** and the converse: these conditions make [CreateAsset] succeed *)
Lemma CreateAsset_run_Ok L t assetID color size owner appraisedValue assetBytes ck :
  fault L (CallGetState assetID) = None ->
  world L !! assetID = None ->
  json_Marshal (mkAsset "asset" assetID color size owner appraisedValue) = Ok assetBytes ->
  assetID <> EmptyString ->
  fault L (CallPutState assetID assetBytes) = None ->
  indexKey color assetID = Ok ck ->
  fault L (CallPutState ck [x00]) = None ->
  CreateAsset assetID color size owner appraisedValue L t =
  (Ok tt, mkTxLog (calls t ++ createCalls assetID assetBytes ck)
                  (wset t ++ createWrites assetID assetBytes ck)).
Proof.
  intros Hf Hw Hm Hid Hp Hck Hp2.
  unfold CreateAsset, bind, mapErr, liftR, fail. rewrite AssetExists_run, Hf, Hw, Hm.
  rewrite PutState_run. apply String.eqb_neq in Hid. rewrite Hid, Hp.
  cbn [Color ID]. unfold indexKey in Hck. rewrite Hck.
  rewrite PutState_run, Hp2.
  assert (String.eqb ck EmptyString = false) as ->.
  { apply String.eqb_neq. intros ->.
    by apply indexKey_startsWithNul in Hck. }
  unfold logWrite, logCall, createCalls, createWrites; cbn.
  by rewrite <- !app_assoc.
Qed.

End Runs.

(** ** Committing a write set *)

Lemma applyWrite_put w k v :
  v <> [] -> applyWrite w (WPut k v) = <[k := v]> w.
Proof. by destruct v. Qed.

Lemma applyWrites_app w ws1 ws2 :
  applyWrites w (ws1 ++ ws2) = applyWrites (applyWrites w ws1) ws2.
Proof. apply foldl_app. Qed.

Lemma applyWrites_create w assetID assetBytes ck :
  assetBytes <> [] ->
  applyWrites w (createWrites assetID assetBytes ck)
  = <[ck := [x00]]> (<[assetID := assetBytes]> w).
Proof.
  intros Hb. unfold applyWrites, createWrites. cbn [foldl].
  by rewrite !applyWrite_put.
Qed.

Section Claims.

Context `{Platform}.

Implicit Types (L : Ledger) (t : TxLog).

(** What a later invocation reads under the id of a committed creation:
    the record created, with the owner as the codec writes it. *)
Lemma ReadAsset_after_CreateAsset
  L t' L' assetID color size owner appraisedValue :
  CreateAsset assetID color size owner appraisedValue L emptyLog = (Ok tt, t') ->
  world L' = committed L t' ->
  fault L' (CallGetState assetID) = None ->
  fst (AssetExists assetID L' emptyLog) = Ok true
  /\ fst (ReadAsset assetID L' emptyLog)
     = Ok (mkAsset "asset" assetID color size (toValidUTF8 owner) appraisedValue).
Proof.
  intros Hrun Hw Hf.
  apply CreateAsset_Ok in Hrun
    as (assetBytes & ck & _ & _ & Hm & _ & _ & Hck & _ & ->).
  assert (world L' !! assetID = Some assetBytes) as Hlook.
  { rewrite Hw. unfold committed. cbn [wset emptyLog app].
    rewrite applyWrites_create by eauto using json_Marshal_nonempty.
    rewrite lookup_insert_ne by eauto using indexKey_ne_id.
    apply lookup_insert_eq. }
  rewrite AssetExists_run, ReadAsset_run, Hf, Hlook. split; [done|].
  cbn [fst]. rewrite (json_round_trip _ _ Hm). cbn [DocType ID Color Size Owner AppraisedValue].
  apply indexKey_inv in Hck as (Hc & Hi & _).
  rewrite (toValidUTF8_valid "asset") by reflexivity.
  by rewrite (toValidUTF8_valid assetID), (toValidUTF8_valid color)
    by by apply validate_ValidString.
Qed.

Lemma toValidUTF8_invalid s : Utf8.ValidString s = false -> toValidUTF8 s <> s.
Proof.
  intros Hs Heq. pose proof (toValidUTF8_ValidString s) as Hv.
  rewrite Heq in Hv. congruence.
Qed.

(** so an owner that is not valid UTF-8 is not read back, on any platform *)
Lemma CreateAsset_invalid_owner_read_back
  L t' L' assetID color size owner appraisedValue :
  CreateAsset assetID color size owner appraisedValue L emptyLog = (Ok tt, t') ->
  Utf8.ValidString owner = false ->
  world L' = committed L t' ->
  fault L' (CallGetState assetID) = None ->
  fst (ReadAsset assetID L' emptyLog)
  <> Ok (mkAsset "asset" assetID color size owner appraisedValue).
Proof.
  intros Hrun Howner Hw Hf.
  destruct (ReadAsset_after_CreateAsset _ _ _ _ _ _ _ _ Hrun Hw Hf) as [_ Hread].
  rewrite Hread. intros [= Heq]. by apply (toValidUTF8_invalid owner).
Qed.

(** C1, as the code has it: after [CreateAsset] has succeeded on a ledger
    with no record under the id and the host has committed its writes,
    [AssetExists] answers true and [ReadAsset] returns the record with
    docType asset and the id, color, size, owner and appraised value given,
    for an owner that is valid UTF-8, which the codec writes unchanged (the
    id and the color are valid UTF-8 whenever the creation succeeds).  The
    ledger read in the later invocation answers the probe of the id without
    a fault. *)
Theorem CreateAsset_then_Exists_and_Read
  L t' L' assetID color size owner appraisedValue :
  world L !! assetID = None ->
  CreateAsset assetID color size owner appraisedValue L emptyLog = (Ok tt, t') ->
  Utf8.ValidString owner = true ->
  world L' = committed L t' ->
  fault L' (CallGetState assetID) = None ->
  fst (AssetExists assetID L' emptyLog) = Ok true
  /\ fst (ReadAsset assetID L' emptyLog)
     = Ok (mkAsset "asset" assetID color size owner appraisedValue).
Proof.
  intros _ Hrun Howner Hw Hf.
  destruct (ReadAsset_after_CreateAsset _ _ _ _ _ _ _ _ Hrun Hw Hf) as [Hexists Hread].
  split; [exact Hexists|]. by rewrite Hread, (toValidUTF8_valid owner).
Qed.

(** C3: when a record is already stored under the id, [CreateAsset] fails
    with the conflict error; its only stub call is the existence probe, so
    nothing is written and the committed state is the state as it was, the
    stored bytes included.  In particular a second creation under the id of
    a creation that has just been committed fails in this way. *)
Theorem CreateAsset_Conflict L assetID color size owner appraisedValue :
  fault L (CallGetState assetID) = None ->
  (forall stored, world L !! assetID = Some stored ->
     CreateAsset assetID color size owner appraisedValue L emptyLog
     = (Err ("asset already exists: " +:+ assetID), mkTxLog [CallGetState assetID] [])
     /\ committed L (mkTxLog [CallGetState assetID] []) = world L
     /\ committed L (mkTxLog [CallGetState assetID] []) !! assetID = Some stored)
  /\ (forall L1 t1 color1 size1 owner1 appraisedValue1,
       CreateAsset assetID color1 size1 owner1 appraisedValue1 L1 emptyLog = (Ok tt, t1) ->
       world L = committed L1 t1 ->
       CreateAsset assetID color size owner appraisedValue L emptyLog
       = (Err ("asset already exists: " +:+ assetID), mkTxLog [CallGetState assetID] [])
       /\ committed L (mkTxLog [CallGetState assetID] []) = committed L1 t1).
Proof.
  intros Hf.
  assert (forall stored, world L !! assetID = Some stored ->
     CreateAsset assetID color size owner appraisedValue L emptyLog
     = (Err ("asset already exists: " +:+ assetID), mkTxLog [CallGetState assetID] []))
    as Hconflict.
  { intros stored Hw. unfold CreateAsset, bind, mapErr, fail.
    by rewrite AssetExists_run, Hf, Hw. }
  split.
  - intros stored Hw. split; [by eapply Hconflict|]. by split.
  - intros L1 t1 color1 size1 owner1 appraisedValue1 Hrun Hw.
    apply CreateAsset_Ok in Hrun
      as (assetBytes & ck & _ & _ & Hm & _ & _ & Hck & _ & ->).
    split; [|by rewrite <- Hw].
    apply (Hconflict assetBytes). rewrite Hw. unfold committed. cbn [wset emptyLog app].
    rewrite applyWrites_create by eauto using json_Marshal_nonempty.
    rewrite lookup_insert_ne by eauto using indexKey_ne_id.
    apply lookup_insert_eq.
Qed.

(** C10: a successful [CreateAsset] writes the record and then the index
    entry, and the value of the index entry is the one byte 0x00, which is
    not empty: after the commit the index key is present with that value. *)
Theorem CreateAsset_index_marker L t' assetID color size owner appraisedValue :
  CreateAsset assetID color size owner appraisedValue L emptyLog = (Ok tt, t') ->
  exists assetBytes ck,
    indexKey color assetID = Ok ck
    /\ wset t' = [WPut assetID assetBytes; WPut ck [x00]]
    /\ length [x00] = 1
    /\ committed L t' !! ck = Some [x00].
Proof.
  intros Hrun.
  apply CreateAsset_Ok in Hrun
    as (assetBytes & ck & _ & _ & Hm & _ & _ & Hck & _ & ->).
  exists assetBytes, ck. repeat split; [done|].
  unfold committed. cbn [wset emptyLog app].
  rewrite applyWrites_create by eauto using json_Marshal_nonempty.
  apply lookup_insert_eq.
Qed.

End Claims.

Lemma CreateAsset_then_Exists_and_Read_witness :
  let t' := snd (CreateAsset "asset1" "blue" 5 "Tomoko" 300 ledger0 emptyLog) in
  let L' := Reference.ledger (committed ledger0 t') in
  fst (AssetExists "asset1" L' emptyLog) = Ok true
  /\ fst (ReadAsset "asset1" L' emptyLog) = Ok (mkAsset "asset" "asset1" "blue" 5 "Tomoko" 300).
Proof.
  intros t' L'.
  apply (CreateAsset_then_Exists_and_Read ledger0 t' L' "asset1" "blue" 5 "Tomoko" 300).
  - reflexivity.
  - vm_compute. reflexivity.
  - reflexivity.
  - reflexivity.
  - reflexivity.
Defined.

(** C1 as stated fails for an owner that is not valid UTF-8: with the one
    byte 0xFF as owner the creation succeeds on the empty ledger, and the
    record read after the commit has the owner U+FFFD, which the encoder
    wrote for the byte, not the owner given. *)
Lemma CreateAsset_invalid_owner_not_read_back :
  let owner := String "255" EmptyString in
  let t' := snd (CreateAsset "asset1" "blue" 5 owner 300 ledger0 emptyLog) in
  let L' := Reference.ledger (committed ledger0 t') in
  world ledger0 !! "asset1" = None
  /\ CreateAsset "asset1" "blue" 5 owner 300 ledger0 emptyLog = (Ok tt, t')
  /\ fst (ReadAsset "asset1" L' emptyLog)
     = Ok (mkAsset "asset" "asset1" "blue" 5 (Utf8.replaced EmptyString) 300)
  /\ fst (ReadAsset "asset1" L' emptyLog)
     <> Ok (mkAsset "asset" "asset1" "blue" 5 owner 300).
Proof.
  intros owner t' L'.
  assert (CreateAsset "asset1" "blue" 5 owner 300 ledger0 emptyLog = (Ok tt, t')) as Hrun.
  { vm_compute. reflexivity. }
  split; [reflexivity|]. split; [exact Hrun|]. split.
  - vm_compute. reflexivity.
  - by apply (CreateAsset_invalid_owner_read_back ledger0 t' L' _ _ _ _ _ Hrun).
Qed.

Lemma CreateAsset_Conflict_witness :
  let L1 := Reference.ledger
              (committed ledger0 (snd (CreateAsset "asset1" "blue" 5 "Tomoko" 300 ledger0 emptyLog))) in
  CreateAsset "asset1" "red" 7 "Brad" 10 L1 emptyLog
  = (Err "asset already exists: asset1", mkTxLog [CallGetState "asset1"] [])
  /\ committed L1 (mkTxLog [CallGetState "asset1"] []) = world L1.
Proof.
  intros L1.
  destruct (CreateAsset_Conflict L1 "asset1" "red" 7 "Brad" 10 eq_refl) as [_ Hsecond].
  destruct (Hsecond ledger0 (snd (CreateAsset "asset1" "blue" 5 "Tomoko" 300 ledger0 emptyLog))
              "blue" 5%Z "Tomoko" 300%Z) as [Hrun Hsame].
  - vm_compute. reflexivity.
  - reflexivity.
  - split; [exact Hrun | exact Hsame].
Defined.

Lemma CreateAsset_index_marker_witness :
  exists assetBytes ck,
    indexKey "blue" "asset1" = Ok ck
    /\ wset (snd (CreateAsset "asset1" "blue" 5 "Tomoko" 300 ledger0 emptyLog))
       = [WPut "asset1" assetBytes; WPut ck [x00]]
    /\ length [x00] = 1
    /\ committed ledger0 (snd (CreateAsset "asset1" "blue" 5 "Tomoko" 300 ledger0 emptyLog)) !! ck
       = Some [x00].
Proof.
  apply (CreateAsset_index_marker ledger0 _ "asset1" "blue" 5 "Tomoko" 300).
  vm_compute. reflexivity.
Defined.

(** ** A transfer, as a later invocation reads it *)

Section OwnerRewrite.

Context `{Platform} `{!ValidDecoder}.

(** A record that was decoded, with a new owner that is valid UTF-8, is
    decoded again from its encoding as it is: the coercion of the codec has
    nothing to replace. *)
Lemma rewritten_decodes stored asset newOwner assetBytes :
  json_Unmarshal stored = Ok asset ->
  Utf8.ValidString newOwner = true ->
  json_Marshal (setOwner asset newOwner) = Ok assetBytes ->
  json_Unmarshal assetBytes
  = Ok (mkAsset (DocType asset) (ID asset) (Color asset) (Size asset)
                newOwner (AppraisedValue asset)).
Proof.
  intros Hu Ho Hm. destruct (json_Unmarshal_valid _ _ Hu) as (Hd & Hi & Hc & _).
  rewrite (json_round_trip _ _ Hm). cbn [setOwner DocType ID Color Size Owner AppraisedValue].
  by rewrite !toValidUTF8_valid.
Qed.


End OwnerRewrite.


(** C4 as stated fails for a new owner that is not valid UTF-8: on the
    ledger with asset1 of Tomoko the transfer to the one byte 0xFF
    succeeds, and the record stored and read after the commit has the owner
    U+FFFD, which the encoder wrote for the byte, not the new owner. *)
Lemma TransferAsset_invalid_owner_not_stored :
  let newOwner := String "255" EmptyString in
  let L1 := Reference.ledger
              (committed ledger0 (snd (CreateAsset "asset1" "blue" 5 "Tomoko" 300 ledger0 emptyLog))) in
  let t' := snd (TransferAsset "asset1" newOwner L1 emptyLog) in
  let L' := Reference.ledger (committed L1 t') in
  fst (ReadAsset "asset1" L1 emptyLog) = Ok (mkAsset "asset" "asset1" "blue" 5 "Tomoko" 300)
  /\ fst (TransferAsset "asset1" newOwner L1 emptyLog) = Ok tt
  /\ fst (ReadAsset "asset1" L' emptyLog)
     = Ok (mkAsset "asset" "asset1" "blue" 5 (Utf8.replaced EmptyString) 300)
  /\ fst (ReadAsset "asset1" L' emptyLog)
     <> Ok (mkAsset "asset" "asset1" "blue" 5 newOwner 300).
Proof.
  intros newOwner L1 t' L'.
  assert (fst (ReadAsset "asset1" L' emptyLog)
          = Ok (mkAsset "asset" "asset1" "blue" 5 (Utf8.replaced EmptyString) 300)) as Hread
    by (by vm_compute).
  split; [by vm_compute|]. split; [by vm_compute|]. split; [exact Hread|].
  rewrite Hread. intros Heq. discriminate Heq.
Qed.

(** ** Range scans *)

Lemma elem_of_rangeScan w startKey endKey kv :
  kv ∈ rangeScan w startKey endKey
  <-> w !! KV.Key kv = Some (KV.Value kv) /\ inRange startKey endKey (KV.Key kv) = true.
Proof.
  unfold rangeScan. rewrite list_elem_of_fmap. split.
  - intros ([k v] & -> & Hin). rewrite merge_sort_Permutation in Hin.
    apply list_elem_of_filter in Hin as [Hr Hin].
    apply elem_of_map_to_list in Hin. by split.
  - intros [Hw Hr]. exists (KV.Key kv, KV.Value kv). split; [by destruct kv|].
    rewrite merge_sort_Permutation. apply list_elem_of_filter. split; [done|].
    by apply elem_of_map_to_list.
Qed.

Lemma rangeScan_nil w startKey endKey :
  (forall k v, w !! k = Some v -> inRange startKey endKey k = false) ->
  rangeScan w startKey endKey = [].
Proof.
  intros Hnone. apply elem_of_nil_inv. intros kv [Hw Hr]%elem_of_rangeScan.
  rewrite (Hnone _ _ Hw) in Hr. discriminate.
Qed.

Section RangeClaims.

Context `{Platform}.


End RangeClaims.



(** ** The owner query *)

Lemma readString_plain owner rest :
  Selector.plainText owner = true ->
  Selector.readString (owner +:+ String Selector.quote rest) = Some (owner, rest).
Proof.
  induction owner as [|c owner IH]; intros Hp.
  - reflexivity.
  - rewrite append_cons. cbn [Selector.plainText] in Hp.
    apply andb_true_iff in Hp as [Hc Hp]. unfold Selector.plain in Hc.
    apply andb_true_iff in Hc as [Hc Hctl]. apply andb_true_iff in Hc as [Hq Hb].
    apply negb_true_iff in Hq, Hb, Hctl.
    cbn [Selector.readString]. rewrite Hq, Hb, Hctl, (IH Hp). reflexivity.
Qed.

Lemma dropPrefix_append p s : Selector.dropPrefix p (p +:+ s) = Some s.
Proof.
  induction p as [|c p IH]; [by destruct s|].
  rewrite append_cons. cbn [Selector.dropPrefix]. by rewrite Ascii.eqb_refl.
Qed.

Lemma length_append_str (a b : string) :
  String.length (a +:+ b) = String.length a + String.length b.
Proof.
  induction a as [|c a IH]; [reflexivity|].
  rewrite append_cons. cbn [String.length]. by rewrite IH.
Qed.

(** one member of the selector, read with fuel to spare *)
Lemma readMembers_member fuel field text rest :
  Selector.plainText field = true -> Selector.plainText text = true ->
  Selector.readMembers (S fuel)
    (String Selector.quote
       (field +:+ String Selector.quote
          (String ":" (String Selector.quote (text +:+ String Selector.quote rest)))))
  = match rest with
    | String sep r4 =>
      if Ascii.eqb sep ","
      then match Selector.readMembers fuel r4 with
           | Some (ms, rest') => Some ((field, text) :: ms, rest')
           | None => None
           end
      else Some ([(field, text)], rest)
    | EmptyString => None
    end.
Proof.
  intros Hf Ht. cbn [Selector.readMembers].
  rewrite Ascii.eqb_refl, (readString_plain field _ Hf).
  rewrite !Ascii.eqb_refl. cbn [andb].
  rewrite (readString_plain text _ Ht). by destruct rest.
Qed.

Lemma ownerQueryString_shape owner :
  ownerQueryString owner
  = ("{" +:+ dq +:+ "selector" +:+ dq +:+ ":{")
    +:+ String Selector.quote
          ("docType" +:+ String Selector.quote
             (String ":" (String Selector.quote ("asset" +:+ String Selector.quote
                (String "," (String Selector.quote
                   ("owner" +:+ String Selector.quote
                      (String ":" (String Selector.quote
                         (owner +:+ String Selector.quote "}}")))))))))).
Proof.
  unfold ownerQueryString, dq, Selector.quote.
  repeat first [rewrite append_cons | rewrite append_nil | rewrite append_assoc_str].
  reflexivity.
Qed.

Lemma ValidString_append_le n :
  forall a b, (String.length a <= n)%nat ->
    Utf8.ValidString a = true -> Utf8.ValidString b = true ->
    Utf8.ValidString (a +:+ b) = true.
Proof.
  induction n as [|n IH]; intros a b Hlen Ha Hb.
  - destruct a; [done|simpl in Hlen; lia].
  - destruct a as [|b0 r0]; [done|]. simpl in Hlen.
    unfold Utf8.ValidString in Ha. cbn [Utf8.runes] in Ha.
    destruct (Utf8.code b0 <? 128)%N eqn:E0.
    { apply ValidString_of_fmap in Ha. rewrite append_cons.
      unfold Utf8.ValidString. rewrite runes_form1 by done.
      apply ValidString_fmap, IH; (done || lia). }
    destruct r0 as [|b1 r1]; [discriminate|]. simpl in Hlen.
    destruct (Utf8.between 194 223 b0) eqn:E1.
    { destruct (Utf8.cont b1) eqn:C1; [|discriminate].
      apply ValidString_of_fmap in Ha. rewrite !append_cons.
      unfold Utf8.ValidString.
      destruct (runes_form2 b0 b1 (r1 +:+ b) E1 C1) as [x ->].
      apply ValidString_fmap, IH; (done || lia). }
    destruct r1 as [|b2 r2]; [discriminate|]. simpl in Hlen.
    destruct (Utf8.between 224 239 b0) eqn:E2.
    { destruct (Utf8.second3 b0 b1 && Utf8.cont b2) eqn:T3; [|discriminate].
      apply ValidString_of_fmap in Ha. apply andb_true_iff in T3 as [C1 C2].
      rewrite !append_cons. unfold Utf8.ValidString.
      destruct (runes_form3 b0 b1 b2 (r2 +:+ b) E2 C1 C2) as [x ->].
      apply ValidString_fmap, IH; (done || lia). }
    destruct r2 as [|b3 r3]; [discriminate|]. simpl in Hlen.
    destruct (Utf8.between 240 244 b0) eqn:E3; [|discriminate].
    destruct (Utf8.second4 b0 b1 && Utf8.cont b2 && Utf8.cont b3) eqn:T4; [|discriminate].
    apply ValidString_of_fmap in Ha.
    apply andb_true_iff in T4 as [T4 C3]. apply andb_true_iff in T4 as [C1 C2].
    rewrite !append_cons. unfold Utf8.ValidString.
    destruct (runes_form4 b0 b1 b2 b3 (r3 +:+ b) E3 C1 C2 C3) as [x ->].
    apply ValidString_fmap, IH; (done || lia).
Qed.

Lemma ValidString_append a b :
  Utf8.ValidString a = true -> Utf8.ValidString b = true ->
  Utf8.ValidString (a +:+ b) = true.
Proof. by apply (ValidString_append_le (String.length a)). Qed.

Lemma ownerQueryString_ValidString owner :
  Utf8.ValidString owner = true -> Utf8.ValidString (ownerQueryString owner) = true.
Proof.
  intros Ho. unfold ownerQueryString.
  repeat (apply ValidString_append; [reflexivity || exact Ho|]).
  reflexivity.
Qed.

Lemma ownerQueryString_selector owner :
  Utf8.ValidString owner = true ->
  Selector.plainText owner = true ->
  Selector.selectorOf (ownerQueryString owner)
  = Some [("docType", "asset"); ("owner", owner)].
Proof.
  intros Hv Hp. unfold Selector.selectorOf.
  rewrite (ownerQueryString_ValidString owner Hv).
  rewrite ownerQueryString_shape, dropPrefix_append.
  cbn [String.length]. rewrite length_append_str.
  change (String.length "docType") with 7. cbn [Nat.add].
  rewrite readMembers_member by reflexivity.
  rewrite Ascii.eqb_refl.
  rewrite readMembers_member by (reflexivity || exact Hp).
  reflexivity.
Qed.

Section OwnerQuery.

Context `{Platform}.


End OwnerQuery.



(** ** Seeding the ledger *)

Section Seeding.

Context `{Platform}.

Implicit Types (L : Ledger) (t : TxLog).

(** the loop stops at the first creation that fails, with its error and
    with the log as that creation left it *)
Lemma createEach_stops L pre a post :
  forall t t1 e t2,
    createEach pre L t = (Ok tt, t1) ->
    createOf a L t1 = (Err e, t2) ->
    createEach (pre ++ a :: post) L t = (Err e, t2).
Proof.
  induction pre as [|p pre IH]; intros t t1 e t2 Hpre Hfail.
  - injection Hpre as <-. cbn [app createEach]. unfold bind.
    fold (createOf a). by rewrite Hfail.
  - cbn [app createEach] in *. unfold bind in *. fold (createOf p) in *.
    destruct (createOf p L t) as [[[]|e'] t0]; [|discriminate].
    by eapply IH.
Qed.

(** C7: [InitLedger] is the sequence of the six creations asset1 to asset6
    with the literal colors, sizes, owners and values, in this order; when
    one of them fails the error returned is that creation's error and the
    log ends where that creation ended, so no later asset is probed or
    written; and when the failing asset is one that already exists the
    error is the conflict error and the last stub call is its probe. *)
Theorem InitLedger_fail_fast L t :
  InitLedger L t
  = (_ <- CreateAsset "asset1" "blue" 5 "Tomoko" 300 ;;
     _ <- CreateAsset "asset2" "red" 5 "Brad" 400 ;;
     _ <- CreateAsset "asset3" "green" 10 "Jin Soo" 500 ;;
     _ <- CreateAsset "asset4" "yellow" 10 "Max" 600 ;;
     _ <- CreateAsset "asset5" "black" 15 "Adriana" 700 ;;
     _ <- CreateAsset "asset6" "white" 15 "Michel" 800 ;;
     ret tt) L t
  /\ (forall pre a post t1 e t2,
        initialAssets = pre ++ a :: post ->
        createEach pre L t = (Ok tt, t1) ->
        CreateAsset (ID a) (Color a) (Size a) (Owner a) (AppraisedValue a) L t1
        = (Err e, t2) ->
        InitLedger L t = (Err e, t2))
  /\ (forall pre a post t1 stored,
        initialAssets = pre ++ a :: post ->
        createEach pre L t = (Ok tt, t1) ->
        world L !! ID a = Some stored ->
        fault L (CallGetState (ID a)) = None ->
        InitLedger L t
        = (Err ("asset already exists: " +:+ ID a), logCall (CallGetState (ID a)) t1)).
Proof.
  split; [reflexivity|]. split.
  - intros pre a post t1 e t2 Hsplit Hpre Hfail.
    unfold InitLedger. rewrite Hsplit. by eapply createEach_stops.
  - intros pre a post t1 stored Hsplit Hpre Hw Hf.
    unfold InitLedger. rewrite Hsplit. eapply createEach_stops; [exact Hpre|].
    unfold createOf, CreateAsset, bind, mapErr, fail.
    by rewrite AssetExists_run, Hf, Hw.
Qed.

End Seeding.

Lemma InitLedger_fail_fast_witness :
  fst (InitLedger ledger3 emptyLog) = Err "asset already exists: asset3"
  /\ last (calls (snd (InitLedger ledger3 emptyLog))) = Some (CallGetState "asset3")
  /\ length (wset (snd (InitLedger ledger3 emptyLog))) = 4.
Proof.
  destruct (InitLedger_fail_fast ledger3 emptyLog) as (_ & _ & Hconflict).
  pose proof (Hconflict
    [mkAsset "asset" "asset1" "blue" 5 "Tomoko" 300; mkAsset "asset" "asset2" "red" 5 "Brad" 400]
    (mkAsset "asset" "asset3" "green" 10 "Jin Soo" 500)
    [mkAsset "asset" "asset4" "yellow" 10 "Max" 600;
     mkAsset "asset" "asset5" "black" 15 "Adriana" 700;
     mkAsset "asset" "asset6" "white" 15 "Michel" 800]
    (snd (createEach
       [mkAsset "asset" "asset1" "blue" 5 "Tomoko" 300; mkAsset "asset" "asset2" "red" 5 "Brad" 400]
       ledger3 emptyLog))
    (referenceBytes (mkAsset "asset" "asset3" "green" 10 "Jin Soo" 500))
    eq_refl) as Hrun.
  rewrite Hrun.
  - vm_compute. repeat split.
  - vm_compute. reflexivity.
  - vm_compute. reflexivity.
  - reflexivity.
Defined.

(** ** Iterators and the history of a key *)

Lemma imap_pointwise {A B} (f : nat -> A -> B) (g : A -> B) (l : list A) :
  (forall n x, f n x = g x) -> imap f l = g <$> l.
Proof.
  revert f. induction l as [|x l IH]; intros f Hfg; [reflexivity|].
  cbn. rewrite Hfg. f_equal. apply IH. intros n y. apply Hfg.
Qed.

Lemma iterate_no_fault {A} L c (items : list A) :
  (forall n, nextFault L c n = None) -> iterate L c items = Ok <$> items.
Proof.
  intros Hn. unfold iterate. apply imap_pointwise. intros n x. by rewrite Hn.
Qed.

Lemma elems_append {A} (s : slice A) (x : A) : elems (append s x) = elems s ++ [x].
Proof. by destruct s. Qed.

Lemma elems_foldl_append {A} (s : slice A) (xs : list A) :
  elems (foldl append s xs) = elems s ++ xs.
Proof.
  revert s. induction xs as [|x xs IH]; intros s; cbn.
  - by rewrite app_nil_r.
  - by rewrite IH, elems_append, <- app_assoc.
Qed.

Section History.

Context `{Platform}.

Implicit Types (L : Ledger) (t : TxLog).

Lemma historyRecord_recordOf assetID e r :
  wellFormedEntry e -> historyRecord assetID e = Ok r -> recordOf assetID e r.
Proof.
  intros Hwf. unfold historyRecord, bindR.
  destruct (0 <? length (KeyModification.Value e))%nat eqn:Hlen.
  - destruct (json_Unmarshal _) as [asset|] eqn:Hu; [|discriminate].
    destruct (ptypes_Timestamp _) as [ts|] eqn:Hts; [|discriminate].
    intros [= <-]. repeat split; cbn; try done.
    intros Hdel. apply Hwf in Hdel. rewrite Hdel in Hlen. discriminate.
  - destruct (ptypes_Timestamp _) as [ts|] eqn:Hts; [|discriminate].
    intros [= <-]. repeat split; cbn; try done.
    intros Hdel. assert (KeyModification.Value e = []) as Hv.
    { destruct (KeyModification.Value e); [done|discriminate]. }
    apply Hwf in Hv. congruence.
Qed.

Lemma historyRecord_corrupt assetID e msg :
  wellFormedEntry e -> KeyModification.IsDelete e = false ->
  json_Unmarshal (KeyModification.Value e) = Err msg ->
  historyRecord assetID e = Err msg.
Proof.
  intros Hwf Hdel Hu. unfold historyRecord, bindR.
  destruct (0 <? length (KeyModification.Value e))%nat eqn:Hlen; [by rewrite Hu|].
  assert (KeyModification.Value e = []) as Hv.
  { destruct (KeyModification.Value e); [done|discriminate]. }
  apply Hwf in Hv. congruence.
Qed.

Lemma historyLoop_Ok assetID entries :
  forall acc records,
    historyLoop assetID (Ok <$> entries) acc = Ok records ->
    exists rs, Forall2 (fun e r => historyRecord assetID e = Ok r) entries rs
               /\ records = foldl append acc rs.
Proof.
  induction entries as [|e entries IH]; intros acc records Hloop.
  - injection Hloop as <-. exists []. by split.
  - cbn in Hloop. destruct (historyRecord assetID e) as [r|] eqn:Hr; [|discriminate].
    cbn in Hloop. apply IH in Hloop as (rs & Hrs & ->).
    exists (r :: rs). split; [by constructor | done].
Qed.

Lemma historyLoop_total assetID entries :
  Forall (fun e => is_Ok (historyRecord assetID e) = true) entries ->
  forall acc, is_Ok (historyLoop assetID (Ok <$> entries) acc) = true.
Proof.
  induction 1 as [|e entries He _ IH]; intros acc; [reflexivity|].
  cbn. destruct (historyRecord assetID e) as [r|]; [|discriminate]. cbn. apply IH.
Qed.

Lemma historyLoop_Err assetID pre e post msg :
  Forall (fun e => is_Ok (historyRecord assetID e) = true) pre ->
  historyRecord assetID e = Err msg ->
  forall acc, historyLoop assetID (Ok <$> (pre ++ e :: post)) acc = Err msg.
Proof.
  induction 1 as [|p pre Hp _ IH]; intros He acc.
  - cbn. by rewrite He.
  - cbn. destruct (historyRecord assetID p) as [r|]; [|discriminate]. cbn. by apply IH.
Qed.

Lemma GetAssetHistory_run L assetID :
  fault L (CallGetHistoryForKey assetID) = None ->
  (forall n, nextFault L (CallGetHistoryForKey assetID) n = None) ->
  fst (GetAssetHistory assetID L emptyLog)
  = historyLoop assetID (Ok <$> keyHistory L assetID) nil_slice.
Proof.
  intros Hf Hn. unfold GetAssetHistory, GetHistoryForKey, bind, ask, liftR.
  rewrite Hf. cbn [fst]. by rewrite iterate_no_fault.
Qed.

(** C9: over the entries the history iterator yields for the id, entries
    filed as the ledger files them, [GetAssetHistory] returns one record
    per entry in the order of the iterator; each record carries the
    transaction id, the converted timestamp and the delete flag of its
    entry, with the placeholder holding only the id for a delete and the
    decoded value otherwise.  It returns them whenever every entry
    converts, and the first non-delete entry whose value does not decode
    makes the call fail with the decoder's error. *)
Theorem GetAssetHistory_records L assetID :
  fault L (CallGetHistoryForKey assetID) = None ->
  (forall n, nextFault L (CallGetHistoryForKey assetID) n = None) ->
  Forall wellFormedEntry (keyHistory L assetID) ->
  (forall records,
     fst (GetAssetHistory assetID L emptyLog) = Ok records ->
     Forall2 (recordOf assetID) (keyHistory L assetID) (elems records))
  /\ (Forall (fun e => is_Ok (historyRecord assetID e) = true) (keyHistory L assetID) ->
      is_Ok (fst (GetAssetHistory assetID L emptyLog)) = true)
  /\ (forall pre e post msg,
        keyHistory L assetID = pre ++ e :: post ->
        Forall (fun e => is_Ok (historyRecord assetID e) = true) pre ->
        KeyModification.IsDelete e = false ->
        json_Unmarshal (KeyModification.Value e) = Err msg ->
        fst (GetAssetHistory assetID L emptyLog) = Err msg).
Proof.
  intros Hf Hn Hwf. rewrite (GetAssetHistory_run L assetID Hf Hn). repeat split.
  - intros records Hloop. apply historyLoop_Ok in Hloop as (rs & Hrs & ->).
    rewrite elems_foldl_append. cbn [elems nil_slice app].
    revert Hwf. induction Hrs as [|e r es rs Hr _ IH]; intros Hwf; [constructor|].
    inversion Hwf; subst. constructor; [by apply historyRecord_recordOf | by apply IH].
  - intros Hall. by apply historyLoop_total.
  - intros pre e post msg Hsplit Hpre Hdel Hu. rewrite Hsplit.
    apply historyLoop_Err; [done|]. apply historyRecord_corrupt; [|done..].
    rewrite Hsplit in Hwf. apply Forall_app in Hwf as [_ Hwf]. by inversion Hwf.
Qed.

End History.

Lemma GetAssetHistory_records_witness :
  exists records,
    fst (GetAssetHistory "asset1" ledgerH emptyLog) = Ok records
    /\ Forall2 (recordOf "asset1") history1 (elems records).
Proof.
  assert (Forall wellFormedEntry (keyHistory ledgerH "asset1")) as Hwf.
  { repeat constructor; discriminate. }
  destruct (GetAssetHistory_records ledgerH "asset1" eq_refl (fun _ => eq_refl) Hwf)
    as (Hok & _ & _).
  eexists. split.
  - vm_compute. reflexivity.
  - apply Hok. vm_compute. reflexivity.
Defined.

(** ** Splitting composite keys *)

Lemma nulFree_append a b : nulFree a = true -> nulFree b = true -> nulFree (a +:+ b) = true.
Proof.
  induction a as [|c a IH]; intros Ha Hb; [done|].
  rewrite append_cons. cbn [nulFree] in *.
  apply andb_true_iff in Ha as [-> Ha]. by rewrite IH.
Qed.

Lemma splitNul_nulFree s :
  forall cur, nulFree cur = true ->
    Forall (fun p => nulFree p = true) (splitNul cur s).
Proof.
  induction s as [|c s IH]; intros cur Hcur; cbn [splitNul]; [constructor|].
  destruct (Ascii.eqb c NUL) eqn:Hc.
  - constructor; [done|]. by apply IH.
  - apply IH. apply nulFree_append; [done|]. cbn. by rewrite Hc.
Qed.

Lemma SplitCompositeKey_nulFree key objectType parts :
  SplitCompositeKey key = Ok (objectType, parts) ->
  Forall (fun p => nulFree p = true) parts.
Proof.
  unfold SplitCompositeKey. intros Hs.
  pose proof (splitNul_nulFree (dropFirst key) EmptyString eq_refl) as Hall.
  destruct (splitNul EmptyString (dropFirst key)) as [|ot attrs]; [discriminate|].
  injection Hs as <- <-. by inversion Hall.
Qed.

Lemma splitNul_component a rest :
  nulFree a = true ->
  forall cur, splitNul cur (a +:+ String NUL rest) = (cur +:+ a) :: splitNul EmptyString rest.
Proof.
  induction a as [|c a IH]; intros Ha cur.
  - rewrite append_nil. cbn [splitNul]. rewrite Ascii.eqb_refl.
    f_equal. induction cur as [|x cur IHc]; [done|]. rewrite append_cons. by f_equal.
  - rewrite append_cons. cbn [splitNul nulFree] in *.
    apply andb_true_iff in Ha as [Hc Ha]. apply negb_true_iff in Hc. rewrite Hc.
    rewrite IH by done. by rewrite append_assoc_str, append_cons, append_nil.
Qed.

Lemma SplitCompositeKey_keyText c id :
  nulFree c = true -> nulFree id = true ->
  SplitCompositeKey (keyText c id) = Ok (index, [c; id]).
Proof.
  intros Hc Hi. unfold SplitCompositeKey, keyText. cbn [dropFirst].
  rewrite splitNul_component by reflexivity.
  rewrite splitNul_component by done.
  rewrite splitNul_component by done.
  reflexivity.
Qed.

(** ** Transfer by color *)

Lemma imap_all_Ok {A} (f : nat -> A -> Result A) (l kvs : list A) :
  (forall n x, f n x = Ok x \/ exists e, f n x = Err e) ->
  imap f l = Ok <$> kvs -> kvs = l.
Proof.
  revert f kvs. induction l as [|x l IH]; intros f kvs Hf Hmap.
  - by destruct kvs.
  - destruct kvs as [|k kvs]; [discriminate|]. cbn in Hmap.
    injection Hmap as Hx Hrest.
    destruct (Hf 0 x) as [Hok|[e He]]; [|congruence].
    rewrite Hok in Hx. injection Hx as ->. f_equal.
    eapply IH; [|exact Hrest]. intros n y. apply Hf.
Qed.

Lemma iterate_all_Ok {A} L c (items kvs : list A) :
  iterate L c items = Ok <$> kvs -> kvs = items.
Proof.
  apply imap_all_Ok. intros n x. destruct (nextFault L c n); eauto.
Qed.

Section Transfer.

Context `{Platform}.

Implicit Types (L : Ledger) (t : TxLog).

Lemma rewriteOf_functional L newOwner id b b' :
  rewriteOf L newOwner (WPut id b) -> rewriteOf L newOwner (WPut id b') -> b = b'.
Proof.
  intros (? & ? & ? & ? & [= <- <-] & _ & _ & Hw & Hu & Hm)
         (? & ? & ? & ? & [= <- <-] & _ & _ & Hw' & Hu' & Hm').
  congruence.
Qed.

Lemma transferEntry_Ok L t t' newOwner kv :
  transferEntry newOwner kv L t = (Ok tt, t') ->
  exists objectType parts,
    SplitCompositeKey (KV.Key kv) = Ok (objectType, parts)
    /\ match parts with
       | _ :: id :: _ =>
         exists stored asset b,
           fault L (CallGetState id) = None
           /\ world L !! id = Some stored /\ json_Unmarshal stored = Ok asset
           /\ json_Marshal (setOwner asset newOwner) = Ok b
           /\ id <> EmptyString
           /\ fault L (CallPutState id b) = None
           /\ t' = mkTxLog (calls t ++ [CallGetState id; CallPutState id b])
                           (wset t ++ [WPut id b])
       | _ => t' = t
       end.
Proof.
  unfold transferEntry, bind, liftR, mapErr, ret.
  destruct (SplitCompositeKey (KV.Key kv)) as [[objectType parts]|] eqn:Hs; [|discriminate].
  cbn [snd]. intros Hrun. exists objectType, parts. split; [done|].
  destruct parts as [|c [|id rest]]; try by injection Hrun.
  rewrite ReadAsset_run in Hrun.
  destruct (fault L (CallGetState id)) eqn:Hf; [discriminate|].
  destruct (world L !! id) as [stored|] eqn:Hw; [|discriminate].
  destruct (json_Unmarshal stored) as [asset|] eqn:Hu; [|discriminate].
  destruct (json_Marshal _) as [b|] eqn:Hm; [|discriminate].
  rewrite PutState_run in Hrun.
  destruct (String.eqb id EmptyString) eqn:Hid; [discriminate|].
  destruct (fault L (CallPutState id b)) eqn:Hp; [discriminate|].
  injection Hrun as <-. exists stored, asset, b.
  apply String.eqb_neq in Hid. repeat split; try done.
  unfold logWrite, logCall. cbn. by rewrite <- app_assoc.
Qed.

Lemma transferLoop_Ok L newOwner it :
  forall t t',
    transferLoop newOwner it L t = (Ok tt, t') ->
    exists kvs ws,
      it = Ok <$> kvs
      /\ wset t' = wset t ++ ws
      /\ Forall (rewriteOf L newOwner) ws
      /\ (forall kv objectType c id rest,
            kv ∈ kvs ->
            SplitCompositeKey (KV.Key kv) = Ok (objectType, c :: id :: rest) ->
            exists b, WPut id b ∈ ws).
Proof.
  induction it as [|next it IH]; intros t t' Hrun.
  - injection Hrun as <-. exists [], []. rewrite app_nil_r.
    repeat split; [constructor|]. intros kv ? ? ? ? Hin. by apply elem_of_nil in Hin.
  - cbn [transferLoop] in Hrun. unfold bind, liftR in Hrun.
    destruct next as [kv|e]; [|discriminate].
    destruct (transferEntry newOwner kv L t) as [[[]|e] t1] eqn:Hentry; [|discriminate].
    apply IH in Hrun as (kvs & ws & -> & Hws & Hall & Hin).
    apply transferEntry_Ok in Hentry as (objectType & parts & Hs & Hparts).
    assert ((forall c id rest, parts <> c :: id :: rest) -> t1 = t ->
              exists kvs0 ws0, Ok kv :: (Ok <$> kvs) = Ok <$> kvs0
              /\ wset t' = wset t ++ ws0 /\ Forall (rewriteOf L newOwner) ws0
              /\ (forall kv0 objectType0 c id rest, kv0 ∈ kvs0 ->
                    SplitCompositeKey (KV.Key kv0) = Ok (objectType0, c :: id :: rest) ->
                    exists b, WPut id b ∈ ws0)) as Hskip.
    { intros Hshort ->. exists (kv :: kvs), ws. repeat split; try done.
      intros kv0 ot0 c id rest [->|Hin0]%elem_of_cons Hs0; [|by eapply Hin].
      rewrite Hs in Hs0. injection Hs0 as <- ->. by destruct (Hshort c id rest). }
    destruct parts as [|c [|id rest]]; [by apply Hskip..|]. clear Hskip.
    destruct Hparts as (stored & asset & b & Hf & Hw & Hu & Hm & Hid & Hp & ->).
    cbn [wset] in Hws. exists (kv :: kvs), (WPut id b :: ws).
    split; [done|]. split; [by rewrite Hws, <- app_assoc|]. split.
    + constructor; [|done]. exists id, stored, asset, b. repeat split; try done.
      apply SplitCompositeKey_nulFree in Hs. inversion Hs as [|? ? _ Hs']; subst.
      by inversion Hs'.
    + intros kv0 ot0 c0 id0 rest0 [->|Hin0]%elem_of_cons Hs0.
      * rewrite Hs in Hs0. injection Hs0 as <- <- <- <-. exists b. by left.
      * destruct (Hin _ _ _ _ _ Hin0 Hs0) as [b0 Hb0]. exists b0. by right.
Qed.

Lemma transferLoop_stops L newOwner pre kv post :
  forall t t1 e t2,
    transferLoop newOwner pre L t = (Ok tt, t1) ->
    transferEntry newOwner kv L t1 = (Err e, t2) ->
    transferLoop newOwner (pre ++ Ok kv :: post) L t = (Err e, t2).
Proof.
  induction pre as [|p pre IH]; intros t t1 e t2 Hpre Hfail.
  - injection Hpre as <-. cbn [app transferLoop]. unfold bind, liftR. by rewrite Hfail.
  - cbn [app transferLoop] in *. unfold bind, liftR in *.
    destruct p as [kv0|]; [|discriminate].
    destruct (transferEntry newOwner kv0 L t) as [[[]|e'] t0]; [|discriminate].
    by eapply IH.
Qed.

Lemma applyWrites_untouched ws k :
  Forall (fun w => writtenKey w <> k) ws ->
  forall w0, applyWrites w0 ws !! k = w0 !! k.
Proof.
  induction 1 as [|w ws Hw _ IH]; intros w0; [done|].
  change (applyWrites w0 (w :: ws)) with (applyWrites (applyWrite w0 w) ws).
  rewrite IH. destruct w as [id [|b0 v]|id]; cbn in *.
  - by rewrite lookup_delete_ne.
  - by rewrite lookup_insert_ne.
  - by rewrite lookup_delete_ne.
Qed.

Lemma rewriteOf_put L newOwner w :
  rewriteOf L newOwner w ->
  exists id b, w = WPut id b /\ b <> [] /\ nulFree id = true.
Proof.
  intros (id & stored & asset & b & -> & Hn & _ & _ & _ & Hm).
  exists id, b. eauto using json_Marshal_nonempty.
Qed.

Lemma applyWrites_stable L newOwner ws :
  Forall (rewriteOf L newOwner) ws ->
  forall w0 id b,
    rewriteOf L newOwner (WPut id b) -> w0 !! id = Some b ->
    applyWrites w0 ws !! id = Some b.
Proof.
  induction 1 as [|w ws Hw _ IH]; intros w0 id b Hr Hlook; [done|].
  change (applyWrites w0 (w :: ws)) with (applyWrites (applyWrite w0 w) ws).
  apply IH; [done|].
  destruct (rewriteOf_put _ _ _ Hw) as (id' & b' & -> & Hb' & _).
  rewrite applyWrite_put by done.
  destruct (decide (id' = id)) as [->|Hne].
  - rewrite (rewriteOf_functional _ _ _ _ _ Hw Hr). apply lookup_insert_eq.
  - by rewrite lookup_insert_ne.
Qed.

Lemma applyWrites_rewritten L newOwner ws :
  Forall (rewriteOf L newOwner) ws ->
  forall w0 id b, WPut id b ∈ ws -> applyWrites w0 ws !! id = Some b.
Proof.
  induction 1 as [|w ws Hw Hws IH]; intros w0 id b Hin; [by apply elem_of_nil in Hin|].
  change (applyWrites w0 (w :: ws)) with (applyWrites (applyWrite w0 w) ws).
  apply elem_of_cons in Hin as [<-|Hin]; [|by apply IH].
  eapply applyWrites_stable; [done..|].
  destruct (rewriteOf_put _ _ _ Hw) as (id' & b' & [= <- <-] & Hb' & _).
  rewrite applyWrite_put by done. apply lookup_insert_eq.
Qed.

(** the errors that one index entry can end the loop with *)
Lemma transferEntry_errors L t newOwner kv objectType c id rest :
  SplitCompositeKey (KV.Key kv) = Ok (objectType, c :: id :: rest) ->
  (forall e, fault L (CallGetState id) = Some e ->
     fst (transferEntry newOwner kv L t)
     = Err ("failed to get asset " +:+ id +:+ ": " +:+ e))
  /\ (forall stored e,
        fault L (CallGetState id) = None -> world L !! id = Some stored ->
        json_Unmarshal stored = Err e ->
        fst (transferEntry newOwner kv L t) = Err e)
  /\ (forall stored asset b e,
        fault L (CallGetState id) = None -> world L !! id = Some stored ->
        json_Unmarshal stored = Ok asset ->
        json_Marshal (setOwner asset newOwner) = Ok b ->
        id <> EmptyString ->
        fault L (CallPutState id b) = Some e ->
        fst (transferEntry newOwner kv L t)
        = Err ("transfer failed for asset " +:+ id +:+ ": " +:+ e)).
Proof.
  intros Hs. unfold transferEntry, bind, liftR, mapErr. rewrite Hs. cbn [snd].
  rewrite ReadAsset_run. repeat split.
  - intros e Hf. by rewrite Hf.
  - intros stored e Hf Hw Hu. by rewrite Hf, Hw, Hu.
  - intros stored asset b e Hf Hw Hu Hm Hid Hp. rewrite Hf, Hw, Hu, Hm.
    rewrite PutState_run, Hp. apply String.eqb_neq in Hid. by rewrite Hid.
Qed.

End Transfer.


(** ** The index invariant *)

Section InvariantProofs.

Context `{Platform}.

Implicit Types (L : Ledger) (t : TxLog) (w : gmap string (list byte)).

(** the third clause of the invariant follows from the other two *)
Lemma IndexInvariant_intro w :
  (forall k v, w !! k = Some v -> startsWithNul k = false ->
     exists a ck, json_Unmarshal v = Ok a /\ ID a = k
                  /\ indexKey (Color a) k = Ok ck /\ w !! ck = Some [x00]) ->
  (forall k v, w !! k = Some v -> startsWithNul k = true ->
     v = [x00]
     /\ exists c id old a, indexKey c id = Ok k /\ w !! id = Some old
                           /\ json_Unmarshal old = Ok a /\ Color a = c) ->
  IndexInvariant w.
Proof.
  intros Hassets Hindex. split; [done..|].
  intros id c1 c2 k1 k2 Hk1 Hk2 [v1 Hv1] [v2 Hv2].
  destruct (Hindex k1 v1 Hv1 (indexKey_startsWithNul _ _ _ Hk1))
    as (_ & c & id' & old & a & Hk & Hw & Hu & Hc).
  destruct (indexKey_inj _ _ _ _ _ Hk Hk1) as [-> ->].
  destruct (Hindex k2 v2 Hv2 (indexKey_startsWithNul _ _ _ Hk2))
    as (_ & c' & id' & old' & a' & Hk' & Hw' & Hu' & Hc').
  destruct (indexKey_inj _ _ _ _ _ Hk' Hk2) as [-> ->].
  congruence.
Qed.

Lemma IndexInvariant_empty : IndexInvariant ∅.
Proof. apply IndexInvariant_intro; intros k v Hk; by rewrite lookup_empty in Hk. Qed.

(** the id and the color of a record survive the codec when they are
    admissible key attributes *)
Lemma round_trip_key_fields a b :
  json_Marshal a = Ok b ->
  validateCompositeKeyAttribute (ID a) = Ok tt ->
  validateCompositeKeyAttribute (Color a) = Ok tt ->
  exists a', json_Unmarshal b = Ok a' /\ ID a' = ID a /\ Color a' = Color a.
Proof.
  intros Hm Hi Hc. eexists. split; [by apply json_round_trip|].
  cbn [ID Color]. by rewrite !toValidUTF8_valid by by apply validate_ValidString.
Qed.

Lemma marker_not_a_record a : json_Unmarshal [x00] <> Ok a.
Proof. intros Hu. pose proof json_Unmarshal_marker as Hm. by rewrite Hu in Hm. Qed.

(** a stored value that decodes lies outside the composite-key namespace *)
Lemma IndexInvariant_record_simple w k stored a :
  IndexInvariant w -> w !! k = Some stored -> json_Unmarshal stored = Ok a ->
  startsWithNul k = false.
Proof.
  intros Hinv Hw Hu. destruct (startsWithNul k) eqn:Hk; [|done].
  destruct (index_backed w Hinv k stored Hw Hk) as [-> _].
  by apply marker_not_a_record in Hu.
Qed.

Lemma IndexInvariant_create w assetID color size owner appraisedValue assetBytes ck :
  IndexInvariant w ->
  w !! assetID = None ->
  json_Marshal (mkAsset "asset" assetID color size owner appraisedValue) = Ok assetBytes ->
  indexKey color assetID = Ok ck ->
  IndexInvariant (<[ck := [x00]]> (<[assetID := assetBytes]> w)).
Proof.
  intros Hinv Hnone Hm Hck.
  pose proof (indexKey_startsWithNul _ _ _ Hck) as Hckn.
  pose proof (indexKey_simple_id _ _ _ Hck) as Hidn.
  pose proof (indexKey_ne_id _ _ _ Hck) as Hne.
  destruct (indexKey_inv _ _ _ Hck) as (Hc & Hi & _).
  destruct (round_trip_key_fields _ _ Hm Hi Hc) as (a' & Hu & Hid' & Hc').
  cbn [ID Color] in Hid', Hc'.
  apply IndexInvariant_intro.
  - intros k v Hk Hsimple.
    apply lookup_insert_Some in Hk as [[<- _]|[Hkck Hk]]; [congruence|].
    apply lookup_insert_Some in Hk as [[<- <-]|[Hkid Hk]].
    + exists a', ck. rewrite Hc'. repeat split; try done. apply lookup_insert_eq.
    + destruct (asset_indexed w Hinv k v Hk Hsimple) as (a & ck0 & Hu0 & Hid0 & Hck0 & Hw0).
      exists a, ck0. repeat split; try done.
      destruct (decide (ck = ck0)) as [<-|Hd]; [apply lookup_insert_eq|].
      rewrite lookup_insert_ne by done. rewrite lookup_insert_ne; [done|].
      intros <-. apply indexKey_startsWithNul in Hck0. congruence.
  - intros k v Hk Hcomp.
    apply lookup_insert_Some in Hk as [[<- <-]|[Hkck Hk]].
    + split; [done|]. exists color, assetID, assetBytes, a'. repeat split; try done.
      rewrite lookup_insert_ne by done. apply lookup_insert_eq.
    + apply lookup_insert_Some in Hk as [[<- _]|[Hkid Hk]]; [congruence|].
      destruct (index_backed w Hinv k v Hk Hcomp) as (-> & c0 & id0 & old & a0 & Hk0 & Hw0 & Hu0 & Hc0).
      split; [done|]. exists c0, id0, old, a0. repeat split; try done.
      rewrite lookup_insert_ne.
      * rewrite lookup_insert_ne; [done|]. intros <-. congruence.
      * intros <-. apply indexKey_simple_id in Hk0. congruence.
Qed.

Lemma IndexInvariant_delete w assetID stored asset ck :
  IndexInvariant w ->
  w !! assetID = Some stored ->
  json_Unmarshal stored = Ok asset ->
  indexKey (Color asset) (ID asset) = Ok ck ->
  IndexInvariant (delete ck (delete assetID w)).
Proof.
  intros Hinv Hw Hu Hck.
  pose proof (IndexInvariant_record_simple _ _ _ _ Hinv Hw Hu) as Hsimple.
  destruct (asset_indexed w Hinv _ _ Hw Hsimple) as (a1 & ck1 & Hu1 & Hid1 & Hck1 & _).
  assert (a1 = asset) as -> by congruence. rewrite Hid1 in Hck. clear ck1 Hck1 Hu1.
  apply IndexInvariant_intro.
  - intros k v Hk Hks.
    apply lookup_delete_Some in Hk as [Hkck Hk].
    apply lookup_delete_Some in Hk as [Hkid Hk].
    destruct (asset_indexed w Hinv k v Hk Hks) as (a0 & ck0 & Hu0 & Hid0 & Hck0 & Hw0).
    exists a0, ck0. repeat split; try done.
    rewrite lookup_delete_ne.
    + rewrite lookup_delete_ne; [done|]. intros ->.
      apply indexKey_startsWithNul in Hck0. congruence.
    + intros ->. destruct (indexKey_inj _ _ _ _ _ Hck Hck0) as [_ ?]. congruence.
  - intros k v Hk Hkc.
    apply lookup_delete_Some in Hk as [Hkck Hk].
    apply lookup_delete_Some in Hk as [Hkid Hk].
    destruct (index_backed w Hinv k v Hk Hkc) as (-> & c0 & id0 & old & a0 & Hk0 & Hw0 & Hu0 & Hc0).
    split; [done|]. exists c0, id0, old, a0. repeat split; try done.
    rewrite lookup_delete_ne.
    + rewrite lookup_delete_ne; [done|]. intros ->.
      assert (old = stored) as -> by congruence.
      assert (a0 = asset) as -> by congruence.
      subst c0. rewrite Hk0 in Hck. by injection Hck.
    + intros ->. apply indexKey_simple_id in Hk0.
      apply indexKey_startsWithNul in Hck. congruence.
Qed.

Lemma ownerRewritten_refl L newOwner : ownerRewritten L newOwner (world L).
Proof. intros k. by left. Qed.

Lemma ownerRewritten_applyWrites L newOwner ws :
  Forall (rewriteOf L newOwner) ws ->
  forall w, ownerRewritten L newOwner w -> ownerRewritten L newOwner (applyWrites w ws).
Proof.
  induction 1 as [|wr ws Hwr _ IH]; intros w Hw; [done|].
  change (applyWrites w (wr :: ws)) with (applyWrites (applyWrite w wr) ws).
  apply IH. destruct Hwr as (id & stored & asset & b & -> & Hn & _ & Hl & Hu & Hm).
  rewrite applyWrite_put by eauto using json_Marshal_nonempty.
  intros k. destruct (decide (id = k)) as [<-|Hne].
  - right. exists stored, asset, b. repeat split; try done.
    + by apply nulFree_startsWithNul.
    + apply lookup_insert_eq.
  - rewrite lookup_insert_ne by done. apply Hw.
Qed.

Lemma IndexInvariant_ownerRewritten L newOwner w :
  IndexInvariant (world L) -> ownerRewritten L newOwner w -> IndexInvariant w.
Proof.
  intros Hinv Hrw.
  assert (forall k, startsWithNul k = true -> w !! k = world L !! k) as Hcomp.
  { intros k Hk. destruct (Hrw k) as [|(? & ? & ? & ? & _)]; [done|congruence]. }
  assert (forall k stored asset b,
            startsWithNul k = false -> world L !! k = Some stored ->
            json_Unmarshal stored = Ok asset ->
            json_Marshal (setOwner asset newOwner) = Ok b ->
            exists a' ck, json_Unmarshal b = Ok a' /\ ID a' = k /\ Color a' = Color asset
                          /\ indexKey (Color a') k = Ok ck /\ w !! ck = Some [x00]) as Hnew.
  { intros k stored asset b Hk Hl Hu Hm.
    destruct (asset_indexed _ Hinv k stored Hl Hk) as (a0 & ck & Hu0 & Hid & Hck & Hwck).
    assert (a0 = asset) as -> by congruence.
    destruct (indexKey_inv _ _ _ Hck) as (Hc & Hi & _).
    destruct (round_trip_key_fields _ _ Hm) as (a' & Hu' & Hid' & Hc').
    { cbn. by rewrite Hid. } { done. }
    cbn [setOwner ID Color] in Hid', Hc'.
    exists a', ck. rewrite Hc', Hid', Hid. repeat split; try done.
    rewrite Hcomp; [done|]. by eapply indexKey_startsWithNul. }
  apply IndexInvariant_intro.
  - intros k v Hk Hsimple.
    destruct (Hrw k) as [Hsame|(stored & asset & b & _ & Hl & Hu & Hm & Hb)].
    + rewrite Hsame in Hk.
      destruct (asset_indexed _ Hinv k v Hk Hsimple) as (a & ck & Hu & Hid & Hck & Hwck).
      exists a, ck. repeat split; try done.
      rewrite Hcomp; [done|]. by eapply indexKey_startsWithNul.
    + assert (v = b) as -> by congruence.
      destruct (Hnew k stored asset b Hsimple Hl Hu Hm) as (a' & ck & ? & ? & ? & ? & ?).
      by exists a', ck.
  - intros k v Hk Hkc. rewrite (Hcomp k Hkc) in Hk.
    destruct (index_backed _ Hinv k v Hk Hkc)
      as (-> & c0 & id0 & old & a0 & Hk0 & Hw0 & Hu0 & Hc0).
    split; [done|].
    pose proof (indexKey_simple_id _ _ _ Hk0) as Hid0.
    destruct (Hrw id0) as [Hsame|(stored & asset & b & _ & Hl & Hu & Hm & Hb)].
    + exists c0, id0, old, a0. repeat split; try done. by rewrite Hsame.
    + assert (stored = old) as -> by congruence.
      assert (asset = a0) as -> by congruence.
      destruct (Hnew id0 old a0 b Hid0 Hl Hu Hm) as (a' & ck & Hu' & _ & Hc' & _ & _).
      exists c0, id0, b, a'. repeat split; try done. congruence.
Qed.

Lemma TransferAsset_Ok L t t' assetID newOwner :
  TransferAsset assetID newOwner L t = (Ok tt, t') ->
  exists stored asset b,
    world L !! assetID = Some stored /\ json_Unmarshal stored = Ok asset
    /\ json_Marshal (setOwner asset newOwner) = Ok b
    /\ assetID <> EmptyString
    /\ wset t' = wset t ++ [WPut assetID b].
Proof.
  unfold TransferAsset, bind, liftR. rewrite ReadAsset_run.
  destruct (fault L (CallGetState assetID)); [discriminate|].
  destruct (world L !! assetID) as [stored|]; [|discriminate].
  destruct (json_Unmarshal stored) as [asset|] eqn:Hu; [|discriminate].
  destruct (json_Marshal _) as [b|] eqn:Hm; [|discriminate].
  rewrite PutState_run.
  destruct (String.eqb assetID EmptyString) eqn:Hid; [discriminate|].
  destruct (fault L (CallPutState assetID b)); [discriminate|].
  intros [= <-]. exists stored, asset, b. apply String.eqb_neq in Hid. by repeat split.
Qed.

Lemma DeleteAsset_Ok L t t' assetID :
  DeleteAsset assetID L t = (Ok tt, t') ->
  exists stored asset ck,
    world L !! assetID = Some stored /\ json_Unmarshal stored = Ok asset
    /\ indexKey (Color asset) (ID asset) = Ok ck
    /\ wset t' = wset t ++ [WDel assetID; WDel ck].
Proof.
  unfold DeleteAsset, bind, liftR, mapErr. rewrite ReadAsset_run.
  destruct (fault L (CallGetState assetID)); [discriminate|].
  destruct (world L !! assetID) as [stored|]; [|discriminate].
  destruct (json_Unmarshal stored) as [asset|] eqn:Hu; [|discriminate].
  rewrite DelState_run.
  destruct (fault L (CallDelState assetID)); [discriminate|].
  destruct (CreateCompositeKey index [Color asset; ID asset]) as [ck|] eqn:Hck; [|discriminate].
  rewrite DelState_run.
  destruct (fault L (CallDelState ck)); [discriminate|].
  intros [= <-]. exists stored, asset, ck. repeat split; try done.
  cbn. by rewrite <- app_assoc.
Qed.

Lemma createEach_Ok_simple L assets :
  forall t t', createEach assets L t = (Ok tt, t') ->
    Forall (fun a => startsWithNul (ID a) = false) assets.
Proof.
  induction assets as [|a assets IH]; intros t t' Hrun; [constructor|].
  cbn [createEach] in Hrun. unfold bind in Hrun.
  destruct (CreateAsset _ _ _ _ _ L t) as [[[]|e] t1] eqn:Ha; [|discriminate].
  constructor; [|by eapply IH].
  apply CreateAsset_Ok in Ha as (? & ck & _ & _ & _ & _ & _ & Hck & _).
  by eapply indexKey_simple_id.
Qed.

(** the creations of a list of assets with distinct ids keep the invariant,
    each of them finding its id free in the snapshot *)
Lemma createEach_IndexInvariant L assets :
  NoDup (ID <$> assets) ->
  forall t t',
    createEach assets L t = (Ok tt, t') ->
    IndexInvariant (applyWrites (world L) (wset t)) ->
    (forall a, a ∈ assets ->
       applyWrites (world L) (wset t) !! ID a = world L !! ID a) ->
    IndexInvariant (applyWrites (world L) (wset t')).
Proof.
  induction assets as [|a assets IH]; intros Hnd t t' Hrun Hinv Hfresh.
  - by injection Hrun as <-.
  - cbn [createEach] in Hrun. unfold bind in Hrun.
    destruct (CreateAsset _ _ _ _ _ L t) as [[[]|e] t1] eqn:Ha; [|discriminate].
    pose proof (createEach_Ok_simple _ _ _ _ Hrun) as Hsimple.
    apply CreateAsset_Ok in Ha
      as (b & ck & _ & Hnone & Hm & _ & _ & Hck & _ & ->).
    cbn [fmap list_fmap] in Hnd. apply NoDup_cons in Hnd as [Hnotin Hnd].
    assert (applyWrites (world L) (wset t ++ createWrites (ID a) b ck)
            = <[ck := [x00]]> (<[ID a := b]> (applyWrites (world L) (wset t)))) as Hstep.
    { rewrite applyWrites_app.
      apply applyWrites_create. eauto using json_Marshal_nonempty. }
    eapply (IH Hnd _ _ Hrun); cbn [wset]; rewrite Hstep.
    + eapply IndexInvariant_create; [done| |done..].
      rewrite Hfresh; [done|]. by left.
    + intros a' Ha'.
      rewrite lookup_insert_ne.
      * rewrite lookup_insert_ne; [apply Hfresh; by right|].
        intros Heq. apply Hnotin. apply list_elem_of_fmap. by exists a'.
      * intros Heq. apply indexKey_startsWithNul in Hck.
        pose proof (proj1 (Forall_forall _ _) Hsimple _ Ha') as Hs.
        cbn beta in Hs. rewrite <- Heq in Hs. congruence.
Qed.

(** C2: every exposed operation that completes without error leaves the
    invariant of the index in place: in the state the host commits, every
    asset record has its index entry under its color and id, and every
    index entry belongs to a stored asset of that color. *)
Theorem IndexInvariant_preserved L op t' :
  IndexInvariant (world L) ->
  invoke op L emptyLog = (Ok tt, t') ->
  IndexInvariant (committed L t').
Proof.
  intros Hinv Hrun. unfold committed.
  destruct op as [assetID color size owner appraisedValue|assetID|assetID newOwner
                 |assetID|color newOwner|]; cbn [invoke] in Hrun.
  - apply CreateAsset_Ok in Hrun as (b & ck & _ & Hnone & Hm & _ & _ & Hck & _ & ->).
    cbn [wset emptyLog app].
    rewrite applyWrites_create by eauto using json_Marshal_nonempty.
    by eapply IndexInvariant_create.
  - unfold bind, ret in Hrun. rewrite ReadAsset_run in Hrun.
    destruct (match fault L _ with Some _ => _ | None => _ end); [|discriminate].
    by injection Hrun as <-.
  - apply TransferAsset_Ok in Hrun as (stored & asset & b & Hw & Hu & Hm & Hid & ->).
    cbn [wset emptyLog app].
    eapply (IndexInvariant_ownerRewritten L newOwner); [done|].
    apply ownerRewritten_applyWrites; [|apply ownerRewritten_refl].
    constructor; [|constructor].
    exists assetID, stored, asset, b. repeat split; try done.
    pose proof (IndexInvariant_record_simple _ _ _ _ Hinv Hw Hu) as Hsimple.
    destruct (asset_indexed _ Hinv _ _ Hw Hsimple) as (a & ck & _ & _ & Hck & _).
    destruct (indexKey_inv _ _ _ Hck) as (_ & Hi & _). by apply validate_nulFree.
  - apply DeleteAsset_Ok in Hrun as (stored & asset & ck & Hw & Hu & Hck & ->).
    cbn [wset emptyLog app applyWrites foldl applyWrite].
    by eapply IndexInvariant_delete.
  - unfold TransferAssetByColor, GetStateByPartialCompositeKey, handleGetStateByRange,
      bind, liftR, ask in Hrun.
    destruct (CreateCompositeKey index [color]) as [partialKey|]; [|discriminate].
    destruct (fault L _); [discriminate|].
    apply transferLoop_Ok in Hrun as (kvs & ws & _ & -> & Hall & _).
    cbn [wset logCall emptyLog app].
    eapply (IndexInvariant_ownerRewritten L newOwner); [done|].
    apply ownerRewritten_applyWrites; [done|apply ownerRewritten_refl].
  - eapply (createEach_IndexInvariant L initialAssets); [| exact Hrun | done | done].
    apply (bool_decide_unpack _). by vm_compute.
Qed.

End InvariantProofs.

Lemma IndexInvariant_preserved_witness :
  IndexInvariant (committed ledger0 (snd (InitLedger ledger0 emptyLog)))
  /\ IndexInvariant
       (committed ledgerSeeded (snd (DeleteAsset "asset1" ledgerSeeded emptyLog))).
Proof.
  assert (IndexInvariant (world ledgerSeeded)) as Hseeded.
  { apply (IndexInvariant_preserved ledger0 OpInitLedger).
    - apply IndexInvariant_empty.
    - vm_compute. reflexivity. }
  split; [exact Hseeded|].
  apply (IndexInvariant_preserved ledgerSeeded (OpDeleteAsset "asset1")).
  - exact Hseeded.
  - vm_compute. reflexivity.
Defined.

(** ** The scan of a color prefix reaches every index entry of the color *)

Lemma compare_first_lt b c s1 s2 :
  (Utf8.code b < Utf8.code c)%N -> String.compare (String b s1) (String c s2) = Lt.
Proof.
  intros Hlt. cbn [String.compare]. unfold Ascii.compare.
  apply N.compare_lt_iff in Hlt. unfold Utf8.code in Hlt. by rewrite Hlt.
Qed.

Lemma compare_first_eq b c s1 s2 :
  Utf8.code b = Utf8.code c ->
  String.compare (String b s1) (String c s2) = String.compare s1 s2.
Proof.
  intros Heq. cbn [String.compare]. unfold Ascii.compare.
  unfold Utf8.code in Heq. by rewrite Heq, N.compare_refl.
Qed.

Lemma compare_prefix p a b :
  String.compare (p +:+ a) (p +:+ b) = String.compare a b.
Proof.
  induction p as [|c p IH]; [done|].
  rewrite !append_cons, compare_first_eq by done. exact IH.
Qed.

Lemma between_bounds lo hi c :
  Utf8.between lo hi c = true -> (lo <= Utf8.code c <= hi)%N.
Proof.
  unfold Utf8.between. intros [H1 H2]%andb_true_iff.
  apply N.leb_le in H1, H2. lia.
Qed.

(** an admissible attribute followed by U+0000 sorts below U+10FFFF *)
Lemma attribute_below_MaxRune id :
  validateCompositeKeyAttribute id = Ok tt ->
  String.compare (id +:+ String NUL EmptyString) Utf8.MaxRuneString = Lt.
Proof.
  unfold validateCompositeKeyAttribute. intros Hv.
  destruct (Utf8.runes id) as [rs|] eqn:Hr; [|discriminate].
  destruct (existsb forbiddenRune rs) eqn:Hf; [discriminate|]. clear Hv.
  destruct id as [|b0 r0]; [reflexivity|].
  rewrite append_cons. unfold Utf8.MaxRuneString.
  cbn [Utf8.runes] in Hr.
  destruct (Utf8.code b0 <? 128)%N eqn:E0.
  { apply N.ltb_lt in E0. apply compare_first_lt.
    change (Utf8.code "244") with 244%N. lia. }
  destruct r0 as [|b1 r1]; [discriminate|].
  destruct (Utf8.between 194 223 b0) eqn:E1.
  { apply between_bounds in E1. apply compare_first_lt.
    change (Utf8.code "244") with 244%N. lia. }
  destruct r1 as [|b2 r2]; [discriminate|].
  destruct (Utf8.between 224 239 b0) eqn:E2.
  { apply between_bounds in E2. apply compare_first_lt.
    change (Utf8.code "244") with 244%N. lia. }
  destruct r2 as [|b3 r3]; [discriminate|].
  destruct (Utf8.between 240 244 b0) eqn:E3; [|discriminate].
  apply between_bounds in E3.
  match type of Hr with (if ?c && _ && _ then _ else _) = _ =>
    destruct c eqn:C1; [|discriminate] end.
  destruct (Utf8.cont b2) eqn:C2; [|discriminate].
  destruct (Utf8.cont b3) eqn:C3; [|discriminate].
  destruct (Utf8.runes r3) as [rs3|] eqn:Er3; simpl in Hr; [|discriminate].
  injection Hr as <-. cbn [existsb] in Hf. apply orb_false_elim in Hf as [Hf _].
  unfold forbiddenRune in Hf. apply orb_false_elim in Hf as [_ Hmax].
  apply N.eqb_neq in Hmax. unfold maxUnicodeRuneValue, Utf8.MaxRune, Utf8.low6 in Hmax.
  apply between_bounds in C2, C3.
  rewrite !append_cons.
  destruct (N.eq_dec (Utf8.code b0) 244%N) as [H0|H0].
  2:{ apply compare_first_lt. change (Utf8.code "244") with 244%N. lia. }
  rewrite compare_first_eq by (rewrite H0; reflexivity).
  unfold Utf8.second4 in C1.
  rewrite H0 in C1. change (244 =? 240)%N with false in C1.
  change (244 =? 244)%N with true in C1. cbn iota in C1.
  apply between_bounds in C1.
  destruct (N.eq_dec (Utf8.code b1) 143%N) as [H1|H1].
  2:{ apply compare_first_lt. change (Utf8.code "143") with 143%N. lia. }
  rewrite compare_first_eq by (rewrite H1; reflexivity).
  destruct (N.eq_dec (Utf8.code b2) 191%N) as [H2|H2].
  2:{ apply compare_first_lt. change (Utf8.code "191") with 191%N. lia. }
  rewrite compare_first_eq by (rewrite H2; reflexivity).
  destruct (N.eq_dec (Utf8.code b3) 191%N) as [H3|H3].
  2:{ apply compare_first_lt. change (Utf8.code "191") with 191%N. lia. }
  exfalso. apply Hmax. rewrite H0, H1, H2, H3. reflexivity.
Qed.

Lemma partialKey_inv c partialKey :
  CreateCompositeKey index [c] = Ok partialKey ->
  validateCompositeKeyAttribute c = Ok tt
  /\ partialKey = String NUL (index +:+ String NUL (c +:+ String NUL EmptyString)).
Proof.
  unfold CreateCompositeKey. intros Hk.
  change (validateCompositeKeyAttribute index) with (Ok tt) in Hk.
  cbn [appendAttributes] in Hk.
  destruct (validateCompositeKeyAttribute c) as [[]|] eqn:Hc; [|discriminate].
  injection Hk as <-. split; [done|]. str_simpl. reflexivity.
Qed.

Lemma keyText_in_color_scan c id partialKey :
  CreateCompositeKey index [c] = Ok partialKey ->
  validateCompositeKeyAttribute id = Ok tt ->
  inRange partialKey (partialKey +:+ Utf8.MaxRuneString) (keyText c id) = true.
Proof.
  intros [Hc ->]%partialKey_inv Hid.
  assert (keyText c id
          = String NUL (index +:+ String NUL (c +:+ String NUL EmptyString))
            +:+ (id +:+ String NUL EmptyString)) as ->.
  { unfold keyText. str_simpl. reflexivity. }
  set (p := String NUL (index +:+ String NUL (c +:+ String NUL EmptyString))).
  unfold inRange. apply andb_true_iff. split.
  - unfold String.leb.
    assert (p = p +:+ EmptyString) as Hp.
    { clear. induction p as [|x p IH]; [done|]. rewrite append_cons. by f_equal. }
    rewrite Hp at 1. rewrite compare_prefix. by destruct (id +:+ _).
  - apply orb_true_iff. right. unfold String.ltb.
    by rewrite compare_prefix, attribute_below_MaxRune.
Qed.

Section ColorScan.

Context `{Platform}.

Implicit Types (L : Ledger) (t : TxLog) (w : gmap string (list byte)).

(** under the invariant the scan of a color yields the index entry of
    every stored asset of that color, and the entry splits into the color
    and the id *)
Lemma color_scan_reaches_asset w color partialKey id stored asset :
  IndexInvariant w ->
  CreateCompositeKey index [color] = Ok partialKey ->
  w !! id = Some stored -> json_Unmarshal stored = Ok asset -> Color asset = color ->
  KV.mk (keyText color id) [x00]
    ∈ rangeScan w partialKey (partialKey +:+ Utf8.MaxRuneString)
  /\ SplitCompositeKey (keyText color id) = Ok (index, [color; id]).
Proof.
  intros Hinv Hpk Hw Hu Hc.
  pose proof (IndexInvariant_record_simple _ _ _ _ Hinv Hw Hu) as Hsimple.
  destruct (asset_indexed w Hinv _ _ Hw Hsimple) as (a & ck & Hu' & _ & Hck & Hwck).
  assert (a = asset) as -> by congruence. rewrite Hc in Hck.
  destruct (indexKey_inv _ _ _ Hck) as (Hvc & Hvi & ->). split.
  - apply elem_of_rangeScan. cbn [KV.Key KV.Value]. split; [done|].
    by apply keyText_in_color_scan.
  - apply SplitCompositeKey_keyText; by apply validate_nulFree.
Qed.

Lemma IndexInvariant_correspondence w c id ck :
  IndexInvariant w -> indexKey c id = Ok ck ->
  is_Some (w !! ck)
  <-> exists stored asset,
        w !! id = Some stored /\ json_Unmarshal stored = Ok asset /\ Color asset = c.
Proof.
  intros Hinv Hck. split.
  - intros [v Hv].
    destruct (index_backed w Hinv ck v Hv (indexKey_startsWithNul _ _ _ Hck))
      as (_ & c' & id' & old & a & Hk & Hw & Hu & Hc).
    destruct (indexKey_inj _ _ _ _ _ Hk Hck) as [-> ->]. by exists old, a.
  - intros (stored & asset & Hw & Hu & Hc).
    destruct (asset_indexed w Hinv _ _ Hw (indexKey_simple_id _ _ _ Hck))
      as (a & ck' & Hu' & _ & Hck' & Hwck).
    assert (a = asset) as -> by congruence. rewrite Hc, Hck in Hck'.
    injection Hck' as <-. by eexists.
Qed.

End ColorScan.

(** ** Transfer by color, the claim *)

Section TransferClaim.

Context `{Platform}.

Implicit Types (L : Ledger) (t : TxLog).

(** The bytes a successful [TransferAssetByColor] leaves under each id that
    the scan of the index prefix of the color names: the encoding of the
    record read in which only the owner has been replaced; on a ledger that
    meets the index invariant these are all the stored assets of the color;
    and every key of the composite-key namespace, so every index entry, is
    as it was.  A failure on one entry ends the whole operation with that
    entry's error, and the error of an entry is the read error (as
    [ReadAsset] reports it), the decoder's error, or the write error
    (prefixed with the id of the asset). *)
Lemma TransferAssetByColor_bytes L color newOwner :
  (forall t',
     TransferAssetByColor color newOwner L emptyLog = (Ok tt, t') ->
     exists partialKey,
       CreateCompositeKey index [color] = Ok partialKey
       /\ (forall kv objectType c id rest,
             kv ∈ rangeScan (world L) partialKey (partialKey +:+ Utf8.MaxRuneString) ->
             SplitCompositeKey (KV.Key kv) = Ok (objectType, c :: id :: rest) ->
             exists stored asset b,
               world L !! id = Some stored /\ json_Unmarshal stored = Ok asset
               /\ json_Marshal (mkAsset (DocType asset) (ID asset) (Color asset)
                                        (Size asset) newOwner (AppraisedValue asset))
                  = Ok b
               /\ committed L t' !! id = Some b)
       /\ (IndexInvariant (world L) ->
           forall id stored asset,
             world L !! id = Some stored -> json_Unmarshal stored = Ok asset ->
             Color asset = color ->
             exists b,
               json_Marshal (mkAsset (DocType asset) (ID asset) (Color asset)
                                     (Size asset) newOwner (AppraisedValue asset))
               = Ok b
               /\ committed L t' !! id = Some b)
       /\ (forall k, startsWithNul k = true -> committed L t' !! k = world L !! k))
  /\ (forall partialKey pre kv post t1 e t2,
        CreateCompositeKey index [color] = Ok partialKey ->
        fault L (CallGetStateByRange partialKey (partialKey +:+ Utf8.MaxRuneString)) = None ->
        iterate L (CallGetStateByRange partialKey (partialKey +:+ Utf8.MaxRuneString))
                (rangeScan (world L) partialKey (partialKey +:+ Utf8.MaxRuneString))
        = pre ++ Ok kv :: post ->
        transferLoop newOwner pre L
          (logCall (CallGetStateByRange partialKey (partialKey +:+ Utf8.MaxRuneString)) emptyLog)
        = (Ok tt, t1) ->
        transferEntry newOwner kv L t1 = (Err e, t2) ->
        TransferAssetByColor color newOwner L emptyLog = (Err e, t2))
  /\ (forall t kv objectType c id rest,
        SplitCompositeKey (KV.Key kv) = Ok (objectType, c :: id :: rest) ->
        (forall e, fault L (CallGetState id) = Some e ->
           fst (transferEntry newOwner kv L t)
           = Err ("failed to get asset " +:+ id +:+ ": " +:+ e))
        /\ (forall stored e,
              fault L (CallGetState id) = None -> world L !! id = Some stored ->
              json_Unmarshal stored = Err e ->
              fst (transferEntry newOwner kv L t) = Err e)
        /\ (forall stored asset b e,
              fault L (CallGetState id) = None -> world L !! id = Some stored ->
              json_Unmarshal stored = Ok asset ->
              json_Marshal (setOwner asset newOwner) = Ok b ->
              id <> EmptyString ->
              fault L (CallPutState id b) = Some e ->
              fst (transferEntry newOwner kv L t)
              = Err ("transfer failed for asset " +:+ id +:+ ": " +:+ e))).
Proof.
  split; [|split].
  - intros t' Hrun.
    unfold TransferAssetByColor, GetStateByPartialCompositeKey, handleGetStateByRange,
      bind, liftR, ask in Hrun.
    destruct (CreateCompositeKey index [color]) as [partialKey|] eqn:Hpk; [|discriminate].
    destruct (fault L _) eqn:Hf; [discriminate|].
    apply transferLoop_Ok in Hrun as (kvs & ws & Hit & Hws & Hall & Hin).
    apply iterate_all_Ok in Hit as ->. cbn [wset logCall app] in Hws.
    exists partialKey. split; [done|]. unfold committed. rewrite Hws.
    assert (forall kv objectType c id rest,
              kv ∈ rangeScan (world L) partialKey (partialKey +:+ Utf8.MaxRuneString) ->
              SplitCompositeKey (KV.Key kv) = Ok (objectType, c :: id :: rest) ->
              exists stored asset b,
                world L !! id = Some stored /\ json_Unmarshal stored = Ok asset
                /\ json_Marshal (setOwner asset newOwner) = Ok b
                /\ applyWrites (world L) ws !! id = Some b) as Hentries.
    { intros kv objectType c id rest Hkv Hs.
      destruct (Hin _ _ _ _ _ Hkv Hs) as [b Hb].
      pose proof (proj1 (Forall_forall _ _) Hall _ Hb)
        as (? & stored & asset & ? & [= <- <-] & _ & _ & Hw & Hu & Hm).
      exists stored, asset, b. repeat split; try done.
      by eapply applyWrites_rewritten. }
    split; [exact Hentries|]. split.
    + intros Hinv id stored asset Hw Hu Hc.
      destruct (color_scan_reaches_asset _ _ _ _ _ _ Hinv Hpk Hw Hu Hc) as [Hkv Hs].
      destruct (Hentries _ _ _ _ _ Hkv Hs) as (stored' & asset' & b & Hw' & Hu' & Hm & Hb).
      assert (stored' = stored) as -> by congruence.
      assert (asset' = asset) as -> by congruence.
      by exists b.
    + intros k Hk. apply applyWrites_untouched.
      eapply Forall_impl; [exact Hall|]. intros w Hw.
      destruct (rewriteOf_put _ _ _ Hw) as (id & b & -> & _ & Hn). cbn.
      intros ->. apply nulFree_startsWithNul in Hn. congruence.
  - intros partialKey pre kv post t1 e t2 Hpk Hf Hit Hpre Hfail.
    unfold TransferAssetByColor, GetStateByPartialCompositeKey, handleGetStateByRange,
      bind, liftR, ask.
    rewrite Hpk, Hf, Hit. by eapply transferLoop_stops.
  - intros t kv objectType c id rest Hs. by eapply transferEntry_errors.
Qed.

End TransferClaim.

Section TransferClaimDecoded.

Context `{Platform} `{!ValidDecoder}.

Implicit Types (L : Ledger) (t : TxLog).


End TransferClaimDecoded.


(** C8 as stated fails for a new owner that is not valid UTF-8: on the
    seeded ledger the transfer of the blue assets to the one byte 0xFF
    succeeds, and asset1, the blue asset, is stored and read after the commit
    with the owner U+FFFD, which the encoder wrote for the byte, not with
    the new owner. *)
Lemma TransferAssetByColor_invalid_owner_not_stored :
  let newOwner := String "255" EmptyString in
  let t' := snd (TransferAssetByColor "blue" newOwner ledgerSeeded emptyLog) in
  let L' := Reference.ledger (committed ledgerSeeded t') in
  fst (ReadAsset "asset1" ledgerSeeded emptyLog)
  = Ok (mkAsset "asset" "asset1" "blue" 5 "Tomoko" 300)
  /\ fst (TransferAssetByColor "blue" newOwner ledgerSeeded emptyLog) = Ok tt
  /\ fst (ReadAsset "asset1" L' emptyLog)
     = Ok (mkAsset "asset" "asset1" "blue" 5 (Utf8.replaced EmptyString) 300)
  /\ fst (ReadAsset "asset1" L' emptyLog)
     <> Ok (mkAsset "asset" "asset1" "blue" 5 newOwner 300).
Proof.
  intros newOwner t' L'.
  assert (fst (ReadAsset "asset1" L' emptyLog)
          = Ok (mkAsset "asset" "asset1" "blue" 5 (Utf8.replaced EmptyString) 300)) as Hread
    by (by vm_compute).
  split; [by vm_compute|]. split; [by vm_compute|]. split; [exact Hread|].
  rewrite Hread. intros Heq. discriminate Heq.
Qed.

(** ** The server configuration (main.go) *)

Section ServerProperties.

Import Server.

Lemma ParseBool_true value :
  ParseBool value = Ok true <-> value ∈ trueSpellings.
Proof.
  unfold ParseBool, trueSpellings.
  destruct (existsb (String.eqb value) ["1"; "t"; "T"; "true"; "TRUE"; "True"]) eqn:E.
  - split; [intros _|done].
    apply existsb_exists in E as (x & Hx & Heq). apply String.eqb_eq in Heq. subst x.
    by apply list_elem_of_In.
  - split.
    + by destruct (existsb (String.eqb value) ["0"; "f"; "F"; "false"; "FALSE"; "False"]).
    + intros Hin. apply list_elem_of_In in Hin.
      assert (existsb (String.eqb value) ["1"; "t"; "T"; "true"; "TRUE"; "True"] = true) as E'.
      { apply existsb_exists. exists value. split; [done|apply String.eqb_refl]. }
      congruence.
Qed.

Lemma getBoolOrDefault_false_default value :
  getBoolOrDefault value false = true <-> value ∈ trueSpellings.
Proof.
  rewrite <- ParseBool_true. unfold getBoolOrDefault.
  destruct (ParseBool value) as [[]|e]; split; congruence.
Qed.

Lemma tlsDisabled_switchedOff h :
  getBoolOrDefault (getEnvOrDefault h "CHAINCODE_TLS_DISABLED" "true") false = true
  <-> switchedOff h.
Proof.
  rewrite getBoolOrDefault_false_default. unfold switchedOff, getEnvOrDefault.
  destruct (LookupEnv h _); [done|]. split; [done|intros _].
  unfold trueSpellings. set_solver.
Qed.

Lemma getTLSProperties_Ok h p :
  getTLSProperties h = Ok p ->
  Disabled p = getBoolOrDefault (getEnvOrDefault h "CHAINCODE_TLS_DISABLED" "true") false
  /\ (Disabled p = false ->
      readCrypto h (getEnvOrDefault h "CHAINCODE_TLS_KEY" "") = Ok (Key p)
      /\ readCrypto h (getEnvOrDefault h "CHAINCODE_TLS_CERT" "") = Ok (Cert p))
  /\ (Disabled p = true -> Key p = nil_slice /\ Cert p = nil_slice)
  /\ (if negb (String.eqb (getEnvOrDefault h "CHAINCODE_CLIENT_CA_CERT" "") "")
      then readCrypto h (getEnvOrDefault h "CHAINCODE_CLIENT_CA_CERT" "") = Ok (ClientCACerts p)
      else ClientCACerts p = nil_slice).
Proof.
  unfold getTLSProperties.
  destruct (getBoolOrDefault _ false) eqn:Hd; cbn [negb bindR].
  - destruct (negb (String.eqb _ "")) eqn:Hca; cbn [bindR].
    + destruct (readCrypto h (getEnvOrDefault h "CHAINCODE_CLIENT_CA_CERT" "")) as [ca|e] eqn:Hr;
        cbn [bindR]; [|done].
      intros [= <-]. by cbn.
    + intros [= <-]. by cbn.
  - destruct (readCrypto h (getEnvOrDefault h "CHAINCODE_TLS_KEY" "")) as [kb|e] eqn:Hk;
      cbn [bindR]; [|done].
    destruct (readCrypto h (getEnvOrDefault h "CHAINCODE_TLS_CERT" "")) as [cb|e] eqn:Hc;
      cbn [bindR]; [|done].
    destruct (negb (String.eqb _ "")) eqn:Hca; cbn [bindR].
    + destruct (readCrypto h (getEnvOrDefault h "CHAINCODE_CLIENT_CA_CERT" "")) as [ca|e] eqn:Hr;
        cbn [bindR]; [|done].
      intros [= <-]. by cbn.
    + intros [= <-]. by cbn.
Qed.

Lemma readCrypto_Ok h name s :
  readCrypto h name = Ok s -> exists data, ReadFile h name = Ok data /\ s = Some data.
Proof.
  unfold readCrypto. destruct (ReadFile h name) as [data|e]; [|done].
  intros [= <-]. by exists data.
Qed.

(** X1: TLS is off exactly when the switch variable is unset or holds one of
    the six spellings of true; every other value, the empty text and text
    that is no boolean included, turns TLS on. *)
Theorem getTLSProperties_Disabled h p :
  getTLSProperties h = Ok p ->
  Disabled p = true
  <-> match LookupEnv h "CHAINCODE_TLS_DISABLED" with
      | None => True
      | Some value => value ∈ ["1"; "t"; "T"; "true"; "TRUE"; "True"]
      end.
Proof.
  intros (Hd & _)%getTLSProperties_Ok. rewrite Hd. apply tlsDisabled_switchedOff.
Qed.

Lemma getTLSProperties_Disabled_witness :
  Disabled (mkTLSProperties false (Some [x6b]) (Some [x63]) nil_slice) = true
  <-> match LookupEnv hostYes "CHAINCODE_TLS_DISABLED" with
      | None => True
      | Some value => value ∈ ["1"; "t"; "T"; "true"; "TRUE"; "True"]
      end.
Proof. apply (getTLSProperties_Disabled hostYes). vm_compute. reflexivity. Defined.

(** X2: with TLS switched off and no client CA certificate named, the
    properties are the disabled ones with nil key, certificate and CA, and
    no file is read: the answer is the same whatever the files are and
    whatever the key and certificate variables hold. *)
Theorem getTLSProperties_off_reads_no_file h :
  switchedOff h ->
  getEnvOrDefault h "CHAINCODE_CLIENT_CA_CERT" "" = "" ->
  getTLSProperties h = Ok (mkTLSProperties true nil_slice nil_slice nil_slice)
  /\ forall files,
       getTLSProperties (mkHost (environ h) files) = getTLSProperties h.
Proof.
  intros Hoff Hca.
  assert (forall files, getTLSProperties (mkHost (environ h) files)
                        = Ok (mkTLSProperties true nil_slice nil_slice nil_slice)) as Hall.
  { intros files. unfold getTLSProperties.
    assert (getBoolOrDefault
              (getEnvOrDefault (mkHost (environ h) files) "CHAINCODE_TLS_DISABLED" "true") false
            = true) as ->.
    { by apply tlsDisabled_switchedOff. }
    change (getEnvOrDefault (mkHost (environ h) files) "CHAINCODE_CLIENT_CA_CERT" "")
      with (getEnvOrDefault h "CHAINCODE_CLIENT_CA_CERT" "").
    by rewrite Hca. }
  assert (getTLSProperties h = getTLSProperties (mkHost (environ h) (ReadFile h))) as Hh
    by by destruct h.
  split; [by rewrite Hh, Hall|].
  intros files. by rewrite Hh, !Hall.
Qed.

Lemma getTLSProperties_off_reads_no_file_witness :
  getTLSProperties bare = Ok (mkTLSProperties true nil_slice nil_slice nil_slice)
  /\ forall files,
       getTLSProperties (mkHost (environ bare) files) = getTLSProperties bare.
Proof. apply (getTLSProperties_off_reads_no_file bare); by vm_compute. Defined.

(** X3: with TLS switched on, the properties hold the bytes of the key file
    and of the certificate file; when the key file, or else the certificate
    file, cannot be read the server panics with the error of the read. *)
Theorem getTLSProperties_on_needs_key_and_cert h :
  ~ switchedOff h ->
  let key := getEnvOrDefault h "CHAINCODE_TLS_KEY" "" in
  let cert := getEnvOrDefault h "CHAINCODE_TLS_CERT" "" in
  (forall p, getTLSProperties h = Ok p ->
     Disabled p = false
     /\ exists keyBytes certBytes,
          ReadFile h key = Ok keyBytes /\ Key p = Some keyBytes
          /\ ReadFile h cert = Ok certBytes /\ Cert p = Some certBytes)
  /\ (forall e, ReadFile h key = Err e ->
        getTLSProperties h = Err ("error while reading the crypto file: " +:+ e))
  /\ (forall keyBytes e, ReadFile h key = Ok keyBytes -> ReadFile h cert = Err e ->
        getTLSProperties h = Err ("error while reading the crypto file: " +:+ e)).
Proof.
  intros Hon key cert.
  assert (getBoolOrDefault (getEnvOrDefault h "CHAINCODE_TLS_DISABLED" "true") false = false)
    as Hd.
  { destruct (getBoolOrDefault _ false) eqn:E; [|done].
    by apply tlsDisabled_switchedOff in E. }
  split; [|split].
  - intros p Hp. apply getTLSProperties_Ok in Hp as (Hdp & Hkc & _).
    rewrite Hd in Hdp. split; [done|].
    destruct (Hkc Hdp) as [(kb & Hk & Hkp)%readCrypto_Ok (cb & Hc & Hcp)%readCrypto_Ok].
    by exists kb, cb.
  - intros e He. unfold getTLSProperties. rewrite Hd. cbn [negb].
    unfold readCrypto at 1. fold key. by rewrite He.
  - intros kb e Hk He. unfold getTLSProperties. rewrite Hd. cbn [negb].
    unfold readCrypto at 1. fold key. rewrite Hk. cbn [bindR].
    unfold readCrypto at 1. fold cert. by rewrite He.
Qed.

Lemma getTLSProperties_on_needs_key_and_cert_witness :
  getTLSProperties hostYes
  = Ok (mkTLSProperties false (Some [x6b]) (Some [x63]) nil_slice)
  /\ (forall p, getTLSProperties hostYes = Ok p ->
        Disabled p = false
        /\ exists keyBytes certBytes,
             ReadFile hostYes "/tls/key.pem" = Ok keyBytes /\ Key p = Some keyBytes
             /\ ReadFile hostYes "/tls/cert.pem" = Ok certBytes /\ Cert p = Some certBytes).
Proof.
  split; [by vm_compute|].
  refine (proj1 (getTLSProperties_on_needs_key_and_cert hostYes _)).
  intros Hoff. apply tlsDisabled_switchedOff in Hoff. vm_compute in Hoff. discriminate.
Defined.

(** X4: a client CA certificate that is named is read whether TLS is on or
    off: the properties hold its bytes, and the server panics when the file
    cannot be read. *)
Theorem getTLSProperties_client_CA h path :
  LookupEnv h "CHAINCODE_CLIENT_CA_CERT" = Some path ->
  path <> "" ->
  (forall p, getTLSProperties h = Ok p ->
     exists data, ReadFile h path = Ok data /\ ClientCACerts p = Some data)
  /\ (forall e, ReadFile h path = Err e -> is_Ok (getTLSProperties h) = false).
Proof.
  intros Hpath Hne.
  assert (getEnvOrDefault h "CHAINCODE_CLIENT_CA_CERT" "" = path) as Hca.
  { unfold getEnvOrDefault. by rewrite Hpath. }
  assert (negb (String.eqb path "") = true) as Hnb.
  { destruct (String.eqb path "") eqn:E; [|done]. by apply String.eqb_eq in E. }
  split.
  - intros p Hp. apply getTLSProperties_Ok in Hp as (_ & _ & _ & Hc).
    rewrite Hca, Hnb in Hc. by apply readCrypto_Ok in Hc.
  - intros e He. destruct (getTLSProperties h) as [p|e'] eqn:Hp; [|done].
    apply getTLSProperties_Ok in Hp as (_ & _ & _ & Hc).
    rewrite Hca, Hnb in Hc. apply readCrypto_Ok in Hc as (data & Hr & _). congruence.
Qed.

Lemma getTLSProperties_client_CA_witness :
  is_Ok (getTLSProperties hostCA) = false.
Proof.
  refine (proj2 (getTLSProperties_client_CA hostCA "/tls/ca.pem" _ _) _ _); by vm_compute.
Defined.

End ServerProperties.

(** ** Query results and pages *)

Section QueryResults.

Context `{Platform}.

Lemma constructLoop_Ok it :
  forall acc r,
    constructLoop it acc = Ok r ->
    exists assets, Forall2 decodes it assets /\ r = foldl append acc assets.
Proof.
  induction it as [|next rest IH]; intros acc r Hr.
  - injection Hr as <-. by exists [].
  - cbn [constructLoop] in Hr. destruct next as [kv|e]; [|done]. cbn [bindR] in Hr.
    destruct (json_Unmarshal (KV.Value kv)) as [a|e] eqn:Ha; [|done]. cbn [bindR] in Hr.
    destruct (IH _ _ Hr) as (assets & Hall & ->).
    exists (a :: assets). split; [|done]. constructor; [by exists kv|done].
Qed.

Lemma constructLoop_decodes it assets :
  Forall2 decodes it assets ->
  forall acc, constructLoop it acc = Ok (foldl append acc assets).
Proof.
  induction 1 as [|next a rest assets (kv & -> & Ha) _ IH]; intros acc; [done|].
  cbn [constructLoop bindR]. rewrite Ha. cbn [bindR foldl]. apply IH.
Qed.

Lemma constructLoop_Err pre assets bad post e :
  Forall2 decodes pre assets ->
  bad = Err e \/ (exists kv, bad = Ok kv /\ json_Unmarshal (KV.Value kv) = Err e) ->
  forall acc, constructLoop (pre ++ bad :: post) acc = Err e.
Proof.
  intros Hpre Hbad. induction Hpre as [|next a rest assets' (kv & -> & Ha) _ IH]; intros acc.
  - cbn [app constructLoop]. destruct Hbad as [->|(kv & -> & Hkv)]; [done|].
    cbn [bindR]. by rewrite Hkv.
  - cbn [app constructLoop bindR]. rewrite Ha. cbn [bindR]. apply IH.
Qed.

Lemma foldl_append_nil {A} (xs : list A) :
  foldl append nil_slice xs = nil_slice <-> xs = [].
Proof.
  split; [|by intros ->].
  destruct xs as [|x xs]; [done|]. cbn [foldl append nil_slice].
  intros Hx. assert (elems (foldl append (Some [x]) xs) = elems (@nil_slice A)) as He
    by by rewrite Hx.
  rewrite elems_foldl_append in He. done.
Qed.

Lemma len_elems {A} (s : slice A) : len s = length (elems s).
Proof. by destruct s. Qed.

Lemma constructQueryResponse_Ok resultsIterator assets :
  constructQueryResponseFromIterator resultsIterator = Ok assets ->
  Forall2 decodes resultsIterator (elems assets)
  /\ len assets = length resultsIterator
  /\ (assets = nil_slice <-> resultsIterator = []).
Proof.
  intros (records & Hall & ->)%constructLoop_Ok.
  rewrite len_elems, elems_foldl_append. cbn [elems nil_slice app].
  split; [done|]. split; [symmetry; by eapply Forall2_length|].
  rewrite foldl_append_nil. split; [intros ->|intros ->].
  - by apply Forall2_nil_inv_r in Hall.
  - by apply Forall2_nil_inv_l in Hall.
Qed.

Lemma constructQueryResponse_decodes resultsIterator records :
  Forall2 decodes resultsIterator records ->
  exists assets,
    constructQueryResponseFromIterator resultsIterator = Ok assets
    /\ elems assets = records.
Proof.
  intros Hall. eexists. split; [by apply constructLoop_decodes|].
  by rewrite elems_foldl_append.
Qed.

Lemma constructQueryResponse_Err pre records bad post e :
  Forall2 decodes pre records ->
  bad = Err e \/ (exists kv, bad = Ok kv /\ json_Unmarshal (KV.Value kv) = Err e) ->
  constructQueryResponseFromIterator (pre ++ bad :: post) = Err e.
Proof. intros Hpre Hbad. by eapply constructLoop_Err. Qed.

(** X5: when [constructQueryResponseFromIterator] succeeds, the slice holds
    one record for every entry of the iterator, in the order of the
    iterator, each the decoding of the value of its entry; the slice is nil
    exactly when the iterator is empty.  It succeeds on every iterator whose
    entries all decode, and on any other it returns the error of the first
    entry that fails, with no record at all. *)
Theorem constructQueryResponseFromIterator_decodes resultsIterator :
  (forall assets,
     constructQueryResponseFromIterator resultsIterator = Ok assets ->
     Forall2 decodes resultsIterator (elems assets)
     /\ len assets = length resultsIterator
     /\ (assets = nil_slice <-> resultsIterator = []))
  /\ (forall records,
        Forall2 decodes resultsIterator records ->
        exists assets,
          constructQueryResponseFromIterator resultsIterator = Ok assets
          /\ elems assets = records)
  /\ (forall pre records bad post e,
        resultsIterator = pre ++ bad :: post ->
        Forall2 decodes pre records ->
        bad = Err e \/ (exists kv, bad = Ok kv /\ json_Unmarshal (KV.Value kv) = Err e) ->
        constructQueryResponseFromIterator resultsIterator = Err e).
Proof.
  split; [|split].
  - apply constructQueryResponse_Ok.
  - apply constructQueryResponse_decodes.
  - intros pre records bad post e ->. apply constructQueryResponse_Err.
Qed.

End QueryResults.

Lemma constructQueryResponseFromIterator_decodes_witness :
  let a1 := mkAsset "asset" "asset1" "blue" 5 "Tomoko" 300 in
  let a2 := mkAsset "asset" "asset2" "red" 5 "Brad" 400 in
  exists assets,
    constructQueryResponseFromIterator
      [Ok (KV.mk "asset1" (referenceBytes a1)); Ok (KV.mk "asset2" (referenceBytes a2))]
    = Ok assets
    /\ elems assets = [a1; a2].
Proof.
  intros a1 a2.
  apply (proj1 (proj2 (constructQueryResponseFromIterator_decodes
                         [Ok (KV.mk "asset1" (referenceBytes a1));
                          Ok (KV.mk "asset2" (referenceBytes a2))]))).
  repeat constructor; eexists; (split; [reflexivity|by vm_compute]).
Defined.

(** ** Paginated queries *)

Lemma int32_range n : (-2147483648 <= int32 n < 2147483648)%Z.
Proof. unfold int32. pose proof (Z.mod_pos_bound (n + 2147483648) 4294967296). lia. Qed.

Lemma int32_congruent n k : int32 (n + k * 4294967296) = int32 n.
Proof.
  unfold int32. replace (n + k * 4294967296 + 2147483648)%Z
    with (n + 2147483648 + k * 4294967296)%Z by lia.
  by rewrite Z.mod_add.
Qed.

Lemma int32_small n : (-2147483648 <= n < 2147483648)%Z -> int32 n = n.
Proof. intros Hn. unfold int32. rewrite Z.mod_small; lia. Qed.

Section Pages.

Context `{Platform}.

Variable peer : Pager.

(** X6: the page size reaches the peer as a 32-bit number: the paginated
    methods answer a page size as they answer any other that differs from it
    by a multiple of 2^32 (4294967297 is answered as 1 is), and as they
    answer its 32-bit value, which lies between -2^31 and 2^31 - 1. *)
Theorem paginated_pageSize_wraps startKey endKey queryString pageSize k bookmark :
  GetAssetsByRangeWithPagination peer startKey endKey (pageSize + k * 4294967296) bookmark
  = GetAssetsByRangeWithPagination peer startKey endKey pageSize bookmark
  /\ QueryAssetsWithPagination peer queryString (pageSize + k * 4294967296) bookmark
     = QueryAssetsWithPagination peer queryString pageSize bookmark
  /\ GetAssetsByRangeWithPagination peer startKey endKey (int32 pageSize) bookmark
     = GetAssetsByRangeWithPagination peer startKey endKey pageSize bookmark
  /\ QueryAssetsWithPagination peer queryString (int32 pageSize) bookmark
     = QueryAssetsWithPagination peer queryString pageSize bookmark
  /\ (-2147483648 <= int32 pageSize < 2147483648)%Z.
Proof.
  unfold GetAssetsByRangeWithPagination, QueryAssetsWithPagination.
  rewrite int32_congruent, (int32_small (int32 pageSize)) by apply int32_range.
  repeat split; apply int32_range.
Qed.

Lemma page_result it md :
  (forall r,
     (assets <-? constructQueryResponseFromIterator it ;;
      Ok (mkPaginatedQueryResult assets
            (QueryResponseMetadata.FetchedRecordsCount md)
            (QueryResponseMetadata.Bookmark md))) = Ok r ->
     pageOf it md r)
  /\ (forall records,
        Forall2 decodes it records ->
        exists r,
          (assets <-? constructQueryResponseFromIterator it ;;
           Ok (mkPaginatedQueryResult assets
                 (QueryResponseMetadata.FetchedRecordsCount md)
                 (QueryResponseMetadata.Bookmark md))) = Ok r
          /\ elems (Records r) = records)
  /\ (forall pre records bad post e,
        it = pre ++ bad :: post ->
        Forall2 decodes pre records ->
        bad = Err e \/ (exists kv, bad = Ok kv /\ json_Unmarshal (KV.Value kv) = Err e) ->
        (assets <-? constructQueryResponseFromIterator it ;;
         Ok (mkPaginatedQueryResult assets
               (QueryResponseMetadata.FetchedRecordsCount md)
               (QueryResponseMetadata.Bookmark md))) = Err e).
Proof.
  split; [|split].
  - intros r Hr. destruct (constructQueryResponseFromIterator it) as [assets|e] eqn:Hc; [|done].
    injection Hr as <-. destruct (constructQueryResponse_Ok _ _ Hc) as (Hd & _ & Hnil).
    by split.
  - intros records (assets & -> & He)%constructQueryResponse_decodes. by eexists.
  - intros pre records bad post e -> Hpre Hbad.
    by rewrite (constructQueryResponse_Err _ _ _ _ _ Hpre Hbad).
Qed.

Lemma marshalOrPanic_valid texts :
  Forall (fun x => Utf8.ValidString x = true) texts -> marshalOrPanic texts = Ok tt.
Proof.
  intros Hall. unfold marshalOrPanic.
  assert (forallb Utf8.ValidString texts = true) as ->; [|done].
  apply forallb_forall. intros x Hx%list_elem_of_In.
  by apply (proj1 (Forall_forall _ _) Hall).
Qed.

Lemma first_simple_key startKey endKey :
  startsWithNul startKey = false -> startsWithNul endKey = false ->
  Utf8.ValidString startKey = true -> Utf8.ValidString endKey = true ->
  let first := if String.eqb startKey EmptyString then emptyKeySubstitute else startKey in
  validateSimpleKeys [first; endKey] = Ok tt /\ marshalOrPanic [first; endKey] = Ok tt.
Proof.
  intros Hs He Hvs Hve first. split.
  - cbn [validateSimpleKeys]. rewrite He.
    assert (startsWithNul first = false) as ->; [|done].
    unfold first. by destruct (String.eqb startKey "").
  - apply marshalOrPanic_valid. repeat constructor; [|done].
    unfold first. by destruct (String.eqb startKey "").
Qed.



End Pages.



(** ** What the queries leave alone *)

Section ReadOnly.

Context `{Platform}.

Lemma ask_wset {A} c (answer : Ledger -> A) L t : wset (snd (ask c answer L t)) = wset t.
Proof. unfold ask. by destruct (fault L c). Qed.

Lemma bind_liftR_wset {A B} (m : Tx A) (f : A -> Result B) L t :
  wset (snd ((x <- m ;; liftR (f x)) L t)) = wset (snd (m L t)).
Proof. unfold bind, liftR. by destruct (m L t) as [[a|e] t1]. Qed.

Lemma mapErr_snd {A} f (m : Tx A) L t : snd (mapErr f m L t) = snd (m L t).
Proof. unfold mapErr. by destruct (m L t) as [[a|e] t1]. Qed.

Lemma GetStateByRange_wset startKey endKey L t :
  wset (snd (GetStateByRange startKey endKey L t)) = wset t.
Proof.
  unfold GetStateByRange, bind, liftR.
  destruct (validateSimpleKeys _); [|done]. apply ask_wset.
Qed.

(** X9: the query methods write nothing: whatever the ledger holds and
    whether its calls fail or not, the write set after [AssetExists],
    [ReadAsset], [GetAssetsByRange], [QueryAssets], [QueryAssetsByOwner] and
    [GetAssetHistory] is the write set before, so committing one of them
    leaves the state as it is. *)
Theorem queries_write_nothing L t assetID startKey endKey queryString owner :
  wset (snd (AssetExists assetID L t)) = wset t
  /\ wset (snd (ReadAsset assetID L t)) = wset t
  /\ wset (snd (GetAssetsByRange startKey endKey L t)) = wset t
  /\ wset (snd (QueryAssets queryString L t)) = wset t
  /\ wset (snd (QueryAssetsByOwner owner L t)) = wset t
  /\ wset (snd (GetAssetHistory assetID L t)) = wset t.
Proof.
  repeat split.
  - by rewrite AssetExists_run.
  - by rewrite ReadAsset_run.
  - unfold GetAssetsByRange. rewrite bind_liftR_wset. apply GetStateByRange_wset.
  - unfold QueryAssets, getQueryResultForQueryString. rewrite bind_liftR_wset. apply ask_wset.
  - unfold QueryAssetsByOwner, getQueryResultForQueryString.
    rewrite bind_liftR_wset. apply ask_wset.
  - unfold GetAssetHistory. rewrite bind_liftR_wset. apply ask_wset.
Qed.

End ReadOnly.

(** ** Creating: what is refused *)

Lemma indexKey_validated color assetID :
  indexKey color assetID
  = match validateCompositeKeyAttribute color with
    | Err e => Err e
    | Ok _ =>
      match validateCompositeKeyAttribute assetID with
      | Err e => Err e
      | Ok _ => Ok (keyText color assetID)
      end
    end.
Proof.
  unfold indexKey, CreateCompositeKey.
  change (validateCompositeKeyAttribute index) with (@Ok unit tt). cbn [appendAttributes].
  destruct (validateCompositeKeyAttribute color); [|done].
  destruct (validateCompositeKeyAttribute assetID); [|done].
  f_equal. unfold keyText, compositeKeyNamespace. str_simpl. reflexivity.
Qed.

Section Creating.

Context `{Platform}.

Lemma CreateAsset_run L t assetID color size owner appraisedValue :
  fault L (CallGetState assetID) = None ->
  world L !! assetID = None ->
  CreateAsset assetID color size owner appraisedValue L t
  = (assetBytes <- liftR (json_Marshal (mkAsset "asset" assetID color size owner
                                                appraisedValue)) ;;
     _ <- PutState assetID assetBytes ;;
     colorNameIndexKey <- liftR (indexKey color assetID) ;;
     PutState colorNameIndexKey [x00]) L (logCall (CallGetState assetID) t).
Proof.
  intros Hf Hw. unfold CreateAsset. unfold bind at 1, mapErr.
  by rewrite AssetExists_run, Hf, Hw.
Qed.

(** X10: an asset cannot be created under the empty id.  Whatever the ledger
    holds and whether its calls fail or not, [CreateAsset] with an empty id
    returns an error and adds nothing to the write set; where the ledger
    answers the probe and holds nothing under the empty key, the error is
    the refusal of the empty key by [PutState]. *)
Theorem CreateAsset_empty_id L t color size owner appraisedValue :
  is_Ok (fst (CreateAsset "" color size owner appraisedValue L t)) = false
  /\ wset (snd (CreateAsset "" color size owner appraisedValue L t)) = wset t
  /\ (fault L (CallGetState "") = None -> world L !! "" = None ->
      CreateAsset "" color size owner appraisedValue L t
      = (Err "key must not be an empty string", logCall (CallGetState "") t)).
Proof.
  assert (fault L (CallGetState "") = None -> world L !! "" = None ->
          CreateAsset "" color size owner appraisedValue L t
          = (Err "key must not be an empty string", logCall (CallGetState "") t)) as Hrun.
  { intros Hf Hw. rewrite CreateAsset_run by done.
    destruct (json_Marshal_total (mkAsset "asset" "" color size owner appraisedValue))
      as [b Hb].
    unfold bind, liftR. by rewrite Hb. }
  assert (exists e t1, CreateAsset "" color size owner appraisedValue L t = (Err e, t1)
                       /\ wset t1 = wset t) as (e & t1 & Hc & Hws).
  { destruct (fault L (CallGetState "")) as [e|] eqn:Hf.
    { eexists _, _. split; [|shelve].
      unfold CreateAsset. unfold bind at 1, mapErr. by rewrite AssetExists_run, Hf.
      Unshelve. done. }
    destruct (world L !! "") as [stored|] eqn:Hw.
    { eexists _, _. split; [|shelve].
      unfold CreateAsset. unfold bind at 1, mapErr. by rewrite AssetExists_run, Hf, Hw.
      Unshelve. done. }
    eexists _, _. split; [by apply Hrun|done]. }
  rewrite Hc. split; [done|]. split; [done|].
  intros Hf Hw. rewrite <- Hc. by apply Hrun.
Qed.


End Creating.


(** ** Index entries are not assets *)

Section IndexEntries.

Context `{Platform}.

Lemma committed_create L t' assetID color size owner appraisedValue :
  CreateAsset assetID color size owner appraisedValue L emptyLog = (Ok tt, t') ->
  exists assetBytes ck,
    json_Marshal (mkAsset "asset" assetID color size owner appraisedValue) = Ok assetBytes
    /\ indexKey color assetID = Ok ck
    /\ world L !! assetID = None
    /\ committed L t' = <[ck := [x00]]> (<[assetID := assetBytes]> (world L)).
Proof.
  intros (b & ck & _ & Hw & Hb & _ & _ & Hk & _ & ->)%CreateAsset_Ok.
  exists b, ck. repeat split; try done.
  unfold committed. cbn [wset emptyLog app].
  apply applyWrites_create. by eapply json_Marshal_nonempty.
Qed.

(** X12: the index entry of an asset is visible to [AssetExists] but is no
    asset.  Once a creation is committed, on the key of the index entry
    [AssetExists] answers true, [ReadAsset], [TransferAsset] and
    [DeleteAsset] return the error of decoding the marker byte and write
    nothing, and [CreateAsset] under that key as id is refused as a
    conflict. *)
Theorem index_entry_is_no_asset L t' L' assetID color size owner appraisedValue ck :
  CreateAsset assetID color size owner appraisedValue L emptyLog = (Ok tt, t') ->
  world L' = committed L t' ->
  indexKey color assetID = Ok ck ->
  fault L' (CallGetState ck) = None ->
  fst (AssetExists ck L' emptyLog) = Ok true
  /\ (exists e,
        json_Unmarshal [x00] = Err e
        /\ ReadAsset ck L' emptyLog = (Err e, mkTxLog [CallGetState ck] [])
        /\ (forall newOwner,
              TransferAsset ck newOwner L' emptyLog = (Err e, mkTxLog [CallGetState ck] []))
        /\ DeleteAsset ck L' emptyLog = (Err e, mkTxLog [CallGetState ck] []))
  /\ (forall color' size' owner' appraisedValue',
        CreateAsset ck color' size' owner' appraisedValue' L' emptyLog
        = (Err ("asset already exists: " +:+ ck), mkTxLog [CallGetState ck] [])).
Proof.
  intros (b & ck' & _ & Hk' & _ & Hc)%committed_create Hw Hk Hf.
  assert (ck' = ck) as -> by congruence.
  assert (world L' !! ck = Some [x00]) as Hck.
  { by rewrite Hw, Hc, lookup_insert_eq. }
  destruct (json_Unmarshal [x00]) as [a|e] eqn:Hu.
  { by apply marker_not_a_record in Hu. }
  assert (ReadAsset ck L' emptyLog = (Err e, mkTxLog [CallGetState ck] [])) as Hread.
  { by rewrite ReadAsset_run, Hf, Hck, Hu. }
  split; [by rewrite AssetExists_run, Hf, Hck|]. split.
  - exists e. repeat split; try done.
    + intros newOwner. unfold TransferAsset. unfold bind at 1. by rewrite Hread.
    + unfold DeleteAsset. unfold bind at 1. by rewrite Hread.
  - intros color' size' owner' appraisedValue'.
    unfold CreateAsset. unfold bind at 1, mapErr. by rewrite AssetExists_run, Hf, Hck.
Qed.

End IndexEntries.

Lemma index_entry_is_no_asset_witness :
  let t' := snd (CreateAsset "asset1" "blue" 5 "Tomoko" 300 ledger0 emptyLog) in
  let L' := Reference.ledger (committed ledger0 t') in
  let ck := keyText "blue" "asset1" in
  fst (AssetExists ck L' emptyLog) = Ok true
  /\ is_Ok (fst (ReadAsset ck L' emptyLog)) = false.
Proof.
  intros t' L' ck.
  destruct (index_entry_is_no_asset ledger0 t' L' "asset1" "blue" 5 "Tomoko" 300 ck)
    as (Hexists & (e & _ & Hread & _) & _); try reflexivity.
  split; [exact Hexists|]. by rewrite Hread.
Defined.

(** ** Deleting *)

Section Deleting.

Context `{Platform}.

Lemma DeleteAsset_run L t assetID stored asset :
  fault L (CallGetState assetID) = None ->
  world L !! assetID = Some stored ->
  json_Unmarshal stored = Ok asset ->
  DeleteAsset assetID L t
  = (_ <- mapErr (fun e => "failed to delete asset " +:+ assetID +:+ ": " +:+ e)
                 (DelState assetID) ;;
     colorNameIndexKey <- liftR (indexKey (Color asset) (ID asset)) ;;
     DelState colorNameIndexKey) L (logCall (CallGetState assetID) t).
Proof.
  intros Hf Hw Hu. unfold DeleteAsset. unfold bind at 1.
  by rewrite ReadAsset_run, Hf, Hw, Hu.
Qed.

(** X13: when [DeleteAsset] succeeds, its writes are the deletion of the id
    and the deletion of the index entry of the color and id that the stored
    record holds.  Once they are committed [AssetExists] answers false on
    the id, [ReadAsset] reports that the asset does not exist, the index
    entry is gone, and every other key holds what it held. *)
Theorem DeleteAsset_removes L t' L' assetID :
  DeleteAsset assetID L emptyLog = (Ok tt, t') ->
  world L' = committed L t' ->
  fault L' (CallGetState assetID) = None ->
  exists stored asset ck,
    world L !! assetID = Some stored
    /\ json_Unmarshal stored = Ok asset
    /\ indexKey (Color asset) (ID asset) = Ok ck
    /\ wset t' = [WDel assetID; WDel ck]
    /\ fst (AssetExists assetID L' emptyLog) = Ok false
    /\ fst (ReadAsset assetID L' emptyLog)
       = Err ("asset " +:+ assetID +:+ " does not exist")
    /\ world L' !! ck = None
    /\ (forall k, k <> assetID -> k <> ck -> world L' !! k = world L !! k).
Proof.
  intros (stored & asset & ck & Hw & Hu & Hk & Hws)%DeleteAsset_Ok HL' Hf.
  cbn [wset emptyLog app] in Hws.
  assert (world L' = delete ck (delete assetID (world L))) as Hworld.
  { rewrite HL'. unfold committed. by rewrite Hws. }
  assert (world L' !! assetID = None) as Hgone.
  { rewrite Hworld. destruct (decide (ck = assetID)) as [->|Hne].
    - by rewrite lookup_delete_eq.
    - by rewrite lookup_delete_ne, lookup_delete_eq. }
  exists stored, asset, ck. repeat split; try done.
  - by rewrite AssetExists_run, Hf, Hgone.
  - by rewrite ReadAsset_run, Hf, Hgone.
  - by rewrite Hworld, lookup_delete_eq.
  - intros k Hk1 Hk2. by rewrite Hworld, !lookup_delete_ne.
Qed.

(** X14: [DeleteAsset] undoes [CreateAsset]: when a creation is committed on
    a state that does not hold the index key of the new asset, and the
    deletion of the same id runs on the outcome without a failing call, the
    deletion succeeds and the state it commits is the state before the
    creation. *)
Theorem DeleteAsset_undoes_CreateAsset
  L t1 L1 assetID color size owner appraisedValue :
  CreateAsset assetID color size owner appraisedValue L emptyLog = (Ok tt, t1) ->
  (forall ck, indexKey color assetID = Ok ck -> world L !! ck = None) ->
  world L1 = committed L t1 ->
  (forall c, fault L1 c = None) ->
  exists t2,
    DeleteAsset assetID L1 emptyLog = (Ok tt, t2)
    /\ committed L1 t2 = world L.
Proof.
  intros (b & ck & Hb & Hk & Hw & Hc)%committed_create Hfree HL1 Hf.
  specialize (Hfree _ Hk).
  pose proof (indexKey_ne_id _ _ _ Hk) as Hne.
  destruct (indexKey_inv _ _ _ Hk) as (Hvc & Hvi & _).
  destruct (round_trip_key_fields _ _ Hb Hvi Hvc) as (a' & Hu & Hid & Hcol).
  cbn [ID Color] in Hid, Hcol.
  assert (world L1 !! assetID = Some b) as Hstored.
  { rewrite HL1, Hc, lookup_insert_ne, lookup_insert_eq; done. }
  eexists. split.
  - rewrite (DeleteAsset_run _ _ _ _ _ (Hf _) Hstored Hu), Hid, Hcol, Hk.
    unfold bind, mapErr, liftR. rewrite DelState_run, (Hf (CallDelState assetID)).
    rewrite DelState_run, (Hf (CallDelState ck)). reflexivity.
  - unfold committed. cbn [wset logWrite logCall emptyLog app applyWrites foldl applyWrite].
    rewrite HL1, Hc. apply map_eq. intros k.
    destruct (decide (k = ck)) as [->|Hk1].
    { by rewrite lookup_delete_eq, Hfree. }
    rewrite lookup_delete_ne by done.
    destruct (decide (k = assetID)) as [->|Hk2].
    { by rewrite lookup_delete_eq, Hw. }
    by rewrite lookup_delete_ne, !lookup_insert_ne.
Qed.

(** X15: how [DeleteAsset] fails.  A failing read is reported with the id;
    with nothing stored under the id the asset is reported not to exist; a
    stored value that does not decode gives the error of the decoder: in
    these cases the read is the only call and nothing is written.  When the
    deletion of the id fails, the error is wrapped with the id and nothing is
    written; when the stored color or id is no admissible attribute, or the
    deletion of the index entry fails, the error is returned as it is, after
    the deletion of the id has entered the write set. *)
Theorem DeleteAsset_errors L t assetID :
  (forall e, fault L (CallGetState assetID) = Some e ->
     DeleteAsset assetID L t
     = (Err ("failed to get asset " +:+ assetID +:+ ": " +:+ e),
        logCall (CallGetState assetID) t))
  /\ (fault L (CallGetState assetID) = None -> world L !! assetID = None ->
      DeleteAsset assetID L t
      = (Err ("asset " +:+ assetID +:+ " does not exist"), logCall (CallGetState assetID) t))
  /\ (forall stored e,
        fault L (CallGetState assetID) = None ->
        world L !! assetID = Some stored -> json_Unmarshal stored = Err e ->
        DeleteAsset assetID L t = (Err e, logCall (CallGetState assetID) t))
  /\ (forall stored asset,
        fault L (CallGetState assetID) = None ->
        world L !! assetID = Some stored -> json_Unmarshal stored = Ok asset ->
        (forall e, fault L (CallDelState assetID) = Some e ->
           fst (DeleteAsset assetID L t)
           = Err ("failed to delete asset " +:+ assetID +:+ ": " +:+ e)
           /\ wset (snd (DeleteAsset assetID L t)) = wset t)
        /\ (forall e, fault L (CallDelState assetID) = None ->
              indexKey (Color asset) (ID asset) = Err e ->
              fst (DeleteAsset assetID L t) = Err e
              /\ wset (snd (DeleteAsset assetID L t)) = wset t ++ [WDel assetID])
        /\ (forall ck e, fault L (CallDelState assetID) = None ->
              indexKey (Color asset) (ID asset) = Ok ck ->
              fault L (CallDelState ck) = Some e ->
              fst (DeleteAsset assetID L t) = Err e
              /\ wset (snd (DeleteAsset assetID L t)) = wset t ++ [WDel assetID])).
Proof.
  split; [|split; [|split]].
  - intros e Hf. unfold DeleteAsset. unfold bind at 1. by rewrite ReadAsset_run, Hf.
  - intros Hf Hw. unfold DeleteAsset. unfold bind at 1. by rewrite ReadAsset_run, Hf, Hw.
  - intros stored e Hf Hw Hu. unfold DeleteAsset. unfold bind at 1.
    by rewrite ReadAsset_run, Hf, Hw, Hu.
  - intros stored asset Hf Hw Hu.
    rewrite (DeleteAsset_run _ _ _ _ _ Hf Hw Hu).
    unfold bind, mapErr, liftR. rewrite DelState_run.
    split; [|split].
    + by intros e ->.
    + by intros e -> ->.
    + intros ck e -> ->. rewrite DelState_run. by intros ->.
Qed.

End Deleting.

Lemma DeleteAsset_removes_witness :
  let t' := snd (DeleteAsset "asset1" ledgerSeeded emptyLog) in
  let L' := Reference.ledger (committed ledgerSeeded t') in
  fst (AssetExists "asset1" L' emptyLog) = Ok false
  /\ fst (ReadAsset "asset1" L' emptyLog) = Err "asset asset1 does not exist".
Proof.
  intros t' L'.
  destruct (DeleteAsset_removes ledgerSeeded t' L' "asset1")
    as (stored & asset & ck & _ & _ & _ & _ & Hexists & Hread & _);
    [by vm_compute..|].
  by split.
Defined.

Lemma DeleteAsset_undoes_CreateAsset_witness :
  let t1 := snd (CreateAsset "asset1" "blue" 5 "Tomoko" 300 ledger0 emptyLog) in
  let L1 := Reference.ledger (committed ledger0 t1) in
  exists t2,
    DeleteAsset "asset1" L1 emptyLog = (Ok tt, t2)
    /\ committed L1 t2 = world ledger0.
Proof.
  intros t1 L1.
  apply (DeleteAsset_undoes_CreateAsset ledger0 t1 L1 "asset1" "blue" 5 "Tomoko" 300).
  - reflexivity.
  - intros ck _. apply lookup_empty.
  - reflexivity.
  - reflexivity.
Defined.

Lemma DeleteAsset_errors_witness :
  DeleteAsset "asset1" ledger0 emptyLog
  = (Err "asset asset1 does not exist", mkTxLog [CallGetState "asset1"] []).
Proof.
  apply (proj1 (proj2 (DeleteAsset_errors ledger0 emptyLog "asset1"))).
  - reflexivity.
  - apply lookup_empty.
Defined.

(** ** Reading after a transfer *)

Section Transferring.

Context `{Platform}.

Lemma toValidUTF8_idem s : toValidUTF8 (toValidUTF8 s) = toValidUTF8 s.
Proof. apply toValidUTF8_valid, toValidUTF8_ValidString. Qed.

(** X16: once a successful [TransferAsset] is committed, [ReadAsset] returns
    the record that was stored before with the new owner in place of the
    old one, every string as the encoder writes it (valid UTF-8 unchanged);
    for a new owner that is valid UTF-8 the owner read is the new owner
    itself.  A second transfer committed after the first leaves the owner of
    the second. *)
Theorem TransferAsset_then_Read L t' L' assetID newOwner :
  TransferAsset assetID newOwner L emptyLog = (Ok tt, t') ->
  world L' = committed L t' ->
  fault L' (CallGetState assetID) = None ->
  exists stored asset,
    world L !! assetID = Some stored
    /\ json_Unmarshal stored = Ok asset
    /\ fst (ReadAsset assetID L' emptyLog)
       = Ok (mkAsset (toValidUTF8 (DocType asset)) (toValidUTF8 (ID asset))
                     (toValidUTF8 (Color asset)) (Size asset)
                     (toValidUTF8 newOwner) (AppraisedValue asset))
    /\ (Utf8.ValidString newOwner = true ->
        exists asset', fst (ReadAsset assetID L' emptyLog) = Ok asset'
                       /\ Owner asset' = newOwner
                       /\ Size asset' = Size asset
                       /\ AppraisedValue asset' = AppraisedValue asset)
    /\ (forall t'' L'' newOwner',
          TransferAsset assetID newOwner' L' emptyLog = (Ok tt, t'') ->
          world L'' = committed L' t'' ->
          fault L'' (CallGetState assetID) = None ->
          fst (ReadAsset assetID L'' emptyLog)
          = Ok (mkAsset (toValidUTF8 (DocType asset)) (toValidUTF8 (ID asset))
                        (toValidUTF8 (Color asset)) (Size asset)
                        (toValidUTF8 newOwner') (AppraisedValue asset))).
Proof.
  assert (forall L t' L' assetID newOwner,
            TransferAsset assetID newOwner L emptyLog = (Ok tt, t') ->
            world L' = committed L t' ->
            fault L' (CallGetState assetID) = None ->
            exists stored asset,
              world L !! assetID = Some stored
              /\ json_Unmarshal stored = Ok asset
              /\ fst (ReadAsset assetID L' emptyLog)
                 = Ok (mkAsset (toValidUTF8 (DocType asset)) (toValidUTF8 (ID asset))
                               (toValidUTF8 (Color asset)) (Size asset)
                               (toValidUTF8 newOwner) (AppraisedValue asset))
              /\ exists b, world L' !! assetID = Some b
                           /\ json_Unmarshal b
                              = Ok (mkAsset (toValidUTF8 (DocType asset))
                                            (toValidUTF8 (ID asset))
                                            (toValidUTF8 (Color asset)) (Size asset)
                                            (toValidUTF8 newOwner) (AppraisedValue asset)))
    as Hone.
  { clear. intros L t' L' assetID newOwner
      (stored & asset & b & Hw & Hu & Hb & _ & Hws)%TransferAsset_Ok HL' Hf.
    cbn [wset emptyLog app] in Hws.
    assert (world L' !! assetID = Some b) as Hnew.
    { rewrite HL'. unfold committed. rewrite Hws. cbn [applyWrites foldl].
      rewrite applyWrite_put by by eapply json_Marshal_nonempty.
      by rewrite lookup_insert_eq. }
    pose proof (json_round_trip _ _ Hb) as Hrt. cbn in Hrt.
    exists stored, asset. repeat split; try done.
    - by rewrite ReadAsset_run, Hf, Hnew.
    - by exists b. }
  intros Hrun HL' Hf.
  destruct (Hone _ _ _ _ _ Hrun HL' Hf) as (stored & asset & Hw & Hu & Hread & b & Hb & Hub).
  exists stored, asset. repeat split; try done.
  - intros Hvalid. eexists. split; [exact Hread|]. cbn. by rewrite toValidUTF8_valid.
  - intros t'' L'' newOwner' Hrun' HL'' Hf'.
    destruct (Hone _ _ _ _ _ Hrun' HL'' Hf') as (stored' & asset' & Hw' & Hu' & Hread' & _).
    rewrite Hread'. assert (stored' = b) as -> by congruence.
    rewrite Hub in Hu'. injection Hu' as <-. cbn. by rewrite !toValidUTF8_idem.
Qed.

End Transferring.

Lemma TransferAsset_then_Read_witness :
  let t' := snd (TransferAsset "asset1" "Alice" ledgerSeeded emptyLog) in
  let L' := Reference.ledger (committed ledgerSeeded t') in
  exists asset', fst (ReadAsset "asset1" L' emptyLog) = Ok asset'
                 /\ Owner asset' = "Alice".
Proof.
  intros t' L'.
  destruct (TransferAsset_then_Read ledgerSeeded t' L' "asset1" "Alice")
    as (stored & asset & _ & _ & _ & Hvalid & _); [by vm_compute..|].
  destruct (Hvalid eq_refl) as (asset' & Hread & Howner & _).
  by exists asset'.
Defined.

(** ** Range queries *)

#[global] Instance keyLe_total : Total keyLe.
Proof. intros x y. apply String.leb_total. Qed.

Lemma leb_simple first k :
  first <> "" -> startsWithNul first = false ->
  String.leb first k = true -> startsWithNul k = false.
Proof.
  intros Hne Hs Hle. destruct first as [|a s]; [done|].
  destruct k as [|b r]; [done|]. cbn [startsWithNul] in *.
  destruct (Ascii.eqb b NUL) eqn:Hb; [|done].
  apply Ascii.eqb_eq in Hb. subst b.
  unfold String.leb in Hle.
  rewrite compare_antisym in Hle.
  rewrite (compare_first_lt NUL a r s) in Hle; [done|].
  assert (Utf8.code a <> 0%N) as Ha.
  { intros Ha. assert (a = NUL) as ->; [|done].
    rewrite <- (ascii_N_embedding a). unfold Utf8.code in Ha. by rewrite Ha. }
  change (Utf8.code NUL) with 0%N. lia.
Qed.

Lemma first_simple startKey endKey :
  let first := if String.eqb startKey EmptyString then emptyKeySubstitute else startKey in
  validateSimpleKeys [first; endKey] = Ok tt ->
  first <> "" /\ startsWithNul first = false.
Proof.
  intros first Hv. split.
  - unfold first. destruct (String.eqb startKey "") eqn:E; [done|].
    intros ->. done.
  - cbn [validateSimpleKeys] in Hv. by destruct (startsWithNul first).
Qed.

Lemma rangeScan_keys w startKey endKey :
  NoDup (KV.Key <$> rangeScan w startKey endKey)
  /\ Sorted (fun x y => String.leb x y = true) (KV.Key <$> rangeScan w startKey endKey).
Proof.
  unfold rangeScan. rewrite <- !list_fmap_compose. split.
  - change (KV.Key ∘ (fun kv : string * list byte => KV.mk kv.1 kv.2)) with (@fst string (list byte)).
    rewrite merge_sort_Permutation.
    eapply sublist_NoDup; [apply (NoDup_fst_map_to_list w)|].
    apply fmap_sublist, sublist_filter.
  - apply (Sorted_fmap _ keyLe); [by intros x y|]. apply Sorted_merge_sort, _.
Qed.

Section Ranges.

Context `{Platform}.

(** X17: a range query cannot be aimed at the index.  When the start key or
    the end key begins with U+0000, the first byte of every composite key,
    [GetAssetsByRange] returns the refusal of the stub, the error of
    [validateSimpleKeys] that names the key, without a call to the ledger,
    and [GetAssetsByRangeWithPagination] returns the same refusal whatever
    the peer would answer and whatever the page size and the bookmark are. *)
Theorem range_queries_refuse_composite_keys L t startKey endKey :
  startsWithNul startKey = true \/ startsWithNul endKey = true ->
  exists e,
    validateSimpleKeys [startKey; endKey] = Err e
    /\ GetAssetsByRange startKey endKey L t = (Err e, t)
    /\ (forall peer pageSize bookmark,
          GetAssetsByRangeWithPagination peer startKey endKey pageSize bookmark = Err e).
Proof.
  intros Hnul.
  assert (exists e,
            validateSimpleKeys [startKey; endKey] = Err e
            /\ validateSimpleKeys
                 [if String.eqb startKey "" then emptyKeySubstitute else startKey; endKey]
               = Err e) as (e & He & Hv).
  { cbn [validateSimpleKeys]. destruct startKey as [|a s].
    - destruct Hnul as [Hs|He]; [done|]. cbn. rewrite He. by eexists.
    - cbn [String.eqb]. destruct (startsWithNul (String a s)); [by eexists|].
      destruct Hnul as [Hs|He]; [done|]. rewrite He. by eexists. }
  exists e. split; [done|]. split.
  - unfold GetAssetsByRange, GetStateByRange. unfold bind, liftR. by rewrite Hv.
  - intros peer pageSize bookmark.
    unfold GetAssetsByRangeWithPagination, GetStateByRangeWithPagination. by rewrite Hv.
Qed.

(** X18: on a state that meets the index invariant a range query returns the
    assets of the range and nothing of the index: when the scan does not
    fail, [GetAssetsByRange] succeeds, a record is among the results exactly
    when it is stored under its own id and that id lies in the range, and
    the results come in increasing order of id without a repetition. *)
Theorem GetAssetsByRange_lists_assets L t startKey endKey :
  let first := if String.eqb startKey EmptyString then emptyKeySubstitute else startKey in
  IndexInvariant (world L) ->
  validateSimpleKeys [first; endKey] = Ok tt ->
  fault L (CallGetStateByRange first endKey) = None ->
  (forall n, nextFault L (CallGetStateByRange first endKey) n = None) ->
  exists assets,
    fst (GetAssetsByRange startKey endKey L t) = Ok assets
    /\ (forall a, a ∈ elems assets
                  <-> exists stored, world L !! ID a = Some stored
                                     /\ json_Unmarshal stored = Ok a
                                     /\ inRange first endKey (ID a) = true)
    /\ Sorted (fun x y => String.leb x y = true) (ID <$> elems assets)
    /\ NoDup (ID <$> elems assets).
Proof.
  intros first Hinv Hv Hf Hnf.
  destruct (first_simple startKey endKey Hv) as [Hne Hsimple]. fold first in Hne, Hsimple.
  set (scan := rangeScan (world L) first endKey).
  assert (Forall (fun kv => exists a, json_Unmarshal (KV.Value kv) = Ok a /\ ID a = KV.Key kv)
                 scan) as Hall.
  { apply Forall_forall. intros kv [Hw Hin]%elem_of_rangeScan.
    assert (startsWithNul (KV.Key kv) = false) as Hk.
    { apply (leb_simple first); [done..|]. unfold inRange in Hin.
      by apply andb_prop in Hin as [? _]. }
    destruct (asset_indexed _ Hinv _ _ Hw Hk) as (a & ck & Hu & Hid & _). by exists a. }
  apply Forall_exists_Forall2_l in Hall as [records Hrec].
  assert (fst (GetAssetsByRange startKey endKey L t)
          = constructQueryResponseFromIterator (Ok <$> scan)) as Hrun.
  { unfold GetAssetsByRange, GetStateByRange, handleGetStateByRange, bind, liftR, ask.
    fold first. rewrite Hv, Hf. cbn [fst]. by rewrite iterate_no_fault. }
  assert (Forall2 decodes (Ok <$> scan) records) as Hdec.
  { apply Forall2_fmap_l. eapply Forall2_impl; [exact Hrec|].
    intros kv a [Hu _]. by exists kv. }
  destruct (constructQueryResponse_decodes _ _ Hdec) as (assets & Hc & He).
  assert (ID <$> records = KV.Key <$> scan) as Hids.
  { clear -Hrec. induction Hrec as [|kv a scan' records' [_ Hid] _ IH]; [done|].
    cbn. by rewrite Hid, IH. }
  exists assets. rewrite Hrun, He, Hids. split; [done|].
  split; [|split; apply rangeScan_keys].
  intros a. split.
  - intros [i Hi]%list_elem_of_lookup_1.
    destruct (Forall2_lookup_r _ _ _ _ _ Hrec Hi) as (kv & Hkv & Hu & Hid).
    apply list_elem_of_lookup_2, elem_of_rangeScan in Hkv as [Hw Hin].
    rewrite Hid. by exists (KV.Value kv).
  - intros (stored & Hw & Hu & Hin).
    assert (KV.mk (ID a) stored ∈ scan) as Hkv by by apply elem_of_rangeScan.
    apply list_elem_of_lookup_1 in Hkv as [i Hi].
    destruct (Forall2_lookup_l _ _ _ _ _ Hrec Hi) as (a' & Ha' & Hu' & _).
    cbn in Hu'. assert (a' = a) as -> by congruence.
    by eapply list_elem_of_lookup_2.
Qed.

End Ranges.

Lemma IndexInvariant_ledgerSeeded : IndexInvariant (world ledgerSeeded).
Proof.
  change (world ledgerSeeded)
    with (applyWrites (world ledger0) (wset (snd (InitLedger ledger0 emptyLog)))).
  apply (createEach_IndexInvariant ledger0 initialAssets) with (t := emptyLog).
  - apply (bool_decide_unpack _). by vm_compute.
  - vm_compute. reflexivity.
  - apply IndexInvariant_empty.
  - done.
Qed.

Lemma range_queries_refuse_composite_keys_witness :
  exists e,
    validateSimpleKeys [keyText "blue" ""; ""] = Err e
    /\ GetAssetsByRange (keyText "blue" "") "" ledgerSeeded emptyLog = (Err e, emptyLog)
    /\ (forall peer pageSize bookmark,
          GetAssetsByRangeWithPagination peer (keyText "blue" "") "" pageSize bookmark
          = Err e).
Proof.
  apply (range_queries_refuse_composite_keys ledgerSeeded emptyLog (keyText "blue" "") "").
  left. reflexivity.
Defined.

Lemma GetAssetsByRange_lists_assets_witness :
  exists assets,
    fst (GetAssetsByRange "" "" ledgerSeeded emptyLog) = Ok assets
    /\ (forall a, a ∈ elems assets
                  <-> exists stored, world ledgerSeeded !! ID a = Some stored
                                     /\ json_Unmarshal stored = Ok a
                                     /\ inRange emptyKeySubstitute "" (ID a) = true)
    /\ Sorted (fun x y => String.leb x y = true) (ID <$> elems assets)
    /\ NoDup (ID <$> elems assets).
Proof.
  apply (GetAssetsByRange_lists_assets ledgerSeeded emptyLog "" "").
  - apply IndexInvariant_ledgerSeeded.
  - reflexivity.
  - reflexivity.
  - reflexivity.
Defined.

(** ** The scan of a color prefix yields index entries of that color only *)

Lemma compare_first_gt b c s1 s2 :
  (Utf8.code c < Utf8.code b)%N -> String.compare (String b s1) (String c s2) = Gt.
Proof.
  intros Hlt. rewrite compare_antisym. by rewrite (compare_first_lt c b s2 s1).
Qed.

Lemma code_inj b c : Utf8.code b = Utf8.code c -> b = c.
Proof.
  unfold Utf8.code. intros Heq.
  by rewrite <- (ascii_N_embedding b), <- (ascii_N_embedding c), Heq.
Qed.

Lemma code_notNul b : negb (Ascii.eqb b NUL) = true -> (0 < Utf8.code b)%N.
Proof.
  intros Hb. destruct (N.eq_dec (Utf8.code b) 0%N) as [H0|H0]; [|lia].
  assert (b = NUL) as -> by by apply code_inj. done.
Qed.

Lemma color_prefix_inj color :
  forall c rest,
    nulFree color = true -> nulFree c = true ->
    String.compare (color +:+ String NUL EmptyString) (c +:+ String NUL rest) <> Gt ->
    String.compare (c +:+ String NUL rest) (color +:+ String NUL Utf8.MaxRuneString) = Lt ->
    c = color.
Proof.
  induction color as [|y color IH]; intros c rest Hcolor Hc Hlow Hup.
  - destruct c as [|x c]; [done|]. exfalso.
    cbn [nulFree] in Hc. apply andb_prop in Hc as [Hx _]. apply code_notNul in Hx.
    rewrite append_nil, append_cons in Hup.
    rewrite compare_first_gt in Hup; [done|]. by change (Utf8.code NUL) with 0%N.
  - cbn [nulFree] in Hcolor. apply andb_prop in Hcolor as [Hy Hcolor].
    apply code_notNul in Hy. rewrite !append_cons in Hlow, Hup.
    destruct c as [|x c].
    + exfalso. apply Hlow. rewrite append_nil. apply compare_first_gt.
      by change (Utf8.code NUL) with 0%N.
    + cbn [nulFree] in Hc. apply andb_prop in Hc as [_ Hc]. rewrite !append_cons in Hlow, Hup.
      destruct (N.lt_trichotomy (Utf8.code x) (Utf8.code y)) as [Hlt|[Heq|Hgt]].
      * exfalso. apply Hlow. by apply compare_first_gt.
      * apply code_inj in Heq. subst y.
        rewrite compare_first_eq in Hlow, Hup by done.
        f_equal. by apply (IH c rest).
      * by rewrite compare_first_gt in Hup.
Qed.

Lemma scanned_color c id color partialKey :
  CreateCompositeKey index [color] = Ok partialKey ->
  nulFree c = true ->
  inRange partialKey (partialKey +:+ Utf8.MaxRuneString) (keyText c id) = true ->
  c = color.
Proof.
  intros [Hcolor ->]%partialKey_inv Hc [Hlow Hup]%andb_prop.
  apply validate_nulFree in Hcolor.
  set (p := String NUL (index +:+ String NUL EmptyString)).
  assert (forall a : string, String NUL (index +:+ String NUL a) = p +:+ a) as Hp.
  { intros a. unfold p. str_simpl. reflexivity. }
  unfold keyText in Hlow, Hup. rewrite !Hp in Hlow, Hup.
  rewrite append_assoc_str in Hup.
  apply (color_prefix_inj color c (id +:+ String NUL EmptyString)); try done.
  - unfold String.leb in Hlow. rewrite compare_prefix in Hlow.
    intros Hgt. by rewrite Hgt in Hlow.
  - apply orb_prop in Hup as [Hup|Hup].
    { apply String.eqb_eq in Hup. unfold p in Hup. rewrite ?append_cons in Hup.
      discriminate. }
    unfold String.ltb in Hup. rewrite compare_prefix, append_assoc_str, append_cons in Hup.
    by destruct (String.compare _ _).
Qed.

Lemma scanned_key_composite partialKey k :
  startsWithNul partialKey = true ->
  inRange partialKey (partialKey +:+ Utf8.MaxRuneString) k = true ->
  startsWithNul k = true.
Proof.
  intros Hp [Hlow Hup]%andb_prop.
  destruct partialKey as [|a p]; [done|]. cbn [startsWithNul] in Hp.
  apply Ascii.eqb_eq in Hp. subst a.
  destruct k as [|b r]; [done|]. cbn [startsWithNul].
  destruct (Ascii.eqb b NUL) eqn:Hb; [done|]. exfalso.
  apply orb_prop in Hup as [Hup|Hup]; [done|].
  unfold String.ltb in Hup. rewrite append_cons in Hup.
  rewrite compare_first_gt in Hup; [done|].
  change (Utf8.code NUL) with 0%N. apply code_notNul. by rewrite Hb.
Qed.

Section ColorScanOnly.

Context `{Platform}.

(** under the invariant an entry of the scan of a color is the index entry
    of a stored asset of that color *)
Lemma color_scan_entry w color partialKey kv :
  IndexInvariant w ->
  CreateCompositeKey index [color] = Ok partialKey ->
  kv ∈ rangeScan w partialKey (partialKey +:+ Utf8.MaxRuneString) ->
  exists id stored asset,
    KV.Key kv = keyText color id
    /\ SplitCompositeKey (KV.Key kv) = Ok (index, [color; id])
    /\ w !! id = Some stored /\ json_Unmarshal stored = Ok asset /\ Color asset = color.
Proof.
  intros Hinv Hpk [Hw Hin]%elem_of_rangeScan.
  assert (startsWithNul (KV.Key kv) = true) as Hnul.
  { apply (scanned_key_composite partialKey); [|done].
    by apply partialKey_inv in Hpk as [_ ->]. }
  destruct (index_backed w Hinv _ _ Hw Hnul) as (_ & c & id & old & a & Hk & Hid & Hu & Hc).
  destruct (indexKey_inv _ _ _ Hk) as (Hvc & Hvi & Hkey).
  apply validate_nulFree in Hvc, Hvi.
  rewrite Hkey in Hin. apply (scanned_color _ _ _ _ Hpk Hvc) in Hin. subst c.
  exists id, old, a. rewrite Hkey. repeat split; try done.
  by apply SplitCompositeKey_keyText.
Qed.

End ColorScanOnly.

(** ** Transfer by color: what is left alone, and when it succeeds *)

Section TransferByColor.

Context `{Platform}.

Lemma transferLoop_writes L newOwner kvs :
  forall t t',
    transferLoop newOwner (Ok <$> kvs) L t = (Ok tt, t') ->
    exists ws,
      wset t' = wset t ++ ws
      /\ Forall (fun w => exists kv objectType c rest,
                   kv ∈ kvs
                   /\ SplitCompositeKey (KV.Key kv)
                      = Ok (objectType, c :: writtenKey w :: rest)) ws.
Proof.
  induction kvs as [|kv kvs IH]; intros t t' Hrun.
  - injection Hrun as <-. exists []. by rewrite app_nil_r.
  - cbn [fmap list_fmap transferLoop] in Hrun. unfold bind at 1, liftR in Hrun.
    unfold bind at 1 in Hrun.
    destruct (transferEntry newOwner kv L t) as [[[]|e] t1] eqn:He; [|done].
    destruct (IH _ _ Hrun) as (ws & Hws & Hall).
    assert (Forall (fun w => exists kv0 objectType c rest,
                      kv0 ∈ kv :: kvs
                      /\ SplitCompositeKey (KV.Key kv0)
                         = Ok (objectType, c :: writtenKey w :: rest)) ws) as Hall'.
    { eapply Forall_impl; [exact Hall|]. intros w (kv0 & ot & c & rest & Hin & Hs).
      exists kv0, ot, c, rest. split; [by right|done]. }
    apply transferEntry_Ok in He as (objectType & parts & Hsplit & Hparts).
    destruct parts as [|c [|id rest]].
    + subst t1. by exists ws.
    + subst t1. by exists ws.
    + destruct Hparts as (stored & asset & b & _ & _ & _ & _ & _ & _ & ->).
      exists (WPut id b :: ws). cbn [wset] in Hws. rewrite Hws, <- app_assoc.
      split; [done|]. constructor; [|done].
      exists kv, objectType, c, rest. split; [by left|done].
Qed.

Lemma TransferAssetByColor_Ok L t' color newOwner :
  TransferAssetByColor color newOwner L emptyLog = (Ok tt, t') ->
  exists partialKey,
    CreateCompositeKey index [color] = Ok partialKey
    /\ transferLoop newOwner
         (Ok <$> rangeScan (world L) partialKey (partialKey +:+ Utf8.MaxRuneString)) L
         (logCall (CallGetStateByRange partialKey (partialKey +:+ Utf8.MaxRuneString))
                  emptyLog)
       = (Ok tt, t').
Proof.
  unfold TransferAssetByColor, GetStateByPartialCompositeKey, handleGetStateByRange.
  unfold bind at 1. unfold bind at 1, liftR, ask.
  destruct (CreateCompositeKey index [color]) as [partialKey|e]; [|done].
  destruct (fault L _); [done|]. intros Hrun. exists partialKey. split; [done|].
  pose proof Hrun as (kvs & _ & Hit & _)%transferLoop_Ok.
  apply iterate_all_Ok in Hit as Hkvs. rewrite Hit in Hrun. by rewrite <- Hkvs.
Qed.

(** X19: a transfer by color touches the assets of the color only.  On a
    state that meets the index invariant, when [TransferAssetByColor]
    succeeds every key that does not hold an asset of the color holds after
    the commit what it held before: an asset of another color keeps its
    record, and no key is created. *)
Theorem TransferAssetByColor_other_colors_untouched L t' color newOwner :
  IndexInvariant (world L) ->
  TransferAssetByColor color newOwner L emptyLog = (Ok tt, t') ->
  (forall k,
     ~ (exists stored asset,
          world L !! k = Some stored /\ json_Unmarshal stored = Ok asset
          /\ Color asset = color) ->
     committed L t' !! k = world L !! k)
  /\ (forall id stored asset,
        world L !! id = Some stored -> json_Unmarshal stored = Ok asset ->
        Color asset <> color ->
        committed L t' !! id = Some stored).
Proof.
  intros Hinv (partialKey & Hpk & Hloop)%TransferAssetByColor_Ok.
  apply transferLoop_writes in Hloop as (ws & Hws & Hall).
  cbn [wset logCall emptyLog app] in Hws.
  assert (forall k,
            ~ (exists stored asset,
                 world L !! k = Some stored /\ json_Unmarshal stored = Ok asset
                 /\ Color asset = color) ->
            committed L t' !! k = world L !! k) as Hframe.
  { intros k Hk. unfold committed. rewrite Hws. apply applyWrites_untouched.
    eapply Forall_impl; [exact Hall|]. intros w (kv & ot & c & rest & Hin & Hs) Heq.
    apply Hk.
    destruct (color_scan_entry _ _ _ _ Hinv Hpk Hin)
      as (id & stored & asset & _ & Hs' & Hw & Hu & Hc).
    rewrite Hs' in Hs. injection Hs as _ _ Hid _. subst k. rewrite <- Hid.
    by exists stored, asset. }
  split; [exact Hframe|].
  intros id stored asset Hw Hu Hc. rewrite Hframe; [done|].
  intros (stored' & asset' & Hw' & Hu' & Hc'). congruence.
Qed.

Lemma transferLoop_total L newOwner kvs :
  Forall (fun kv => forall t, exists t', transferEntry newOwner kv L t = (Ok tt, t')) kvs ->
  forall t, exists t', transferLoop newOwner (Ok <$> kvs) L t = (Ok tt, t').
Proof.
  induction 1 as [|kv kvs Hkv _ IH]; intros t; [by eexists|].
  destruct (Hkv t) as [t1 Ht1]. destruct (IH t1) as [t' Ht'].
  exists t'. cbn [fmap list_fmap transferLoop]. unfold bind at 1, liftR.
  unfold bind at 1. by rewrite Ht1.
Qed.

(** X20: on a state that meets the index invariant and holds nothing under
    the empty key, and on a ledger whose calls and iterators do not fail,
    [TransferAssetByColor] succeeds for every color that is an admissible
    attribute; for a color that is not, it returns the error of the
    validation without a call to the ledger. *)
Theorem TransferAssetByColor_succeeds L t color newOwner :
  (forall e, validateCompositeKeyAttribute color = Err e ->
     TransferAssetByColor color newOwner L t = (Err e, t))
  /\ (IndexInvariant (world L) ->
      world L !! "" = None ->
      faultless L ->
      validateCompositeKeyAttribute color = Ok tt ->
      exists t', TransferAssetByColor color newOwner L t = (Ok tt, t')).
Proof.
  split.
  - intros e He. unfold TransferAssetByColor, GetStateByPartialCompositeKey.
    unfold bind at 1. unfold bind at 1, liftR. unfold CreateCompositeKey.
    change (validateCompositeKeyAttribute index) with (@Ok unit tt).
    cbn [appendAttributes]. by rewrite He.
  - intros Hinv Hempty [Hf Hnf] Hv.
    assert (exists partialKey, CreateCompositeKey index [color] = Ok partialKey)
      as [partialKey Hpk].
    { unfold CreateCompositeKey.
      change (validateCompositeKeyAttribute index) with (@Ok unit tt).
      cbn [appendAttributes]. rewrite Hv. by eexists. }
    set (scan := rangeScan (world L) partialKey (partialKey +:+ Utf8.MaxRuneString)).
    destruct (transferLoop_total L newOwner scan) with
      (t := logCall (CallGetStateByRange partialKey (partialKey +:+ Utf8.MaxRuneString)) t)
      as [t' Ht'].
    { apply Forall_forall. intros kv Hin t0.
      destruct (color_scan_entry _ _ _ _ Hinv Hpk Hin)
        as (id & stored & asset & _ & Hs & Hw & Hu & _).
      destruct (json_Marshal_total (setOwner asset newOwner)) as [b Hb].
      assert (String.eqb id "" = false) as Hid.
      { destruct (String.eqb id "") eqn:E; [|done].
        apply String.eqb_eq in E. subst id. congruence. }
      eexists. unfold transferEntry. unfold bind at 1, liftR. rewrite Hs. cbn [snd].
      unfold bind at 1. rewrite ReadAsset_run, Hf, Hw, Hu.
      unfold bind at 1. rewrite Hb. unfold mapErr. by rewrite PutState_run, Hid, Hf. }
    exists t'. unfold TransferAssetByColor, GetStateByPartialCompositeKey,
      handleGetStateByRange.
    unfold bind at 1. unfold bind at 1, liftR, ask. rewrite Hpk, Hf.
    by rewrite iterate_no_fault.
Qed.

(** X21: with no asset of the color there is nothing to transfer: on a state
    that meets the index invariant and holds no asset of the color, when the
    scan opens without a fault [TransferAssetByColor] succeeds after that
    one call and writes nothing. *)
Theorem TransferAssetByColor_no_asset L t color newOwner partialKey :
  IndexInvariant (world L) ->
  CreateCompositeKey index [color] = Ok partialKey ->
  fault L (CallGetStateByRange partialKey (partialKey +:+ Utf8.MaxRuneString)) = None ->
  (forall id stored asset,
     world L !! id = Some stored -> json_Unmarshal stored = Ok asset ->
     Color asset <> color) ->
  TransferAssetByColor color newOwner L t
  = (Ok tt,
     logCall (CallGetStateByRange partialKey (partialKey +:+ Utf8.MaxRuneString)) t).
Proof.
  intros Hinv Hpk Hf Hnone.
  assert (rangeScan (world L) partialKey (partialKey +:+ Utf8.MaxRuneString) = []) as Hscan.
  { destruct (rangeScan _ _ _) as [|kv scan] eqn:E; [done|]. exfalso.
    destruct (color_scan_entry (world L) color partialKey kv Hinv Hpk)
      as (id & stored & asset & _ & _ & Hw & Hu & Hc).
    { rewrite E. by left. }
    by apply (Hnone _ _ _ Hw Hu). }
  unfold TransferAssetByColor, GetStateByPartialCompositeKey, handleGetStateByRange.
  unfold bind at 1. unfold bind at 1, liftR, ask. rewrite Hpk, Hf.
  unfold iterate. by rewrite Hscan.
Qed.

End TransferByColor.

Lemma faultless_ledgerSeeded : faultless ledgerSeeded.
Proof. by split. Qed.

Lemma TransferAssetByColor_other_colors_untouched_witness :
  let t' := snd (TransferAssetByColor "blue" "Alice" ledgerSeeded emptyLog) in
  committed ledgerSeeded t' !! "asset2"
  = Some (referenceBytes (mkAsset "asset" "asset2" "red" 5 "Brad" 400)).
Proof.
  intros t'.
  apply (proj2 (TransferAssetByColor_other_colors_untouched ledgerSeeded t' "blue" "Alice"
                  IndexInvariant_ledgerSeeded ltac:(by vm_compute))
           "asset2" _ (mkAsset "asset" "asset2" "red" 5 "Brad" 400)).
  - by vm_compute.
  - by vm_compute.
  - discriminate.
Defined.

Lemma TransferAssetByColor_succeeds_witness :
  exists t', TransferAssetByColor "blue" "Alice" ledgerSeeded emptyLog = (Ok tt, t').
Proof.
  apply (proj2 (TransferAssetByColor_succeeds ledgerSeeded emptyLog "blue" "Alice")).
  - apply IndexInvariant_ledgerSeeded.
  - by vm_compute.
  - apply faultless_ledgerSeeded.
  - reflexivity.
Defined.

Lemma TransferAssetByColor_no_asset_witness :
  TransferAssetByColor "blue" "Alice" ledger0 emptyLog
  = (Ok tt,
     mkTxLog [CallGetStateByRange
                (String NUL (index +:+ String NUL ("blue" +:+ String NUL EmptyString)))
                (String NUL (index +:+ String NUL ("blue" +:+ String NUL EmptyString))
                 +:+ Utf8.MaxRuneString)] []).
Proof.
  apply (TransferAssetByColor_no_asset ledger0 emptyLog "blue" "Alice").
  - apply IndexInvariant_empty.
  - reflexivity.
  - reflexivity.
  - intros id stored asset Hw. cbn in Hw. by rewrite lookup_empty in Hw.
Defined.

(** ** Seeding the ledger *)

Section SeedingTheLedger.

Context `{Platform}.

Lemma createEach_writes L assets :
  forall t t',
    createEach assets L t = (Ok tt, t') ->
    exists ws,
      wset t' = wset t ++ ws
      /\ length ws = 2 * length assets
      /\ Forall (fun w => writtenKey w ∈ ID <$> assets
                          \/ startsWithNul (writtenKey w) = true) ws.
Proof.
  induction assets as [|a assets IH]; intros t t' Hrun.
  - injection Hrun as <-. exists []. by rewrite app_nil_r.
  - cbn [createEach] in Hrun. unfold bind in Hrun.
    destruct (CreateAsset _ _ _ _ _ L t) as [[[]|e] t1] eqn:Ha; [|discriminate].
    apply CreateAsset_Ok in Ha as (b & ck & _ & _ & _ & _ & _ & Hck & _ & ->).
    destruct (IH _ _ Hrun) as (ws & Hws & Hlen & Hall). cbn [wset] in Hws.
    exists (createWrites (ID a) b ck ++ ws). rewrite Hws, <- app_assoc.
    split; [done|]. split; [rewrite length_app; cbn; lia|].
    apply Forall_app. split.
    + apply Forall_cons. split; [left; cbn; by left|].
      apply Forall_cons. split; [|by constructor].
      right. cbn. by eapply indexKey_startsWithNul.
    + eapply Forall_impl; [exact Hall|]. intros w [Hin|Hnul]; [left|by right].
      cbn. by right.
Qed.

Lemma createEach_succeeds L assets :
  (forall c, fault L c = None) ->
  Forall (fun a => world L !! ID a = None /\ ID a <> ""
                   /\ is_Ok (indexKey (Color a) (ID a)) = true) assets ->
  forall t, exists t', createEach assets L t = (Ok tt, t').
Proof.
  intros Hf. induction 1 as [|a assets (Hw & Hne & Hk) _ IH]; intros t; [by eexists|].
  destruct (json_Marshal_total (mkAsset "asset" (ID a) (Color a) (Size a) (Owner a)
                                        (AppraisedValue a))) as [b Hb].
  destruct (indexKey (Color a) (ID a)) as [ck|e] eqn:Hck; [|done].
  pose proof (CreateAsset_run_Ok L t _ _ _ _ _ b ck (Hf _) Hw Hb Hne (Hf _) Hck (Hf _))
    as Hrun.
  destruct (IH (mkTxLog (calls t ++ createCalls (ID a) b ck)
                        (wset t ++ createWrites (ID a) b ck))) as [t' Ht'].
  exists t'. cbn [createEach]. unfold bind. by rewrite Hrun.
Qed.

Lemma createEach_stored L assets :
  NoDup (ID <$> assets) ->
  forall t t' w0,
    createEach assets L t = (Ok tt, t') ->
    forall a, a ∈ assets ->
      exists b,
        json_Marshal (mkAsset "asset" (ID a) (Color a) (Size a) (Owner a) (AppraisedValue a))
        = Ok b
        /\ applyWrites w0 (wset t') !! ID a = Some b.
Proof.
  induction assets as [|a assets IH]; intros Hnd t t' w0 Hrun a' Ha'.
  - by apply elem_of_nil in Ha'.
  - cbn [createEach] in Hrun. unfold bind in Hrun.
    destruct (CreateAsset _ _ _ _ _ L t) as [[[]|e] t1] eqn:Ha; [|discriminate].
    cbn [fmap list_fmap] in Hnd. apply NoDup_cons in Hnd as [Hnotin Hnd].
    apply elem_of_cons in Ha' as [->|Ha']; [|by eapply IH].
    apply CreateAsset_Ok in Ha as (b & ck & _ & _ & Hb & _ & _ & Hck & _ & ->).
    exists b. split; [done|].
    destruct (createEach_writes _ _ _ _ Hrun) as (ws & Hws & _ & Hall).
    cbn [wset] in Hws. rewrite Hws, !applyWrites_app.
    rewrite applyWrites_untouched.
    + rewrite applyWrites_create by by eapply json_Marshal_nonempty.
      rewrite lookup_insert_ne by by eapply indexKey_ne_id.
      by rewrite lookup_insert_eq.
    + eapply Forall_impl; [exact Hall|]. intros w [Hin|Hnul] Heq.
      * apply Hnotin. by rewrite <- Heq.
      * rewrite Heq in Hnul. apply indexKey_simple_id in Hck. congruence.
Qed.

(** X22: on a ledger whose calls do not fail and that holds none of the six
    ids, [InitLedger] succeeds with twelve writes, a record and an index
    entry for each asset.  Once they are committed, [ReadAsset] returns each
    of the six assets as listed in the source, and a second [InitLedger] is
    refused at its first asset, after the one probe and without a write. *)
Theorem InitLedger_seeds L :
  (forall c, fault L c = None) ->
  (forall a, a ∈ initialAssets -> world L !! ID a = None) ->
  exists t',
    InitLedger L emptyLog = (Ok tt, t')
    /\ length (wset t') = 12
    /\ forall L',
         world L' = committed L t' ->
         (forall a, a ∈ initialAssets ->
            fault L' (CallGetState (ID a)) = None ->
            fst (ReadAsset (ID a) L' emptyLog) = Ok a)
         /\ (fault L' (CallGetState "asset1") = None ->
             InitLedger L' emptyLog
             = (Err "asset already exists: asset1", mkTxLog [CallGetState "asset1"] [])).
Proof.
  intros Hf Hfree.
  assert (Forall (fun a => DocType a = "asset"
                           /\ ID a <> ""
                           /\ is_Ok (indexKey (Color a) (ID a)) = true
                           /\ Utf8.ValidString (DocType a) = true
                           /\ Utf8.ValidString (ID a) = true
                           /\ Utf8.ValidString (Color a) = true
                           /\ Utf8.ValidString (Owner a) = true) initialAssets) as Hlit.
  { repeat constructor; discriminate. }
  destruct (createEach_succeeds L initialAssets Hf) with (t := emptyLog) as [t' Ht'].
  { apply Forall_forall. intros a Ha.
    destruct (proj1 (Forall_forall _ _) Hlit a Ha) as (_ & Hne & Hk & _).
    by split; [apply Hfree|]. }
  exists t'. split; [exact Ht'|].
  destruct (createEach_writes _ _ _ _ Ht') as (ws & Hws & Hlen & _).
  split; [by rewrite Hws|].
  assert (NoDup (ID <$> initialAssets)) as Hnd.
  { apply (bool_decide_unpack _). by vm_compute. }
  assert (forall L' a, world L' = committed L t' -> a ∈ initialAssets ->
            exists b, world L' !! ID a = Some b /\ json_Unmarshal b = Ok a) as Hstored.
  { intros L' a HL' Ha.
    destruct (createEach_stored L initialAssets Hnd _ _ (world L) Ht' a Ha) as (b & Hb & Hw).
    exists b. split; [by rewrite HL'|].
    destruct (proj1 (Forall_forall _ _) Hlit a Ha) as (Hd & _ & _ & Hv1 & Hv2 & Hv3 & Hv4).
    rewrite (json_round_trip _ _ Hb). cbn.
    rewrite !toValidUTF8_valid by (done || by rewrite <- Hd).
    destruct a. cbn in *. by subst. }
  intros L' HL'. split.
  - intros a Ha Hfa. destruct (Hstored L' a HL' Ha) as (b & Hw & Hu).
    by rewrite ReadAsset_run, Hfa, Hw.
  - intros Hf1.
    destruct (Hstored L' (mkAsset "asset" "asset1" "blue" 5 "Tomoko" 300) HL')
      as (b & Hw & _); [by left|]. cbn [ID] in Hw.
    unfold InitLedger, initialAssets. cbn [createEach ID Color Size Owner AppraisedValue].
    unfold bind at 1. unfold CreateAsset. unfold bind at 1, mapErr.
    by rewrite AssetExists_run, Hf1, Hw.
Qed.

End SeedingTheLedger.

Lemma InitLedger_seeds_witness :
  exists t',
    InitLedger ledger0 emptyLog = (Ok tt, t')
    /\ length (wset t') = 12
    /\ forall L',
         world L' = committed ledger0 t' ->
         (forall a, a ∈ initialAssets ->
            fault L' (CallGetState (ID a)) = None ->
            fst (ReadAsset (ID a) L' emptyLog) = Ok a)
         /\ (fault L' (CallGetState "asset1") = None ->
             InitLedger L' emptyLog
             = (Err "asset already exists: asset1", mkTxLog [CallGetState "asset1"] [])).
Proof.
  apply (InitLedger_seeds ledger0).
  - reflexivity.
  - intros a _. apply lookup_empty.
Defined.

(** ** The history of a key: the edges *)

Section HistoryEdges.

Context `{Platform}.

(** X23: the edges of [GetAssetHistory].  A failing call to the ledger is
    returned as it is.  A key without history gives the nil slice and no
    error.  An entry whose timestamp the conversion refuses fails the whole
    call with the error of the conversion, whether the entry carries a
    record or is a deletion, and the records read before it are not
    returned. *)
Theorem GetAssetHistory_edges L t assetID :
  (forall e, fault L (CallGetHistoryForKey assetID) = Some e ->
     GetAssetHistory assetID L t = (Err e, logCall (CallGetHistoryForKey assetID) t))
  /\ (fault L (CallGetHistoryForKey assetID) = None ->
      keyHistory L assetID = [] ->
      GetAssetHistory assetID L t
      = (Ok nil_slice, logCall (CallGetHistoryForKey assetID) t))
  /\ (forall pre e post msg,
        fault L (CallGetHistoryForKey assetID) = None ->
        (forall n, nextFault L (CallGetHistoryForKey assetID) n = None) ->
        keyHistory L assetID = pre ++ e :: post ->
        Forall (fun e => is_Ok (historyRecord assetID e) = true) pre ->
        KeyModification.Value e = []
        \/ is_Ok (json_Unmarshal (KeyModification.Value e)) = true ->
        ptypes_Timestamp (KeyModification.Timestamp e) = Err msg ->
        GetAssetHistory assetID L t
        = (Err msg, logCall (CallGetHistoryForKey assetID) t)).
Proof.
  unfold GetAssetHistory, GetHistoryForKey, bind, liftR, ask.
  split; [|split].
  - by intros e ->.
  - intros -> ->. reflexivity.
  - intros pre e post msg -> Hnf -> Hpre Hvalue Hts.
    rewrite iterate_no_fault by done.
    rewrite (historyLoop_Err assetID pre e post msg Hpre); [done|].
    unfold historyRecord. destruct Hvalue as [->|Hdec].
    + cbn [length Nat.ltb Nat.leb bindR]. by rewrite Hts.
    + destruct (0 <? length (KeyModification.Value e))%nat.
      * destruct (json_Unmarshal (KeyModification.Value e)); [|done].
        cbn [bindR]. by rewrite Hts.
      * cbn [bindR]. by rewrite Hts.
Qed.

End HistoryEdges.

Lemma GetAssetHistory_edges_witness :
  GetAssetHistory "asset2" ledgerH emptyLog
  = (Ok nil_slice, mkTxLog [CallGetHistoryForKey "asset2"] []).
Proof.
  apply (proj1 (proj2 (GetAssetHistory_edges ledgerH emptyLog "asset2"))); reflexivity.
Defined.

(** ** Composite keys *)

(** X24: the index key round trip.  The key that [CreateAsset] files the
    index entry under splits back, as [TransferAssetByColor] splits it, into
    the object type and the color and id it was made of, so the second
    attribute the transfer reads is the id; keys made of different colors or
    ids differ, and an index key is never the id of an asset. *)
Theorem index_key_round_trip color assetID ck :
  CreateCompositeKey index [color; assetID] = Ok ck ->
  SplitCompositeKey ck = Ok (index, [color; assetID])
  /\ (forall color' assetID',
        CreateCompositeKey index [color'; assetID'] = Ok ck ->
        color' = color /\ assetID' = assetID)
  /\ startsWithNul ck = true
  /\ (forall color' assetID' ck',
        CreateCompositeKey index [color'; assetID'] = Ok ck' -> ck <> assetID').
Proof.
  intros Hk. change (indexKey color assetID = Ok ck) in Hk.
  destruct (indexKey_inv _ _ _ Hk) as (Hc & Hi & Hck).
  split; [|split; [|split]].
  - rewrite Hck. apply SplitCompositeKey_keyText; by apply validate_nulFree.
  - intros color' assetID' Hk'. by apply (indexKey_inj _ _ _ _ ck).
  - by eapply indexKey_startsWithNul.
  - intros color' assetID' ck' Hk' Heq. subst ck.
    apply indexKey_startsWithNul in Hk.
    change (indexKey color' assetID' = Ok ck') in Hk'.
    apply indexKey_simple_id in Hk'. congruence.
Qed.

Lemma index_key_round_trip_witness :
  SplitCompositeKey (keyText "blue" "asset1") = Ok (index, ["blue"; "asset1"]).
Proof.
  apply (index_key_round_trip "blue" "asset1" (keyText "blue" "asset1")). reflexivity.
Defined.

(** ** Ad hoc queries and the errors of a creation *)

Section AdHoc.

Context `{Platform}.


(** X27: how [CreateAsset] reports a failing ledger call.  A failing probe is
    reported wrapped twice, by [AssetExists] with the id and by
    [CreateAsset], and nothing is written; a failing put of the record is
    returned as it is and nothing is written; a failing put of the index
    entry is returned as it is, after the put of the record has entered the
    write set. *)
Theorem CreateAsset_errors L t assetID color size owner appraisedValue :
  (forall e, fault L (CallGetState assetID) = Some e ->
     CreateAsset assetID color size owner appraisedValue L t
     = (Err ("failed to get asset: failed to read asset " +:+ assetID
             +:+ " from world state. " +:+ e),
        logCall (CallGetState assetID) t))
  /\ (forall assetBytes,
        fault L (CallGetState assetID) = None -> world L !! assetID = None ->
        assetID <> "" ->
        json_Marshal (mkAsset "asset" assetID color size owner appraisedValue)
        = Ok assetBytes ->
        (forall e, fault L (CallPutState assetID assetBytes) = Some e ->
           fst (CreateAsset assetID color size owner appraisedValue L t) = Err e
           /\ wset (snd (CreateAsset assetID color size owner appraisedValue L t))
              = wset t)
        /\ (forall ck e, fault L (CallPutState assetID assetBytes) = None ->
              indexKey color assetID = Ok ck ->
              fault L (CallPutState ck [x00]) = Some e ->
              fst (CreateAsset assetID color size owner appraisedValue L t) = Err e
              /\ wset (snd (CreateAsset assetID color size owner appraisedValue L t))
                 = wset t ++ [WPut assetID assetBytes])).
Proof.
  split.
  - intros e Hf. unfold CreateAsset. unfold bind at 1, mapErr.
    rewrite AssetExists_run, Hf. by str_simpl.
  - intros b Hf Hw Hne Hb.
    assert (String.eqb assetID "" = false) as Hneb.
    { destruct (String.eqb assetID "") eqn:E; [|done]. by apply String.eqb_eq in E. }
    rewrite CreateAsset_run by done. unfold bind, liftR. rewrite Hb.
    rewrite PutState_run, Hneb. split.
    + by intros e ->.
    + intros ck e -> Hk Hfk. rewrite Hk, PutState_run, Hfk.
      destruct (String.eqb ck "") eqn:E; [|done].
      apply String.eqb_eq in E. subst ck. by apply indexKey_startsWithNul in Hk.
Qed.

End AdHoc.


Lemma CreateAsset_errors_witness :
  CreateAsset "asset1" "blue" 5 "Tomoko" 300 ledgerDown emptyLog
  = (Err "failed to get asset: failed to read asset asset1 from world state. connection lost",
     mkTxLog [CallGetState "asset1"] []).
Proof.
  apply (proj1 (CreateAsset_errors ledgerDown emptyLog "asset1" "blue" 5 "Tomoko" 300)).
  reflexivity.
Defined.

(** ** The errors of a transfer *)

Section TransferErrors.

Context `{Platform}.

(** X28: how [TransferAsset] fails.  A failing read is reported with the
    id, and a stored value that does not decode gives the error of the
    decoder; a failing put of the rewritten record is returned as it is.  In
    each case nothing is written, and the stored record stays as it was. *)
Theorem TransferAsset_errors L t assetID newOwner :
  (forall e, fault L (CallGetState assetID) = Some e ->
     TransferAsset assetID newOwner L t
     = (Err ("failed to get asset " +:+ assetID +:+ ": " +:+ e),
        logCall (CallGetState assetID) t))
  /\ (forall stored e,
        fault L (CallGetState assetID) = None ->
        world L !! assetID = Some stored -> json_Unmarshal stored = Err e ->
        TransferAsset assetID newOwner L t = (Err e, logCall (CallGetState assetID) t))
  /\ (forall stored asset assetBytes e,
        fault L (CallGetState assetID) = None ->
        world L !! assetID = Some stored -> json_Unmarshal stored = Ok asset ->
        assetID <> "" ->
        json_Marshal (setOwner asset newOwner) = Ok assetBytes ->
        fault L (CallPutState assetID assetBytes) = Some e ->
        fst (TransferAsset assetID newOwner L t) = Err e
        /\ wset (snd (TransferAsset assetID newOwner L t)) = wset t
        /\ committed L (snd (TransferAsset assetID newOwner L emptyLog)) !! assetID
           = Some stored).
Proof.
  split; [|split].
  - intros e Hf. unfold TransferAsset. unfold bind at 1. by rewrite ReadAsset_run, Hf.
  - intros stored e Hf Hw Hu. unfold TransferAsset. unfold bind at 1.
    by rewrite ReadAsset_run, Hf, Hw, Hu.
  - intros stored asset b e Hf Hw Hu Hne Hb Hp.
    assert (String.eqb assetID "" = false) as Hneb.
    { destruct (String.eqb assetID "") eqn:E; [|done]. by apply String.eqb_eq in E. }
    assert (forall t0, TransferAsset assetID newOwner L t0
                       = PutState assetID b L (logCall (CallGetState assetID) t0)) as Hrun.
    { intros t0. unfold TransferAsset. unfold bind at 1.
      rewrite ReadAsset_run, Hf, Hw, Hu. unfold bind, liftR. by rewrite Hb. }
    rewrite !Hrun, !PutState_run, Hneb, Hp. split; [done|]. split; [done|]. exact Hw.
Qed.

End TransferErrors.

Lemma TransferAsset_errors_witness :
  fst (TransferAsset "asset1" "Alice" ledgerReadOnly emptyLog)
  = Err "read-only state database"
  /\ wset (snd (TransferAsset "asset1" "Alice" ledgerReadOnly emptyLog)) = [].
Proof.
  destruct (proj2 (proj2 (TransferAsset_errors ledgerReadOnly emptyLog "asset1" "Alice"))
              (referenceBytes (mkAsset "asset" "asset1" "blue" 5 "Tomoko" 300))
              (mkAsset "asset" "asset1" "blue" 5 "Tomoko" 300)
              (referenceBytes (mkAsset "asset" "asset1" "blue" 5 "Alice" 300))
              "read-only state database")
    as (He & Hw & _); [by vm_compute..|].
  by split.
Defined.
